(** * StudiozensImages: the media and product optimisation pipelines

    A shallow embedding of [optimize_media.py] and [optimize_productos.py]:
    Python floats, [pathlib] paths, the filesystem calls the scripts make,
    the image library and the external transcoder as interfaces, the two
    [optimize_*] functions and the two [main] procedures. *)

From Stdlib Require Import ZArith Lia Reals Lra String Ascii List Bool.
From stdpp Require Import gmap strings list pretty.

Local Open Scope Z_scope.

(** ** Python floats

    A Python [float] is an IEEE-754 binary64 number.  A finite one is
    [Fnum * 2^Fexp]; every arithmetic operation returns the exact result
    rounded to 53 significant bits, ties to even.  The exponent range is not
    bounded here: no quantity of the scripts comes near 2^-1022 or 2^1024. *)

Module PyFloat.

Record float := Float { Fnum : Z; Fexp : Z }.

Definition prec : Z := 53.

Definition zero : float := Float 0 0.

(** Numerator and denominator of [(n / d) / 2^e]. *)
Definition scaled (n d e : Z) : Z * Z :=
  if 0 <=? e then (n, d * 2 ^ e) else (n * 2 ^ (- e), d).

(** The integer nearest to [N / D], ties to even. *)
Definition nearest_even (N D : Z) : Z :=
  let q := N / D in
  let r := N mod D in
  if 2 * r <? D then q
  else if D <? 2 * r then q + 1
  else if Z.even q then q else q + 1.

(** [n / d] rounded to 53 bits, for [0 < n] and [0 < d]. *)
Definition round_pos (n d : Z) : float :=
  let e0 := Z.log2 n - Z.log2 d - prec in
  let '(num0, den0) := scaled n d e0 in
  let e := if num0 / den0 <? 2 ^ prec then e0 else e0 + 1 in
  let '(num, den) := scaled n d e in
  Float (nearest_even num den) e.

Definition Fopp (x : float) : float := Float (- Fnum x) (Fexp x).

(** [n / d] rounded, for any [n] and [0 < d]. *)
Definition round (n d : Z) : float :=
  match n with
  | 0 => zero
  | Zpos _ => round_pos n d
  | Zneg _ => Fopp (round_pos (- n) d)
  end.

Definition shift (x : float) (k : Z) : float := Float (Fnum x) (Fexp x + k).

(** [float(n)] *)
Definition of_int (n : Z) : float := round n 1.

(** [a / b] on two [int]s: the correctly rounded quotient, [None] standing for
    [ZeroDivisionError]. *)
Definition int_truediv (a b : Z) : option float :=
  if b =? 0 then None else Some (round (a * Z.sgn b) (Z.abs b)).

Definition Fmul (x y : float) : float :=
  shift (round (Fnum x * Fnum y) 1) (Fexp x + Fexp y).

(** [x / y] on floats; [None] is [ZeroDivisionError]. *)
Definition Fdiv (x y : float) : option float :=
  if Fnum y =? 0 then None
  else Some (shift (round (Fnum x * Z.sgn (Fnum y)) (Z.abs (Fnum y)))
                   (Fexp x - Fexp y)).

(** Both mantissas brought to the smaller exponent. *)
Definition align (x y : float) : Z * Z * Z :=
  let e := Z.min (Fexp x) (Fexp y) in
  (Fnum x * 2 ^ (Fexp x - e), Fnum y * 2 ^ (Fexp y - e), e).

Definition Fadd (x y : float) : float :=
  let '(mx, my, e) := align x y in shift (round (mx + my) 1) e.

Definition Fsub (x y : float) : float := Fadd x (Fopp y).

Definition Fltb (x y : float) : bool :=
  let '(mx, my, _) := align x y in mx <? my.

(** [x > 0] *)
Definition Fpos (x : float) : bool := 0 <? Fnum x.

(** [min(x, y)]: the first argument unless the second is smaller. *)
Definition py_min (x y : float) : float := if Fltb y x then y else x.

(** [int(x)]: truncation toward zero. *)
Definition py_int (x : float) : Z :=
  if 0 <=? Fexp x then Fnum x * 2 ^ Fexp x
  else Z.quot (Fnum x) (2 ^ (- Fexp x)).

(** The real number a float stands for. *)
Definition F2R (x : float) : R := (IZR (Fnum x) * powerRZ 2 (Fexp x))%R.

End PyFloat.

(** ** Image sizing (both scripts, the block under "Redimensionar") *)

Definition IMAGE_QUALITY : Z := 75.
Definition IMAGE_MAX_WIDTH : Z := 1920.
Definition IMAGE_MAX_HEIGHT : Z := 1080.
Definition CONVERT_TO_WEBP : bool := true.

Import PyFloat.

(** [ratio = min(IMAGE_MAX_WIDTH / img.width, IMAGE_MAX_HEIGHT / img.height)];
    [new_size = (int(img.width * ratio), int(img.height * ratio))].
    [None] is the [ZeroDivisionError] of a zero dimension. *)
Definition new_size (width height : Z) : option (Z * Z) :=
  match int_truediv IMAGE_MAX_WIDTH width, int_truediv IMAGE_MAX_HEIGHT height with
  | Some rw, Some rh =>
      let ratio := py_min rw rh in
      Some (py_int (Fmul (of_int width) ratio), py_int (Fmul (of_int height) ratio))
  | _, _ => None
  end.

Definition needs_resize (width height : Z) : bool :=
  (IMAGE_MAX_WIDTH <? width) || (IMAGE_MAX_HEIGHT <? height).


(** ** Exceptions and the state-and-exception monad

    Every exception below is a subclass of Python's [Exception]; the scripts
    tell [FileNotFoundError] apart from the rest in one handler. *)

Inductive exn_kind :=
  | FileNotFoundError
  | FileExistsError
  | NotADirectoryError
  | IsADirectoryError
  | SameFileError
  | ValueError
  | UnicodeDecodeError  (* a [ValueError]: bytes that are no text in the encoding *)
  | KeyError
  | ZeroDivisionError
  | TimeoutExpired
  | LibraryError        (* raised by the image library *)
  | PlainException.     (* [raise Exception(...)] *)

#[global] Instance exn_kind_eq_dec : EqDecision exn_kind.
Proof. solve_decision. Defined.

(** An exception with the text [str(e)] gives. *)
Record exn := Exn { exn_kind_of : exn_kind; exn_str : string }.

Inductive outcome (A : Type) :=
  | Ok (a : A)
  | Raise (e : exn).
Arguments Ok {A} a.
Arguments Raise {A} e.

Definition returned {A} (o : outcome A) : bool :=
  match o with Ok _ => true | Raise _ => false end.

(** A computation over a state [S] that returns or raises; the state an
    exception leaves behind is kept, as in Python. *)
Definition M (S A : Type) : Type := S -> outcome A * S.

Definition ret {S A} (a : A) : M S A := fun s => (Ok a, s).

Definition bind {S A B} (m : M S A) (k : A -> M S B) : M S B :=
  fun s => match m s with
           | (Ok a, s') => k a s'
           | (Raise e, s') => (Raise e, s')
           end.

Definition raise {S A} (e : exn) : M S A := fun s => (Raise e, s).

(** [try: m except Exception as e: h e] *)
Definition try_except {S A} (m : M S A) (h : exn -> M S A) : M S A :=
  fun s => match m s with
           | (Ok a, s') => (Ok a, s')
           | (Raise e, s') => h e s'
           end.

Definition get {S} : M S S := fun s => (Ok s, s).
Definition modify {S} (f : S -> S) : M S unit := fun s => (Ok tt, f s).

(** Run a computation on the first component of a pair of states. *)
Definition on_fst {S L A} (m : M S A) : M (S * L) A :=
  fun '(s, l) => match m s with (o, s') => (o, (s', l)) end.

(** Read and update the second component: the local variables. *)
Definition local {S L} : M (S * L) L := fun '(s, l) => (Ok l, (s, l)).
Definition set_local {S L} (f : L -> L) : M (S * L) unit :=
  fun '(s, l) => (Ok tt, (s, f l)).

(** Run a block with a local variable initialised to [l0]; its last value is
    returned with the block's result. *)
Definition with_local {S L A} (l0 : L) (m : M (S * L) A) : M S (A * L) :=
  fun s => match m (s, l0) with
           | (Ok a, (s', l)) => (Ok (a, l), s')
           | (Raise e, (s', _)) => (Raise e, s')
           end.

Declare Scope monad_scope.
Delimit Scope monad_scope with monad.
Notation "'let*' x := m 'in' k" := (bind m (fun x => k))
  (at level 10, x name, m at level 100, k at level 200) : monad_scope.
Notation "'let*' ' p := m 'in' k" := (bind m (fun p => k))
  (at level 10, p pattern, m at level 100, k at level 200) : monad_scope.
Notation "m >> k" := (bind m (fun _ => k))
  (at level 90, right associativity) : monad_scope.
Local Open Scope monad_scope.

(** [for x in xs: acc = body(x, acc)] *)
Fixpoint for_each {S A B} (xs : list A) (body : A -> B -> M S B) (acc : B) : M S B :=
  match xs with
  | [] => ret acc
  | x :: xs' => let* acc' := body x acc in for_each xs' body acc'
  end.

(** [filter] with a predicate that reads the state. *)
Fixpoint filter_m {S A} (p : A -> M S bool) (xs : list A) : M S (list A) :=
  match xs with
  | [] => ret []
  | x :: xs' =>
      let* b := p x in
      let* rest := filter_m p xs' in
      ret (if b then x :: rest else rest)
  end.

(** [d[key]] on a key that may be missing. *)
Definition getitem {S A} (key : string) (o : option A) : M S A :=
  match o with
  | Some a => ret a
  | None => raise (Exn KeyError key)
  end.

(** ** Paths ([pathlib.PurePath])

    A path is the list of its components. *)

Module PyPath.

Abbreviation path := (list string).

(** [p.name] *)
Definition name (p : path) : string := List.last p "".

(** [p.parent] *)
Definition parent (p : path) : path := removelast p.

(** [s.rfind(c)]: the last position of [c]. *)
Fixpoint rfind (c : ascii) (s : string) : option nat :=
  match s with
  | EmptyString => None
  | String a s' =>
      match rfind c s' with
      | Some i => Some (S i)
      | None => if Ascii.eqb a c then Some 0%nat else None
      end
  end.

(** [p.suffix]: [name[i:]] with [i = name.rfind('.')] when
    [0 < i < len(name) - 1], else the empty string. *)
Definition suffix (p : path) : string :=
  let nm := name p in
  match rfind "." nm with
  | Some i =>
      if (0 <? i)%nat && (i <? String.length nm - 1)%nat
      then substring i (String.length nm - i) nm
      else ""
  | None => ""
  end.

Fixpoint has_char (c : ascii) (s : string) : bool :=
  match s with
  | EmptyString => false
  | String a s' => Ascii.eqb a c || has_char c s'
  end.

Definition starts_with_dot (s : string) : bool :=
  match s with
  | String a _ => Ascii.eqb a "."
  | EmptyString => false
  end.

(** The checks [with_suffix] makes on its argument. *)
Definition invalid_suffix (suf : string) : bool :=
  has_char "/" suf
  || (negb (String.eqb suf "") && negb (starts_with_dot suf))
  || String.eqb suf ".".

(** [p.with_suffix(suf)] *)
Definition with_suffix (p : path) (suf : string) : outcome path :=
  if invalid_suffix suf then Raise (Exn ValueError "Invalid suffix")
  else
    let nm := name p in
    if String.eqb nm "" then Raise (Exn ValueError "has an empty name")
    else
      let old := suffix p in
      let stem := substring 0 (String.length nm - String.length old) nm in
      Ok (parent p ++ [String.append stem suf]).

(** [p.relative_to(root)] *)
Definition relative_to (p root : path) : outcome path :=
  if bool_decide (root `prefix_of` p) then Ok (drop (length root) p)
  else Raise (Exn ValueError "is not in the subpath").

(** [root / rel] for a relative [rel]. *)
Definition join (root rel : path) : path := root ++ rel.

End PyPath.
Import PyPath.

(** ** The filesystem

    A map from paths to nodes.  The root [[]] is a directory and is not
    stored.  Only what the scripts call is modelled: [stat], [exists],
    [is_file], [mkdir(parents=True, exist_ok=True)], [shutil.copy2],
    opening a file for writing, and [rglob('*')]. *)

Abbreviation bytes := (list Byte.byte).

(** What [copy2] preserves besides the content. *)
Record meta := Meta { st_mode : Z; st_mtime : Z }.

Record file := File { f_bytes : bytes; f_meta : meta }.

Inductive node :=
  | NFile (f : file)
  | NDir.

Abbreviation fs := (gmap path node).

(** What the platform fixes and the scripts do not.  [text_of] is what
    [text=True] makes of the bytes captured from a pipe: they are decoded in
    the encoding of the locale, which raises [UnicodeDecodeError] on bytes
    that are no text in it, and the line ends are translated. *)
Class Platform := {
  script_dir : path;                        (* [Path(__file__).parent] *)
  dir_st_size : Z;                          (* [st_size] of a directory *)
  new_file_meta : meta;                     (* mode and times of a file just written *)
  strerror : exn_kind -> path -> string;    (* [str(e)] of an [OSError] on a path *)
  path_str : path -> string;                (* [str(p)] *)
  repr_cmd : list string -> string;         (* [repr] of a list of strings *)
  text_of : bytes -> outcome string;        (* what was read from a pipe, as text *)
}.

Section Filesystem.
Context `{Platform}.

Definition os_error (k : exn_kind) (p : path) : exn := Exn k (strerror k p).

Definition node_at (m : fs) (p : path) : option node :=
  match p with
  | [] => Some NDir
  | _ => m !! p
  end.

Definition is_dir_in (m : fs) (p : path) : bool :=
  match node_at m p with Some NDir => true | _ => false end.

Definition is_file_in (m : fs) (p : path) : bool :=
  match node_at m p with Some (NFile _) => true | _ => false end.

Definition exists_in (m : fs) (p : path) : bool :=
  match node_at m p with Some _ => true | None => false end.

(** Some proper ancestor of [p] is a regular file. *)
Definition under_file (m : fs) (p : path) : bool :=
  existsb (fun k => is_file_in m (take k p)) (seq 1 (length p - 1)).

(** The error of resolving a path that is not there. *)
Definition missing (m : fs) (p : path) : exn :=
  os_error (if under_file m p then NotADirectoryError else FileNotFoundError) p.

(** [p.exists()], [p.is_file()] *)
Definition path_exists (p : path) : M fs bool := fun m => (Ok (exists_in m p), m).
Definition is_file (p : path) : M fs bool := fun m => (Ok (is_file_in m p), m).

(** [p.stat().st_size] *)
Definition st_size (p : path) : M fs Z := fun m =>
  match node_at m p with
  | Some (NFile f) => (Ok (Z.of_nat (length (f_bytes f))), m)
  | Some NDir => (Ok dir_st_size, m)
  | None => (Raise (missing m p), m)
  end.

(** [p.mkdir(parents=True, exist_ok=True)]: every missing directory on the
    way is created; a regular file on the way is an error. *)
Fixpoint mkdir_from (done : path) (todo : list string) (m : fs) : outcome unit * fs :=
  match todo with
  | [] => (Ok tt, m)
  | c :: todo' =>
      let p := done ++ [c] in
      match m !! p with
      | Some NDir => mkdir_from p todo' m
      | Some (NFile _) =>
          (Raise (os_error (match todo' with
                            | [] => FileExistsError
                            | _ => NotADirectoryError
                            end) p), m)
      | None => mkdir_from p todo' (<[p := NDir]> m)
      end
  end.

Definition mkdir_parents (p : path) : M fs unit := mkdir_from [] p.

(** Can [p] be opened for writing?  [None] when it can. *)
Definition open_for_write (m : fs) (p : path) : option exn :=
  match node_at m p with
  | Some NDir => Some (os_error IsADirectoryError p)
  | Some (NFile _) => None
  | None =>
      match node_at m (parent p) with
      | Some NDir => None
      | _ => Some (missing m p)
      end
  end.

Definition write_file (p : path) (f : file) : M fs unit := fun m =>
  match open_for_write m p with
  | Some e => (Raise e, m)
  | None => (Ok tt, <[p := NFile f]> m)
  end.

(** [shutil.copy2(src, dst)]: into [dst / src.name] when [dst] is a
    directory; content and metadata are copied. *)
Definition copy2 (src dst : path) : M fs unit := fun m =>
  let dst' := if is_dir_in m dst then dst ++ [name src] else dst in
  if bool_decide (src = dst') then (Raise (os_error SameFileError src), m)
  else
    match node_at m src with
    | None => (Raise (missing m src), m)
    | Some NDir => (Raise (os_error IsADirectoryError src), m)
    | Some (NFile f) => write_file dst' f m
    end.

(** [p] is strictly below [root] and every directory from [root] down to the
    parent of [p] is there. *)
Definition walkable (m : fs) (root p : path) : bool :=
  bool_decide (root `prefix_of` p)
  && (length root <? length p)%nat
  && forallb (fun k => is_dir_in m (take k p))
             (seq (length root) (length p - length root)).

(** [list(root.rglob('*'))]: everything below [root], in the filesystem's
    own order. *)
Definition rglob (root : path) : M fs (list path) := fun m =>
  (Ok (List.filter (walkable m root) (map fst (map_to_list m))), m).

(** [file_path.stat().st_size / (1024 * 1024)] *)
Definition get_file_size_mb (file_path : path) : M fs float :=
  let* size := st_size file_path in
  match int_truediv size (1024 * 1024) with
  | Some x => ret x
  | None => raise (Exn ZeroDivisionError "division by zero")
  end.

End Filesystem.

(** ** The image library (Pillow) as an interface

    An image has a mode, a size and pixel data.  The library's work on pixel
    data is left to the instance; what Pillow guarantees about modes and
    sizes ([convert] keeps the size, [resize] returns the size asked for,
    [paste] changes the pixels of its receiver only) is written out in the
    wrappers below. *)

Record image (px : Type) := Image { im_mode : string; im_size : Z * Z; im_data : px }.
Arguments Image {px} im_mode im_size im_data.
Arguments im_mode {px} i.
Arguments im_size {px} i.
Arguments im_data {px} i.

(** The keyword the scripts pass to [save] next to [quality]. *)
Inductive save_param :=
  | Method (n : Z)          (* [method=6] *)
  | Optimize (b : bool).    (* [optimize=True] *)

(** What an encoder run comes to: the bytes of the file; a failure before the
    destination was opened; a failure after it was opened, with what is left
    in the file. *)
Inductive encode_result :=
  | Encoded (b : bytes)
  | FailedEarly (e : exn)
  | FailedLate (e : exn) (leftover : bytes).

Class ImageLib := {
  pixels : Type;
  (* [Image.open] on the content of a file *)
  lib_open : bytes -> outcome (image pixels);
  (* [Image.new(mode, size, color)] *)
  lib_new : string -> Z * Z -> Z * Z * Z -> outcome pixels;
  (* [img.convert(mode)] *)
  lib_convert : image pixels -> string -> outcome pixels;
  (* [img.split()[-1]] *)
  lib_last_band : image pixels -> outcome pixels;
  (* [background.paste(img, mask=mask)] *)
  lib_paste : image pixels -> image pixels -> option (image pixels) -> outcome pixels;
  (* [img.resize(size, filter)] *)
  lib_resize : image pixels -> Z * Z -> string -> outcome pixels;
  (* [img.save(path, format, quality=..., ...)]: format, the suffix of the
     path, quality, the extra keyword *)
  lib_encode : image pixels -> option string -> string -> Z -> save_param -> encode_result;
}.

Definition width {px} (img : image px) : Z := fst (im_size img).
Definition height {px} (img : image px) : Z := snd (im_size img).

(** A pure step that may raise, inside a computation. *)
Definition lift {S A} (o : outcome A) : M S A := fun s => (o, s).

Definition map_outcome {A B} (f : A -> B) (o : outcome A) : outcome B :=
  match o with Ok a => Ok (f a) | Raise e => Raise e end.

Section Images.
Context `{Platform} `{ImageLib}.

Definition Image_open (p : path) : M fs (image pixels) := fun m =>
  match node_at m p with
  | Some (NFile f) => (lib_open (f_bytes f), m)
  | Some NDir => (Raise (os_error IsADirectoryError p), m)
  | None => (Raise (missing m p), m)
  end.

Definition Image_new (mode : string) (size : Z * Z) (color : Z * Z * Z)
  : outcome (image pixels) :=
  map_outcome (Image mode size) (lib_new mode size color).

Definition convert (img : image pixels) (mode : string) : outcome (image pixels) :=
  map_outcome (Image mode (im_size img)) (lib_convert img mode).

Definition split_last (img : image pixels) : outcome (image pixels) :=
  map_outcome (Image "L" (im_size img)) (lib_last_band img).

Definition paste (background img : image pixels) (mask : option (image pixels))
  : outcome (image pixels) :=
  map_outcome (Image (im_mode background) (im_size background))
              (lib_paste background img mask).

Definition resize (img : image pixels) (size : Z * Z) (filter : string)
  : outcome (image pixels) :=
  map_outcome (Image (im_mode img) size) (lib_resize img size filter).

Definition Image_save (img : image pixels) (p : path) (format : option string)
    (quality : Z) (extra : save_param) : M fs unit := fun m =>
  match lib_encode img format (suffix p) quality extra with
  | FailedEarly e => (Raise e, m)
  | FailedLate e leftover =>
      match write_file p (File leftover new_file_meta) m with
      | (Ok _, m') => (Raise e, m')
      | (Raise e', m') => (Raise e', m')
      end
  | Encoded b => write_file p (File b new_file_meta) m
  end.

(** Lines 63-72 of [optimize_media.py] (42-49 of [optimize_productos.py]):
    flatten transparency onto white, or convert to RGB. *)
Definition normalise_mode (img : image pixels) : outcome (image pixels) :=
  if String.eqb (im_mode img) "RGBA" || String.eqb (im_mode img) "P" then
    match Image_new "RGB" (im_size img) (255, 255, 255) with
    | Raise e => Raise e
    | Ok background =>
        match (if String.eqb (im_mode img) "P" then convert img "RGBA" else Ok img) with
        | Raise e => Raise e
        | Ok img =>
            match (if String.eqb (im_mode img) "RGBA"
                   then map_outcome Some (split_last img) else Ok None) with
            | Raise e => Raise e
            | Ok mask => paste background img mask
            end
        end
    end
  else if negb (String.eqb (im_mode img) "RGB") then convert img "RGB"
  else Ok img.

(** Lines 76-80 (52-55): downscale when a dimension exceeds its maximum. *)
Definition resize_if_needed (img : image pixels) : outcome (image pixels) :=
  if (IMAGE_MAX_WIDTH <? width img) || (IMAGE_MAX_HEIGHT <? height img) then
    match new_size (width img) (height img) with
    | None => Raise (Exn ZeroDivisionError "division by zero")
    | Some size => resize img size "LANCZOS"
    end
  else Ok img.

(** The [with Image.open(source_path) as img:] block of [optimize_image]
    (lines 62-89, and 41-62 of [optimize_productos.py]; the text is the same
    in both).  It returns [final_output], [original_size] and [img] as they
    stand after the block. *)
Definition open_and_save (source_path output_path : path)
  : M fs (path * (Z * Z) * image pixels) :=
  let* img := Image_open source_path in
  let* img := lift (normalise_mode img) in
  let original_size := im_size img in
  let* img := lift (resize_if_needed img) in
  if CONVERT_TO_WEBP then
    let* final_output := lift (with_suffix output_path ".webp") in
    Image_save img final_output (Some "WEBP"%string) IMAGE_QUALITY (Method 6) >>
    ret (final_output, original_size, img)
  else
    let final_output := output_path in
    Image_save img final_output None IMAGE_QUALITY (Optimize true) >>
    ret (final_output, original_size, img).

(** The [try] body of [optimize_image] down to the end of the [with] block:
    [output_path.parent.mkdir(parents=True, exist_ok=True)], then the
    block. *)
Definition transcode_image (source_path output_path : path)
  : M fs (path * (Z * Z) * image pixels) :=
  mkdir_parents (parent output_path) >>
  open_and_save source_path output_path.

End Images.

(** ** The result record of [optimize_image] and [optimize_video]

    A key the dictionary does not have yet is [None]. *)

Record result := Result {
  source : path;
  output : path;
  original_size_mb : float;
  success : bool;
  error : option string;
  optimized_size_mb : option float;
  reduction_percent : option float;
  resized : option bool;
}.

Definition new_result (source_path output_path : path) (orig : float) : result :=
  {| source := source_path; output := output_path; original_size_mb := orig;
     success := false; error := None;
     optimized_size_mb := None; reduction_percent := None; resized := None |}.

Definition set_output (p : path) (r : result) : result :=
  Result (source r) p (original_size_mb r) (success r) (error r)
         (optimized_size_mb r) (reduction_percent r) (resized r).
Definition set_success (b : bool) (r : result) : result :=
  Result (source r) (output r) (original_size_mb r) b (error r)
         (optimized_size_mb r) (reduction_percent r) (resized r).
Definition set_error (e : string) (r : result) : result :=
  Result (source r) (output r) (original_size_mb r) (success r) (Some e)
         (optimized_size_mb r) (reduction_percent r) (resized r).
Definition set_optimized_size_mb (x : float) (r : result) : result :=
  Result (source r) (output r) (original_size_mb r) (success r) (error r)
         (Some x) (reduction_percent r) (resized r).
Definition set_reduction_percent (x : float) (r : result) : result :=
  Result (source r) (output r) (original_size_mb r) (success r) (error r)
         (optimized_size_mb r) (Some x) (resized r).
Definition set_resized (b : bool) (r : result) : result :=
  Result (source r) (output r) (original_size_mb r) (success r) (error r)
         (optimized_size_mb r) (reduction_percent r) (Some b).

(** [(1 - optimized / original) * 100] *)
Definition reduction {S} (optimized original : float) : M S float :=
  match Fdiv optimized original with
  | Some q => ret (Fmul (Fsub (of_int 1) q) (of_int 100))
  | None => raise (Exn ZeroDivisionError "float division by zero")
  end.

Definition size_eqb (a b : Z * Z) : bool :=
  (fst a =? fst b) && (snd a =? snd b).

(** ** What both scripts share besides [optimize_image] *)

Definition IMAGE_EXTENSIONS : gset string :=
  {[ ".jpg"; ".jpeg"; ".png"; ".webp"; ".JPG"; ".JPEG"; ".PNG"; ".WEBP" ]}%string.

(** One [print] call, or a run of [print] calls of constant text. *)
Inductive line :=
  | LBanner                                  (* title, directories, configuration *)
  | LNoSourceDir (d : path)                  (* "Error: No se encontro el directorio" *)
  | LFound (n : nat)                         (* "Encontrados n archivos" *)
  | LProgress (i n : nat) (rel : path)       (* "[i/n] ..." *)
  | LCopied                                  (* "Copiado sin cambios" *)
  | LDone (orig opt red : float)             (* "orig MB -> opt MB (red% reduccion)" *)
  | LFailed (err : option string)            (* "Error: ..." *)
  | LSummaryTitle                            (* "RESUMEN FINAL" between two rules *)
  | LCategory (name : string)                (* heading of a category, from its key *)
  | LProcessed (n : Z)
  | LOriginalSize (x : float)
  | LOptimizedSize (x : float)
  | LReduction (x : float)
  | LErrors (n : Z)
  | LTotalTitle
  | LTotalOriginal (x : float)
  | LTotalOptimized (x : float)
  | LSavings (saved pct : float)
  | LSavedIn (d : path)
  | LRule.

(** The filesystem and what has been printed. *)
Record world := World { w_fs : fs; w_out : list line }.

Definition in_fs {A} (m : M fs A) : M world A :=
  fun w => match m (w_fs w) with (o, m') => (o, World m' (w_out w)) end.

Definition print (l : line) : M world unit :=
  modify (fun w => World (w_fs w) (w_out w ++ [l])).

(** One entry of the statistics dictionary. *)
Record cat_stats := CatStats {
  processed : Z;
  original_size : float;
  optimized_size : float;
  errors : Z;
}.

Definition no_stats : cat_stats := CatStats 0 zero zero 0.

(** The three [+=] on the entry of a category. *)
Definition count_result {S} (r : result) (c : cat_stats) : M S cat_stats :=
  let* opt := getitem "optimized_size_mb" (optimized_size_mb r) in
  ret (CatStats (processed c + 1)
                (Fadd (original_size c) (original_size_mb r))
                (Fadd (optimized_size c) opt)
                (errors c)).

Definition count_error (c : cat_stats) : cat_stats :=
  CatStats (processed c) (original_size c) (optimized_size c) (errors c + 1).

(** The [if result['success']: ... else: ...] that ends the loop body. *)
Definition report_result (r : result) (c : cat_stats) : M world cat_stats :=
  if success r then
    let* opt := getitem "optimized_size_mb" (optimized_size_mb r) in
    let* red := getitem "reduction_percent" (reduction_percent r) in
    print (LDone (original_size_mb r) opt red) >>
    ret c
  else
    print (LFailed (error r)) >>
    ret (count_error c).

(** [enumerate(xs, 1)] *)
Definition enumerate_from_1 {A} (xs : list A) : list (nat * A) :=
  combine (seq 1 (length xs)) xs.

(** ** Text

    A Python [str] is kept as the Rocq string of its UTF-8 encoding, which is
    what a string literal of this file is.  A character of the Python string
    (a code point) is then one byte that is no continuation byte, with the
    continuation bytes [10xxxxxx] that follow it; [len] and slicing count
    characters, not bytes. *)

Definition continuation (c : ascii) : bool :=
  match c with Ascii _ _ _ _ _ _ b6 b7 => b7 && negb b6 end.

(** [len(s)] *)
Fixpoint py_len (s : string) : nat :=
  match s with
  | EmptyString => 0%nat
  | String c s' => if continuation c then py_len s' else S (py_len s')
  end.

(** [s] after its first [k] characters, continuation bytes at its head
    dropped with the character they belong to. *)
Fixpoint skip_chars (k : nat) (s : string) : string :=
  match s with
  | EmptyString => EmptyString
  | String c s' =>
      if continuation c then skip_chars k s'
      else match k with
           | O => s
           | S k' => skip_chars k' s'
           end
  end.

(** [s[k:]] for [k >= 0] *)
Definition from_char (k : nat) (s : string) : string :=
  match k with
  | O => s
  | S _ => skip_chars k s
  end.

(** [s[-n:]] for [n > 0]: [s[max(0, len(s) - n):]] *)
Definition last_chars (n : nat) (s : string) : string :=
  from_char (py_len s - n) s.

(** ** The external transcoder *)

Inductive proc_result :=
  | NotInstalled                                     (* no such executable *)
  | TimedOut (partial : option bytes)                (* killed at the timeout *)
  | Failed (e : exn) (written : option bytes)        (* any other exception of [run] *)
  | Completed (returncode : Z) (stdout stderr : bytes) (written : option bytes).

(** What running a command for at most [timeout] seconds comes to, and what it
    leaves in its output file.  [Completed] is a command that ran to its
    end: its exit code and the bytes it wrote to the two pipes
    ([capture_output=True]).  [Failed] stands for the exceptions
    [subprocess.run] raises besides the two above, a [PermissionError] or
    another [OSError] when the executable cannot be started. *)
Class Subprocess := {
  run_command : list string -> Z -> fs -> proc_result;
}.

Record completed_process := CompletedProcess { returncode : Z; stderr : string }.

Section Run.
Context `{Platform} `{Subprocess}.

(** The output file after the command wrote [o] to it, where it could. *)
Definition leave (out : path) (o : option bytes) (m : fs) : fs :=
  match o with
  | Some b =>
      match write_file out (File b new_file_meta) m with
      | (Ok _, m') => m'
      | (Raise _, _) => m
      end
  | None => m
  end.

(** The two captured streams as text ([text=True]), [stdout] first; the
    script reads [stderr] only. *)
Definition captured_text (sout serr : bytes) : outcome string :=
  match text_of sout with
  | Ok _ => text_of serr
  | Raise e => Raise e
  end.

(** [subprocess.run(cmd, capture_output=True, text=True, timeout=t)] for a
    command whose output file is [out].  The captured bytes are made text
    after the command has ended, so an error of that leaves the file the
    command wrote. *)
Definition subprocess_run (cmd : list string) (t : Z) (out : path)
  : M fs completed_process := fun m =>
  match run_command cmd t m with
  | NotInstalled =>
      (Raise (os_error FileNotFoundError [List.hd ""%string cmd]), m)
  | TimedOut partial =>
      (Raise (Exn TimeoutExpired
                ("Command '" +:+ repr_cmd cmd +:+ "' timed out after "
                 +:+ pretty t +:+ " seconds")),
       leave out partial m)
  | Failed e written =>
      (Raise e, leave out written m)
  | Completed rc sout serr written =>
      match captured_text sout serr with
      | Ok err => (Ok (CompletedProcess rc err), leave out written m)
      | Raise e => (Raise e, leave out written m)
      end
  end.

End Run.

(** ** [optimize_media.py] *)

Module Media.

Section Script.
Context `{Platform} `{ImageLib} `{Subprocess}.

Definition SOURCE_DIR : path := join script_dir ["Servicios"%string].
Definition OUTPUT_DIR : path := join script_dir ["ServiciosOptimized"%string].

Definition VIDEO_CRF : Z := 28.
Definition VIDEO_MAX_HEIGHT : Z := 720.
Definition VIDEO_AUDIO_BITRATE : string := "96k".

Definition VIDEO_EXTENSIONS : gset string :=
  {[ ".mp4"; ".mov"; ".avi"; ".mkv"; ".MP4"; ".MOV"; ".AVI"; ".MKV" ]}%string.

Definition optimize_image (source_path output_path : path) : M fs result :=
  let* orig := get_file_size_mb source_path in
  let* '(_, result) :=
    with_local (new_result source_path output_path orig)
      (try_except
         (let* '(final_output, original_size, img) :=
            on_fst (transcode_image source_path output_path) in
          set_local (set_output final_output) >>
          let* opt := on_fst (get_file_size_mb final_output) in
          set_local (set_optimized_size_mb opt) >>
          let* red := reduction opt orig in
          set_local (set_reduction_percent red) >>
          set_local (set_success true) >>
          set_local (set_resized (negb (size_eqb original_size (im_size img)))))
         (fun e =>
            set_local (set_error (exn_str e)) >>
            on_fst (copy2 source_path output_path) >>
            let* opt := on_fst (get_file_size_mb output_path) in
            set_local (set_optimized_size_mb opt) >>
            set_local (set_reduction_percent zero)))
  in
  ret result.

Definition ffmpeg_cmd (source_path output_path : path) : list string :=
  [ "ffmpeg";
    "-i"; path_str source_path;
    "-c:v"; "libx264";
    "-crf"; pretty VIDEO_CRF;
    "-preset"; "slow";
    "-vf"; "scale=-2:" +:+ pretty VIDEO_MAX_HEIGHT +:+ ":flags=lanczos";
    "-c:a"; "aac";
    "-b:a"; VIDEO_AUDIO_BITRATE;
    "-movflags"; "+faststart";
    "-y";
    path_str output_path ]%string.

Definition optimize_video (source_path output_path : path) : M fs result :=
  let* orig := get_file_size_mb source_path in
  let* '(_, result) :=
    with_local (new_result source_path output_path orig)
      (try_except
         (on_fst (mkdir_parents (parent output_path)) >>
          let cmd := ffmpeg_cmd source_path output_path in
          let* process := on_fst (subprocess_run cmd 600 output_path) in
          (if negb (returncode process =? 0)
           then raise (Exn PlainException
                         ("FFmpeg error: " +:+ last_chars 500 (stderr process)))
           else ret tt) >>
          let* opt := on_fst (get_file_size_mb output_path) in
          set_local (set_optimized_size_mb opt) >>
          let* red := reduction opt orig in
          set_local (set_reduction_percent red) >>
          set_local (set_success true))
         (fun e =>
            if bool_decide (exn_kind_of e = FileNotFoundError) then
              set_local (set_error "FFmpeg no encontrado") >>
              on_fst (copy2 source_path output_path) >>
              let* opt := on_fst (get_file_size_mb output_path) in
              set_local (set_optimized_size_mb opt) >>
              set_local (set_reduction_percent zero)
            else
              set_local (set_error (exn_str e)) >>
              on_fst (copy2 source_path output_path) >>
              let* opt := on_fst (get_file_size_mb output_path) in
              set_local (set_optimized_size_mb opt) >>
              set_local (set_reduction_percent zero)))
  in
  ret result.

(** [stats]: the entries ['images'] and ['videos'], in that order. *)
Record stats := Stats { images : cat_stats; videos : cat_stats }.

(** The body of the [for] loop of [main]; [n] is [len(files_to_process)]. *)
Definition process_file (n : nat) (item : nat * path) (st : stats) : M world stats :=
  let '(i, source_file) := item in
  let* relative_path := lift (relative_to source_file SOURCE_DIR) in
  let output_file := join OUTPUT_DIR relative_path in
  print (LProgress i n relative_path) >>
  if bool_decide (suffix source_file ∈ IMAGE_EXTENSIONS) then
    let* result := in_fs (optimize_image source_file output_file) in
    let* c := count_result result (images st) in
    let* c := report_result result c in
    ret (Stats c (videos st))
  else if bool_decide (suffix source_file ∈ VIDEO_EXTENSIONS) then
    let* result := in_fs (optimize_video source_file output_file) in
    let* c := count_result result (videos st) in
    let* c := report_result result c in
    ret (Stats (images st) c)
  else
    in_fs (mkdir_parents (parent output_file)) >>
    in_fs (copy2 source_file output_file) >>
    print LCopied >>
    ret st.

(** The summary of one category. *)
Definition print_category (category : string) (data : cat_stats) : M world unit :=
  if 0 <? processed data then
    print (LCategory category) >>
    print (LProcessed (processed data)) >>
    print (LOriginalSize (original_size data)) >>
    print (LOptimizedSize (optimized_size data)) >>
    (if Fpos (original_size data) then
       let* red := reduction (optimized_size data) (original_size data) in
       print (LReduction red)
     else ret tt) >>
    (if 0 <? errors data then print (LErrors (errors data)) else ret tt)
  else ret tt.

Definition print_summary (st : stats) : M world unit :=
  print LSummaryTitle >>
  print_category "images" (images st) >>
  print_category "videos" (videos st) >>
  let total_original := Fadd (Fadd zero (original_size (images st)))
                             (original_size (videos st)) in
  let total_optimized := Fadd (Fadd zero (optimized_size (images st)))
                              (optimized_size (videos st)) in
  print LTotalTitle >>
  print (LTotalOriginal total_original) >>
  print (LTotalOptimized total_optimized) >>
  (if Fpos total_original then
     let* pct := reduction total_optimized total_original in
     print (LSavings (Fsub total_original total_optimized) pct)
   else ret tt) >>
  print (LSavedIn OUTPUT_DIR) >>
  print LRule.

Definition main : M world unit :=
  print LBanner >>
  let* found := in_fs (path_exists SOURCE_DIR) in
  if negb found then
    print (LNoSourceDir SOURCE_DIR)
  else
    in_fs (mkdir_parents OUTPUT_DIR) >>
    let* all_files := in_fs (rglob SOURCE_DIR) in
    let* files_to_process := in_fs (filter_m is_file all_files) in
    print (LFound (length files_to_process)) >>
    let* st := for_each (enumerate_from_1 files_to_process)
                        (process_file (length files_to_process))
                        (Stats no_stats no_stats) in
    print_summary st.

End Script.
End Media.

(** ** [optimize_productos.py] *)

Module Productos.

Section Script.
Context `{Platform} `{ImageLib}.

Definition SOURCE_DIR : path := join script_dir ["Productos"%string].
Definition OUTPUT_DIR : path := join script_dir ["ProductosOptimized"%string].

Definition optimize_image (source_path output_path : path) : M fs result :=
  let* orig := get_file_size_mb source_path in
  let* '(_, result) :=
    with_local (new_result source_path output_path orig)
      (try_except
         (let* '(final_output, original_size, img) :=
            on_fst (transcode_image source_path output_path) in
          set_local (set_output final_output) >>
          let* opt := on_fst (get_file_size_mb final_output) in
          set_local (set_optimized_size_mb opt) >>
          let* red := reduction opt orig in
          set_local (set_reduction_percent red) >>
          set_local (set_success true))
         (fun e =>
            set_local (set_error (exn_str e)) >>
            on_fst (copy2 source_path output_path) >>
            let* opt := on_fst (get_file_size_mb output_path) in
            set_local (set_optimized_size_mb opt) >>
            set_local (set_reduction_percent zero)))
  in
  ret result.

(** The body of the [for] loop of [main]; [n] is [len(files_to_process)]. *)
Definition process_file (n : nat) (item : nat * path) (st : cat_stats)
  : M world cat_stats :=
  let '(i, source_file) := item in
  let* relative_path := lift (relative_to source_file SOURCE_DIR) in
  let output_file := join OUTPUT_DIR relative_path in
  print (LProgress i n relative_path) >>
  let* result := in_fs (optimize_image source_file output_file) in
  let* c := count_result result st in
  report_result result c.

(** The heading of the only category is a constant of the script. *)
Definition print_summary (st : cat_stats) : M world unit :=
  print LSummaryTitle >>
  print (LCategory "IMAGENES") >>
  print (LProcessed (processed st)) >>
  print (LOriginalSize (original_size st)) >>
  print (LOptimizedSize (optimized_size st)) >>
  (if Fpos (original_size st) then
     let* red := reduction (optimized_size st) (original_size st) in
     print (LReduction red)
   else ret tt) >>
  (if 0 <? errors st then print (LErrors (errors st)) else ret tt) >>
  print (LSavedIn OUTPUT_DIR) >>
  print LRule.

(** [f.is_file() and f.suffix in IMAGE_EXTENSIONS] *)
Definition is_image_file (f : path) : M fs bool :=
  let* b := is_file f in
  ret (b && bool_decide (suffix f ∈ IMAGE_EXTENSIONS)).

Definition main : M world unit :=
  print LBanner >>
  let* found := in_fs (path_exists SOURCE_DIR) in
  if negb found then
    print (LNoSourceDir SOURCE_DIR)
  else
    in_fs (mkdir_parents OUTPUT_DIR) >>
    let* all_files := in_fs (rglob SOURCE_DIR) in
    let* files_to_process := in_fs (filter_m is_image_file all_files) in
    print (LFound (length files_to_process)) >>
    let* st := for_each (enumerate_from_1 files_to_process)
                        (process_file (length files_to_process))
                        no_stats in
    print_summary st.

End Script.
End Productos.

(** ** A small concrete environment, for the examples

    A toy image format: a file is an image when it starts with the byte
    [I] followed by two bytes of width and two of height.  Encoding writes
    [W] and the size.  Resizing to an empty size is refused, as Pillow
    does. *)

Module Toy.

Definition slash_join (p : path) : string :=
  fold_right (fun c acc => "/" +:+ c +:+ acc) "" p.

Definition byte_val (b : Byte.byte) : Z := Z.of_N (Byte.to_N b).
Definition byte_of (n : Z) : Byte.byte :=
  match Byte.of_N (Z.to_N (n mod 256)) with Some b => b | None => Byte.x00 end.

(** The locale of the toy platform is UTF-8.  The bytes that are text in
    it: no continuation byte out of place, no overlong form, no surrogate,
    nothing above [U+10FFFF]. *)
Definition cont (x : Byte.byte) : bool := (128 <=? byte_val x) && (byte_val x <? 192).

Fixpoint utf8_valid (b : bytes) : bool :=
  match b with
  | [] => true
  | x :: b1 =>
      let v := byte_val x in
      if v <? 128 then utf8_valid b1
      else if (194 <=? v) && (v <? 224) then
        match b1 with
        | y :: b2 => cont y && utf8_valid b2
        | _ => false
        end
      else if (224 <=? v) && (v <? 240) then
        match b1 with
        | y :: z :: b3 =>
            cont y && cont z
            && (negb (v =? 224) || (160 <=? byte_val y))
            && (negb (v =? 237) || (byte_val y <? 160))
            && utf8_valid b3
        | _ => false
        end
      else if (240 <=? v) && (v <? 245) then
        match b1 with
        | y :: z :: t :: b4 =>
            cont y && cont z && cont t
            && (negb (v =? 240) || (144 <=? byte_val y))
            && (negb (v =? 244) || (byte_val y <? 144))
            && utf8_valid b4
        | _ => false
        end
      else false
  end.

(** [s.replace("\r\n", "\n").replace("\r", "\n")] *)
Fixpoint translate_newlines (s : string) : string :=
  match s with
  | EmptyString => EmptyString
  | String "013" rest =>
      match rest with
      | String "010" _ => translate_newlines rest
      | _ => String "010" (translate_newlines rest)
      end
  | String c rest => String c (translate_newlines rest)
  end.

(** The error of decoding, its message shortened. *)
Definition decode_error : exn :=
  Exn UnicodeDecodeError "'utf-8' codec can't decode byte".

Definition utf8_text (b : bytes) : outcome string :=
  if utf8_valid b then Ok (translate_newlines (string_of_list_byte b))
  else Raise decode_error.

#[local] Instance platform : Platform := {|
  script_dir := ["srv"%string];
  dir_st_size := 4096;
  new_file_meta := Meta 420 0;
  strerror k p := "[Errno] " +:+ slash_join p;
  path_str := slash_join;
  repr_cmd cmd := "[" +:+ fold_right (fun c acc => "'" +:+ c +:+ "', " +:+ acc) "" cmd +:+ "]";
  text_of := utf8_text;
|}.

Definition toy_open (b : bytes) : outcome (image unit) :=
  match b with
  | Byte.x49 :: w1 :: w0 :: h1 :: h0 :: _ =>
      Ok (Image "RGB" (256 * byte_val w1 + byte_val w0, 256 * byte_val h1 + byte_val h0) tt)
  | _ => Raise (Exn LibraryError "cannot identify image file")
  end.

Definition toy_encode (img : image unit) : bytes :=
  [Byte.x57; byte_of (width img / 256); byte_of (width img);
   byte_of (height img / 256); byte_of (height img)].

#[local] Instance imagelib : ImageLib := {|
  pixels := unit;
  lib_open := toy_open;
  lib_new _ _ _ := Ok tt;
  lib_convert _ _ := Ok tt;
  lib_last_band _ := Ok tt;
  lib_paste _ _ _ := Ok tt;
  lib_resize _ size _ :=
    if (0 <? fst size) && (0 <? snd size) then Ok tt
    else Raise (Exn ValueError "height and width must be > 0");
  lib_encode img _ _ _ _ := Encoded (toy_encode img);
|}.

(** A transcoder that always comes to [r]. *)
Definition subprocess (r : proc_result) : Subprocess := {| run_command _ _ _ := r |}.


(** The bytes of a toy image of the given size, and of a file that is none. *)
Definition picture (w h : Z) : bytes :=
  [Byte.x49; byte_of (w / 256); byte_of w; byte_of (h / 256); byte_of h; Byte.x00].
Definition junk : bytes := [Byte.x6a; Byte.x75; Byte.x6e; Byte.x6b].

Definition a_meta : meta := Meta 384 1700000000.

(** [srv/Servicios] with a picture, a corrupt picture, a video and a text
    file below it. *)
Definition media_tree : fs :=
  list_to_map
    [ (["srv"], NDir);
      (["srv"; "Servicios"], NDir);
      (["srv"; "Servicios"; "a"], NDir);
      (["srv"; "Servicios"; "a"; "big.jpg"], NFile (File (picture 3000 2000) a_meta));
      (["srv"; "Servicios"; "a"; "bad.png"], NFile (File junk a_meta));
      (["srv"; "Servicios"; "clip.mp4"], NFile (File junk a_meta));
      (["srv"; "Servicios"; "notes.txt"], NFile (File junk a_meta)) ]%string.

(** [srv/Productos] with a picture and a text file. *)
Definition product_tree : fs :=
  list_to_map
    [ (["srv"], NDir);
      (["srv"; "Productos"], NDir);
      (["srv"; "Productos"; "p.webp"], NFile (File (picture 800 600) a_meta));
      (["srv"; "Productos"; "notes.txt"], NFile (File junk a_meta)) ]%string.


Definition p_src : path := ["srv"; "Productos"; "p.webp"]%string.
Definition p_dst : path := ["srv"; "ProductosOptimized"; "p.webp"]%string.
Definition bad_src : path := ["srv"; "Servicios"; "a"; "bad.png"]%string.
Definition bad_dst : path := ["srv"; "ServiciosOptimized"; "a"; "bad.png"]%string.
Definition clip_src : path := ["srv"; "Servicios"; "clip.mp4"]%string.
Definition clip_dst : path := ["srv"; "ServiciosOptimized"; "clip.mp4"]%string.
Definition notes_dst : path := ["srv"; "ServiciosOptimized"; "notes.txt"]%string.

Definition pnotes_src : path := ["srv"; "Productos"; "notes.txt"]%string.





(** Both source directories, with nothing below them. *)
Definition empty_tree : fs :=
  list_to_map
    [ (["srv"], NDir);
      (["srv"; "Servicios"], NDir);
      (["srv"; "Productos"], NDir) ]%string.

(** The progress line of the file [rel]; the copy notice. *)
Definition mentions (rel : path) (l : line) : bool :=
  match l with
  | LProgress _ _ r => bool_decide (r = rel)
  | _ => false
  end.

Definition is_copy_notice (l : line) : bool :=
  match l with LCopied => true | _ => false end.

End Toy.

(** ** Notions the statements below use *)

(** The exact scaling factor [min(1920 / w, 1080 / h)], as a real number. *)
Definition exact_ratio (w h : Z) : R :=
  Rmin (IZR IMAGE_MAX_WIDTH / IZR w) (IZR IMAGE_MAX_HEIGHT / IZR h).

(** The unit roundoff of binary64, [2^-53]. *)
Definition u53 : R := (/ 9007199254740992)%R.

(** The largest dimension the image library can hold (a C [int]). *)
Definition max_dimension : Z := 2 ^ 31.

(** The size in MB [get_file_size_mb] reports for a file. *)
Definition size_mb (f : file) : float :=
  PyFloat.round (Z.of_nat (length (f_bytes f))) (1024 * 1024).


(** The numerator and denominator of the exact scaling factor. *)
Definition ratio_terms (w h : Z) : Z * Z :=
  if (IMAGE_MAX_WIDTH * h <=? IMAGE_MAX_HEIGHT * w)%Z
  then (IMAGE_MAX_WIDTH, w) else (IMAGE_MAX_HEIGHT, h).



(** The [except] block the four handlers share, after the error text [err]
    was chosen. *)
Definition fallback `{Platform} (source_path output_path : path) (err : string)
  : M (fs * result) unit :=
  (set_local (set_error err) >>
   on_fst (copy2 source_path output_path) >>
   let* opt := on_fst (get_file_size_mb output_path) in
   set_local (set_optimized_size_mb opt) >>
   set_local (set_reduction_percent zero))%monad.


(** What [rglob('*')] lists below [root], and the regular files among it. *)
Definition enumerated `{Platform} (m : fs) (root : path) : list path :=
  List.filter (walkable m root) (map fst (map_to_list m)).

Definition regular_files `{Platform} (m : fs) (root : path) : list path :=
  List.filter (is_file_in m) (enumerated m root).

(** The extension sends the file to a transcoder (of the media script). *)
Definition is_media (f : path) : bool :=
  bool_decide (suffix f ∈ IMAGE_EXTENSIONS) || bool_decide (suffix f ∈ Media.VIDEO_EXTENSIONS).

Definition is_image (f : path) : bool := bool_decide (suffix f ∈ IMAGE_EXTENSIONS).

Definition is_video (f : path) : bool :=
  bool_decide (suffix f ∈ Media.VIDEO_EXTENSIONS).

(** The line that reports a conversion result. *)
Definition result_line (l : line) : Prop :=
  (exists orig opt red, l = LDone orig opt red) \/ (exists err, l = LFailed err).

(** The line that closes the processing of one file: a result for a file sent
    to a transcoder, the copy notice for any other. *)
Definition outcome_line (transcoded : bool) (l : line) : Prop :=
  if transcoded then result_line l else l = LCopied.

(** The lines of a loop over [files], numbered from [i], each file giving its
    progress line and then its one outcome line. *)
Inductive file_lines (root : path) (transcoded : path -> bool) (n : nat)
  : nat -> list path -> list line -> Prop :=
  | file_lines_nil i : file_lines root transcoded n i [] []
  | file_lines_cons i f files rel l ls :
      relative_to f root = Ok rel ->
      outcome_line (transcoded f) l ->
      file_lines root transcoded n (S i) files ls ->
      file_lines root transcoded n i (f :: files) (LProgress i n rel :: l :: ls).

(** What a run did for one of its files: the one result of a transcoder, or
    the one copy. *)
Inductive action :=
  | Converted (r : result)
  | Copied.

(** The line that reports an action: the sizes and the reduction of a
    successful result, the error of a failed one, the copy notice. *)
Definition action_line (a : action) (l : line) : Prop :=
  match a with
  | Converted r =>
      if success r
      then exists opt red,
             optimized_size_mb r = Some opt /\ reduction_percent r = Some red /\
             l = LDone (original_size_mb r) opt red
      else l = LFailed (error r)
  | Copied => l = LCopied
  end.

(** The copy of [src] to [dst] took the filesystem from [m] to [m']: the
    parent directories of [dst] were made, and [src], a regular file, has
    its content and metadata at [dst], or inside [dst] under its own name
    where [dst] is a directory. *)
Definition copied_verbatim `{Platform} (src dst : path) (m m' : fs) : Prop :=
  exists (f : file) (m1 : fs),
    mkdir_parents (parent dst) m = (Ok tt, m1) /\
    node_at m src = Some (NFile f) /\
    m' = <[(if is_dir_in m dst then dst ++ [name src] else dst) := NFile f]> m1.

(** The media script handled the file [src] by the action [a], which took
    the filesystem from [m] to [m']: an image went through [optimize_image]
    and a video through [optimize_video], either returning the result of the
    action; any other file was copied to the mirrored path. *)
Definition media_handled `{Platform} `{ImageLib} `{Subprocess}
    (src : path) (a : action) (m m' : fs) : Prop :=
  exists rel,
    relative_to src Media.SOURCE_DIR = Ok rel /\
    match a with
    | Converted r =>
        (is_image src = true /\
         Media.optimize_image src (join Media.OUTPUT_DIR rel) m = (Ok r, m')) \/
        (is_image src = false /\ is_video src = true /\
         Media.optimize_video src (join Media.OUTPUT_DIR rel) m = (Ok r, m'))
    | Copied =>
        is_media src = false /\
        copied_verbatim src (join Media.OUTPUT_DIR rel) m m'
    end.

(** The product script handled the file [src]: an image, which went through
    [optimize_image]. *)
Definition product_handled `{Platform} `{ImageLib}
    (src : path) (a : action) (m m' : fs) : Prop :=
  exists rel r,
    relative_to src Productos.SOURCE_DIR = Ok rel /\
    a = Converted r /\ is_image src = true /\
    Productos.optimize_image src (join Productos.OUTPUT_DIR rel) m = (Ok r, m').

(** A loop over [files], numbered from [i], that handled each file in turn
    by one action: the filesystem went from [m] to [m'] through the actions
    and through nothing else, and each file gave its progress line and the
    line of its action. *)
Inductive handled_in_turn (root : path)
    (handled : path -> action -> fs -> fs -> Prop) (n : nat)
  : nat -> list path -> list action -> fs -> fs -> list line -> Prop :=
  | handled_nil i m : handled_in_turn root handled n i [] [] m m []
  | handled_cons i f files a acts rel l ls m m1 m' :
      relative_to f root = Ok rel ->
      handled f a m m1 ->
      action_line a l ->
      handled_in_turn root handled n (S i) files acts m1 m' ls ->
      handled_in_turn root handled n i (f :: files) (a :: acts) m m'
        (LProgress i n rel :: l :: ls).

(** ** What a run may change in the filesystem *)

(** One change the scripts' file operations make: a directory made where
    nothing was, or a file written where no directory is.  [P] holds of the
    path changed. *)
Inductive write_step (P : path -> Prop) (m : fs) : fs -> Prop :=
  | step_mkdir (p : path) :
      P p -> p <> [] -> m !! p = None -> write_step P m (<[p := NDir]> m)
  | step_write (p : path) (f : file) :
      P p -> is_dir_in m p = false -> write_step P m (<[p := NFile f]> m).

(** [m'] comes from [m] by such changes at paths of [P]. *)
Definition changed_within (P : path -> Prop) : relation fs :=
  rtc (write_step P).

(** A computation changes the filesystem part [proj] of its state at paths
    of [P] only, however it ends. *)
Definition confined {S A : Type} (P : path -> Prop) (proj : S -> fs) (c : M S A)
  : Prop :=
  forall s o s', c s = (o, s') -> changed_within P (proj s) (proj s').

(** Both nodes are directories or both are files. *)
Definition same_kind (x y : node) : Prop :=
  match x, y with
  | NDir, NDir => True
  | NFile _, NFile _ => True
  | _, _ => False
  end.

(** The paths [optimize_image] may write for a source and a destination: the
    directories on the way to the destination and the destination, the
    destination with the suffix [.webp], and the name of the source inside
    the destination (where [copy2] puts the copy when the destination is a
    directory). *)
Definition image_targets (source_path output_path p : path) : Prop :=
  p `prefix_of` output_path \/
  with_suffix output_path ".webp" = Ok p \/
  p = output_path ++ [name source_path].

(** Where [optimize_image] leaves a file for a destination: at the
    destination renamed to [.webp], at the destination, or under the
    source's name inside it. *)
Definition image_outputs (source_path output_path t : path) : Prop :=
  with_suffix output_path ".webp" = Ok t \/
  t = output_path \/
  t = output_path ++ [name source_path].

(** The same for [optimize_video], which keeps the suffix. *)
Definition video_targets (source_path output_path p : path) : Prop :=
  p `prefix_of` output_path \/ p = output_path ++ [name source_path].

(** The output directory, the directories on the way to it, and what is
    below it. *)
Definition output_tree (output_dir p : path) : Prop :=
  p `prefix_of` output_dir \/ output_dir `prefix_of` p.

(** ** Counting files and lines of a run *)

(** The error line of a result, and the notice of a verbatim copy. *)
Definition is_failed (l : line) : bool :=
  match l with LFailed _ => true | _ => false end.

Definition is_copied (l : line) : bool :=
  match l with LCopied => true | _ => false end.

(** How many elements of a list pass a test. *)
Definition count {A : Type} (test : A -> bool) (xs : list A) : Z :=
  Z.of_nat (length (List.filter test xs)).

(** A regular file the listing of [main] finds below the source directory
    of the media script. *)
Definition listed `{Platform} (m0 : fs) (q : path) : Prop :=
  walkable m0 Media.SOURCE_DIR q = true /\ is_file_in m0 q = true.

(** A result without the key ['resized']. *)
Definition without_resized (r : result) : result :=
  Result (source r) (output r) (original_size_mb r) (success r) (error r)
         (optimized_size_mb r) (reduction_percent r) None.

(** The size in MB of the regular file at a path, and the sum [main] builds
    with [+=] over the files of a category, in the order of the listing. *)
Definition size_in (m : fs) (p : path) : float :=
  match node_at m p with
  | Some (NFile f) => size_mb f
  | _ => zero
  end.

Definition sum_of_sizes (m : fs) (keep : path -> bool) (files : list path)
    (start : float) : float :=
  fold_left (fun acc p => if keep p then Fadd acc (size_in m p) else acc) files start.

(** The files of a listing below [root]: regular files of [m], strictly
    below [root]. *)
Definition listing_of (m : fs) (root : path) (files : list path) : Prop :=
  forall q, In q files ->
            root `prefix_of` q /\ (length root < length q)%nat /\ is_file_in m q = true.

(** More concrete inputs for the examples. *)
Module Sample.

(** [srv/Servicios] with an empty picture and an empty video. *)
Definition hollow_tree : fs :=
  list_to_map
    [ (["srv"], NDir);
      (["srv"; "Servicios"], NDir);
      (["srv"; "Servicios"; "void.jpg"], NFile (File [] Toy.a_meta));
      (["srv"; "Servicios"; "void.mp4"], NFile (File [] Toy.a_meta)) ]%string.

Definition void_jpg : path := ["srv"; "Servicios"; "void.jpg"]%string.
Definition void_jpg_dst : path := ["srv"; "ServiciosOptimized"; "void.jpg"]%string.
Definition gone : path := ["srv"; "Servicios"; "gone.jpg"]%string.
Definition gone_dst : path := ["srv"; "ServiciosOptimized"; "gone.jpg"]%string.

Definition big_src : path := ["srv"; "Servicios"; "a"; "big.jpg"]%string.
Definition big_dst : path := ["srv"; "ServiciosOptimized"; "a"; "big.jpg"]%string.

(** [srv/Productos] with two pictures that differ in the extension. *)
Definition twin_tree : fs :=
  list_to_map
    [ (["srv"], NDir);
      (["srv"; "Productos"], NDir);
      (["srv"; "Productos"; "a.jpg"], NFile (File (Toy.picture 640 480) Toy.a_meta));
      (["srv"; "Productos"; "a.png"], NFile (File (Toy.picture 320 240) Toy.a_meta)) ]%string.

Definition a_jpg : path := ["srv"; "Productos"; "a.jpg"]%string.
Definition a_png : path := ["srv"; "Productos"; "a.png"]%string.
Definition a_jpg_dst : path := ["srv"; "ProductosOptimized"; "a.jpg"]%string.
Definition a_png_dst : path := ["srv"; "ProductosOptimized"; "a.png"]%string.
Definition a_webp_dst : path := ["srv"; "ProductosOptimized"; "a.webp"]%string.

(** A regular file stands where the output directory of the media script
    should be. *)
Definition blocked_tree : fs :=
  list_to_map
    [ (["srv"], NDir);
      (["srv"; "Servicios"], NDir);
      (["srv"; "Servicios"; "a.jpg"], NFile (File (Toy.picture 640 480) Toy.a_meta));
      (["srv"; "ServiciosOptimized"], NFile (File Toy.junk Toy.a_meta)) ]%string.

End Sample.
Example round_1080_2000 : round 1080 2000 = Float 0x1147ae147ae148 (-53).
Proof. vm_compute. reflexivity. Qed.

Example new_size_3000_2000 : new_size 3000 2000 = Some (1620, 1080).
Proof. vm_compute. reflexivity. Qed.

Example new_size_1921_1080 : new_size 1921 1080 = Some (1920, 1079).
Proof. vm_compute. reflexivity. Qed.

Example new_size_1920_1081 : new_size 1920 1081 = Some (1918, 1080).
Proof. vm_compute. reflexivity. Qed.

Example new_size_1_100000 : new_size 1 100000 = Some (0, 1080).
Proof. vm_compute. reflexivity. Qed.

Example new_size_2500_1407 : new_size 2500 1407 = Some (1918, 1080).
Proof. vm_compute. reflexivity. Qed.

Example new_size_big : new_size 2147483647 2147483647 = Some (1080, 1080).
Proof. vm_compute. reflexivity. Qed.

(** ** Facts about the float model *)

Section FloatFacts.
Local Open Scope R_scope.

Lemma Rabs_bounds a b : Rabs a <= b -> - b <= a <= b.
Proof. unfold Rabs. destruct (Rcase_abs a); lra. Qed.

Lemma bpow_pos e : 0 < powerRZ 2 e.
Proof. apply powerRZ_lt; lra. Qed.

Lemma bpow_add a b : powerRZ 2 (a + b) = powerRZ 2 a * powerRZ 2 b.
Proof. apply powerRZ_add; lra. Qed.

Lemma bpow_opp a : powerRZ 2 (- a) = / powerRZ 2 a.
Proof. apply powerRZ_neg'. Qed.

Lemma bpow_IZR k : (0 <= k)%Z -> IZR (2 ^ k) = powerRZ 2 k.
Proof.
  intros Hk. rewrite <- (Z2Nat.id k Hk) at 1.
  rewrite <- pow_IZR, pow_powerRZ, Z2Nat.id by exact Hk. reflexivity.
Qed.

Lemma bpow_53 : powerRZ 2 53 = 9007199254740992.
Proof. rewrite <- bpow_IZR by lia. reflexivity. Qed.

Lemma bpow_52 : powerRZ 2 52 = 4503599627370496.
Proof. rewrite <- bpow_IZR by lia. reflexivity. Qed.

Lemma bpow_54 : powerRZ 2 54 = 18014398509481984.
Proof. rewrite <- bpow_IZR by lia. reflexivity. Qed.

Lemma scaled_value n d e num den :
  (0 < d)%Z -> scaled n d e = (num, den) ->
  (0 < den)%Z /\ IZR num / IZR den = IZR n / IZR d * powerRZ 2 (- e).
Proof.
  intros Hd. unfold scaled. destruct (Z.leb_spec 0 e) as [He|He]; intros [= <- <-].
  - split; [apply Z.mul_pos_pos; [lia | apply Z.pow_pos_nonneg; lia] |].
    rewrite mult_IZR, bpow_IZR, bpow_opp by lia.
    pose proof (bpow_pos e). assert (IZR d <> 0) by (apply not_0_IZR; lia).
    field. split; lra.
  - split; [lia |].
    rewrite mult_IZR, bpow_IZR by lia.
    assert (IZR d <> 0) by (apply not_0_IZR; lia). field. assumption.
Qed.

Lemma div_floor num den :
  (0 < den)%Z ->
  IZR (num / den) <= IZR num / IZR den < IZR (num / den) + 1.
Proof.
  intros Hd.
  pose proof (Z.div_mod num den ltac:(lia)) as E.
  pose proof (Z.mod_pos_bound num den Hd) as [Hr0 Hr1].
  assert (Hden : 0 < IZR den) by (apply IZR_lt; lia).
  assert (E' : IZR num = IZR den * IZR (num / den) + IZR (num mod den)).
  { rewrite <- mult_IZR, <- plus_IZR. f_equal. exact E. }
  apply IZR_le in Hr0. apply IZR_lt in Hr1.
  replace (IZR num / IZR den) with (IZR (num / den) + IZR (num mod den) / IZR den)
    by (rewrite E'; field; lra).
  assert (0 <= IZR (num mod den) / IZR den < 1).
  { split.
    - apply Rmult_le_pos; [lra | left; apply Rinv_0_lt_compat; lra].
    - apply Rmult_lt_reg_r with (IZR den); [lra |].
      unfold Rdiv. rewrite Rmult_assoc, Rinv_l by lra. lra. }
  lra.
Qed.

Lemma nearest_even_close num den :
  (0 < den)%Z ->
  Rabs (IZR (nearest_even num den) - IZR num / IZR den) <= / 2.
Proof.
  intros Hd.
  pose proof (Z.div_mod num den ltac:(lia)) as E.
  pose proof (Z.mod_pos_bound num den Hd) as [Hr0 Hr1].
  assert (Hden : 0 < IZR den) by (apply IZR_lt; lia).
  assert (E' : IZR num = IZR den * IZR (num / den) + IZR (num mod den)).
  { rewrite <- mult_IZR, <- plus_IZR. f_equal. exact E. }
  set (q := (num / den)%Z) in *. set (r := (num mod den)%Z) in *.
  assert (Hfrac : IZR num / IZR den = IZR q + IZR r / IZR den)
    by (rewrite E'; field; lra).
  assert (Hlow : forall m : Z, (2 * r <= den)%Z -> m = q ->
             Rabs (IZR m - IZR num / IZR den) <= / 2).
  { intros m Hle ->. rewrite Hfrac.
    replace (IZR q - (IZR q + IZR r / IZR den)) with (- (IZR r / IZR den)) by ring.
    rewrite Rabs_Ropp, Rabs_pos_eq.
    - apply Rmult_le_reg_r with (IZR den); [lra |].
      unfold Rdiv. rewrite Rmult_assoc, Rinv_l by lra.
      apply IZR_le in Hle. rewrite mult_IZR in Hle. lra.
    - apply Rmult_le_pos; [apply IZR_le; lia | left; apply Rinv_0_lt_compat; lra]. }
  assert (Hhigh : forall m : Z, (den <= 2 * r)%Z -> m = (q + 1)%Z ->
             Rabs (IZR m - IZR num / IZR den) <= / 2).
  { intros m Hle ->. rewrite Hfrac, plus_IZR.
    replace (IZR q + 1 - (IZR q + IZR r / IZR den)) with (1 - IZR r / IZR den) by ring.
    assert (Hr : / 2 <= IZR r / IZR den < 1).
    { split.
      - apply Rmult_le_reg_r with (IZR den); [lra |].
        unfold Rdiv. rewrite Rmult_assoc, Rinv_l by lra.
        apply IZR_le in Hle. rewrite mult_IZR in Hle. lra.
      - apply Rmult_lt_reg_r with (IZR den); [lra |].
        unfold Rdiv. rewrite Rmult_assoc, Rinv_l by lra.
        apply IZR_lt in Hr1. lra. }
    rewrite Rabs_pos_eq; lra. }
  unfold nearest_even. fold q r.
  destruct (Z.ltb_spec (2 * r) den); [apply Hlow; [lia | reflexivity] |].
  destruct (Z.ltb_spec den (2 * r)); [apply Hhigh; [lia | reflexivity] |].
  destruct (Z.even q); [apply Hlow | apply Hhigh]; first [lia | reflexivity].
Qed.

Lemma log2_bounds n :
  (0 < n)%Z -> powerRZ 2 (Z.log2 n) <= IZR n < powerRZ 2 (Z.log2 n + 1).
Proof.
  intros Hn. pose proof (Z.log2_spec n Hn) as [H1 H2].
  pose proof (Z.log2_nonneg n).
  rewrite <- !bpow_IZR by lia. split; [apply IZR_le | apply IZR_lt]; lia.
Qed.

(** The exponent [round_pos] settles on puts the scaled quotient in
    [2^52, 2^53). *)
Lemma round_pos_window n d :
  (0 < n)%Z -> (0 < d)%Z ->
  exists e num den,
    round_pos n d = Float (nearest_even num den) e /\
    scaled n d e = (num, den) /\
    (0 < den)%Z /\
    IZR num / IZR den = IZR n / IZR d * powerRZ 2 (- e) /\
    powerRZ 2 52 <= IZR num / IZR den < powerRZ 2 53.
Proof.
  intros Hn Hd. unfold round_pos, prec.
  set (e0 := (Z.log2 n - Z.log2 d - 53)%Z).
  destruct (scaled n d e0) as [num0 den0] eqn:E0.
  destruct (scaled_value _ _ _ _ _ Hd E0) as [Hden0 Hv0].
  pose proof (log2_bounds n Hn) as [Hn1 Hn2].
  pose proof (log2_bounds d Hd) as [Hd1 Hd2].
  pose proof (bpow_pos (Z.log2 n)) as Pn. pose proof (bpow_pos (Z.log2 d)) as Pd.
  assert (Hdpos : 0 < IZR d) by (apply IZR_lt; lia).
  assert (Hnpos : 0 < IZR n) by (apply IZR_lt; lia).
  set (x := IZR n / IZR d) in *.
  assert (Hx : x * IZR d = IZR n) by (unfold x; field; lra).
  (* x * 2^-e0 lies strictly between 2^52 and 2^54 *)
  assert (Hwin : powerRZ 2 52 < x * powerRZ 2 (- e0) < powerRZ 2 54).
  { assert (Ee : powerRZ 2 (- e0) * powerRZ 2 (Z.log2 n) =
                 powerRZ 2 53 * powerRZ 2 (Z.log2 d)).
    { rewrite <- !bpow_add. f_equal. unfold e0. lia. }
    pose proof (bpow_pos (- e0)) as Pe.
    rewrite (bpow_add (Z.log2 n) 1) in Hn2. rewrite (bpow_add (Z.log2 d) 1) in Hd2.
    change (powerRZ 2 1) with (2 * 1) in Hn2, Hd2.
    rewrite bpow_52, bpow_54. rewrite bpow_53 in Ee.
    set (y := x * powerRZ 2 (- e0)).
    assert (Hy : y * IZR d = powerRZ 2 (- e0) * IZR n) by (unfold y; rewrite <- Hx; ring).
    set (A := powerRZ 2 (Z.log2 n)) in *. set (B := powerRZ 2 (Z.log2 d)) in *.
    set (E := powerRZ 2 (- e0)) in *.
    assert (HEA : E * A <= E * IZR n) by (apply Rmult_le_compat_l; lra).
    assert (HEn : E * IZR n < E * (A * (2 * 1))) by (apply Rmult_lt_compat_l; lra).
    split; apply Rmult_lt_reg_r with (IZR d); lra. }
  pose proof (div_floor num0 den0 Hden0) as [Hf1 Hf2].
  rewrite Hv0 in Hf1, Hf2.
  rewrite bpow_52, bpow_54 in Hwin. rewrite bpow_52, bpow_53.
  destruct (Z.ltb_spec (num0 / den0) (2 ^ 53)) as [Hlt|Hge].
  - rewrite E0. exists e0, num0, den0. repeat split; try assumption.
    + rewrite Hv0. lra.
    + rewrite Hv0.
      (* the quotient is an integer below 2^53, so the scaled value is too *)
      assert (IZR (num0 / den0) + 1 <= 9007199254740992).
      { rewrite <- plus_IZR. apply IZR_le. change (2 ^ 53)%Z with 9007199254740992%Z in Hlt. lia. }
      lra.
  - destruct (scaled n d (e0 + 1)) as [num den] eqn:E1.
    destruct (scaled_value _ _ _ _ _ Hd E1) as [Hden Hv]. fold x in Hv.
    apply IZR_le in Hge. change (2 ^ 53)%Z with 9007199254740992%Z in Hge.
    assert (Hhalf : powerRZ 2 (- (e0 + 1)) = powerRZ 2 (- e0) * / 2).
    { replace (- (e0 + 1))%Z with (- e0 + - (1))%Z by lia.
      rewrite bpow_add. change (powerRZ 2 (- (1))) with (/ (2 * 1)).
      rewrite Rmult_1_r. reflexivity. }
    exists (e0 + 1)%Z, num, den. repeat split; try assumption.
    + rewrite Hv, Hhalf. lra.
    + rewrite Hv, Hhalf. lra.
Qed.

(** Rounding a positive quotient: the result is positive and within relative
    error [2^-53] of the exact quotient. *)
Lemma round_pos_spec n d :
  (0 < n)%Z -> (0 < d)%Z ->
  (0 < Fnum (round_pos n d))%Z /\
  Rabs (F2R (round_pos n d) - IZR n / IZR d) <= IZR n / IZR d * u53.
Proof.
  intros Hn Hd.
  destruct (round_pos_window n d Hn Hd) as (e & num & den & -> & _ & Hden & Hv & Hlo & Hhi).
  pose proof (nearest_even_close num den Hden) as Hc.
  rewrite bpow_52 in Hlo. rewrite bpow_53 in Hhi. unfold F2R, u53. simpl Fnum. simpl Fexp.
  set (m := IZR (nearest_even num den)) in *.
  set (y := IZR num / IZR den) in *.
  pose proof (bpow_pos e) as Pe.
  assert (Hx : IZR n / IZR d = y * powerRZ 2 e).
  { rewrite Hv, Rmult_assoc, <- bpow_add. replace (- e + e)%Z with 0%Z by lia.
    simpl. ring. }
  apply Rabs_bounds in Hc.
  split.
  - apply lt_IZR. fold m. lra.
  - rewrite Hx. replace (m * powerRZ 2 e - y * powerRZ 2 e) with ((m - y) * powerRZ 2 e) by ring.
    rewrite Rabs_mult, (Rabs_pos_eq (powerRZ 2 e)) by lra.
    replace (y * powerRZ 2 e * / 9007199254740992)
      with (y * / 9007199254740992 * powerRZ 2 e) by ring.
    apply Rmult_le_compat_r; [lra |]. apply Rabs_le. lra.
Qed.


Lemma round_positive n d : (0 < n)%Z -> round n d = round_pos n d.
Proof. destruct n; simpl; [lia | reflexivity | lia]. Qed.

Lemma F2R_shift x k : F2R (shift x k) = F2R x * powerRZ 2 k.
Proof. unfold F2R, shift. simpl. rewrite bpow_add. ring. Qed.

Lemma F2R_pos x : (0 < Fnum x)%Z -> 0 < F2R x.
Proof.
  intros H. unfold F2R. apply Rmult_lt_0_compat; [apply IZR_lt; lia | apply bpow_pos].
Qed.

(** [a / b] on positive ints is the quotient within relative error [2^-53]. *)
Lemma int_truediv_spec a b :
  (0 < a)%Z -> (0 < b)%Z ->
  exists f, int_truediv a b = Some f /\ (0 < Fnum f)%Z /\
            Rabs (F2R f - IZR a / IZR b) <= IZR a / IZR b * u53.
Proof.
  intros Ha Hb. unfold int_truediv.
  destruct (Z.eqb_spec b 0) as [->|_]; [lia |].
  rewrite Z.sgn_pos, Z.mul_1_r, Z.abs_eq, round_positive by lia.
  eexists; split; [reflexivity |]. apply round_pos_spec; assumption.
Qed.

Lemma nearest_even_whole k : nearest_even k 1 = k.
Proof. unfold nearest_even. rewrite Z.div_1_r, Z.mod_1_r. reflexivity. Qed.

(** [float(n)] is exact below [2^53]. *)
Lemma of_int_exact n :
  (0 < n < 2 ^ 53)%Z -> (0 < Fnum (of_int n))%Z /\ F2R (of_int n) = IZR n.
Proof.
  intros [Hn Hlt]. unfold of_int. rewrite round_positive by assumption.
  destruct (round_pos_window n 1 Hn ltac:(lia)) as (e & num & den & -> & Hs & Hden & Hv & Hlo & Hhi).
  rewrite Hv, bpow_52 in Hlo. rewrite Rdiv_1_r in Hlo.
  assert (He : (e <= 0)%Z).
  { destruct (Z.leb_spec e 0) as [|Hpos]; [assumption | exfalso].
    assert (powerRZ 2 (- e) <= / 2).
    { replace (- e)%Z with (- (e - 1) + - (1))%Z by lia.
      rewrite bpow_add, bpow_opp. change (powerRZ 2 (- (1))) with (/ (2 * 1)).
      rewrite Rmult_1_r, <- bpow_IZR by lia.
      assert (1 <= IZR (2 ^ (e - 1))).
      { apply IZR_le. pose proof (Z.pow_pos_nonneg 2 (e - 1)). lia. }
      assert (/ IZR (2 ^ (e - 1)) <= 1).
      { rewrite <- Rinv_1. apply Rinv_le_contravar; lra. }
      lra. }
    apply IZR_lt in Hlt. change (2 ^ 53)%Z with 9007199254740992%Z in Hlt.
    assert (0 < IZR n) by (apply IZR_lt; lia).
    assert (IZR n * powerRZ 2 (- e) <= IZR n * / 2) by (apply Rmult_le_compat_l; lra).
    lra. }
  assert (Hnum : num = (n * 2 ^ (- e))%Z /\ den = 1%Z).
  { unfold scaled in Hs. destruct (Z.leb_spec 0 e).
    - assert (e = 0)%Z as -> by lia. simpl in Hs. injection Hs as <- <-. lia.
    - injection Hs as <- <-. lia. }
  destruct Hnum as [-> ->]. rewrite nearest_even_whole; simpl Fnum.
  split.
  - apply Z.mul_pos_pos; [lia | apply Z.pow_pos_nonneg; lia].
  - unfold F2R. simpl. rewrite mult_IZR, bpow_IZR, Rmult_assoc, <- bpow_add by lia.
    replace (- e + e)%Z with 0%Z by lia. simpl. ring.
Qed.

(** The product of two positive floats is within relative error [2^-53]. *)
Lemma Fmul_spec x y :
  (0 < Fnum x)%Z -> (0 < Fnum y)%Z ->
  (0 < Fnum (Fmul x y))%Z /\
  Rabs (F2R (Fmul x y) - F2R x * F2R y) <= F2R x * F2R y * u53.
Proof.
  intros Hx Hy. unfold Fmul.
  assert (Hp : (0 < Fnum x * Fnum y)%Z) by (apply Z.mul_pos_pos; assumption).
  rewrite round_positive by assumption.
  destruct (round_pos_spec _ 1 Hp ltac:(lia)) as [Hpos Herr].
  split; [exact Hpos |].
  rewrite F2R_shift. rewrite Rdiv_1_r, mult_IZR in Herr.
  set (r := F2R (round_pos (Fnum x * Fnum y) 1)) in *.
  pose proof (bpow_pos (Fexp x + Fexp y)) as Pe.
  replace (F2R x * F2R y)
    with (IZR (Fnum x) * IZR (Fnum y) * powerRZ 2 (Fexp x + Fexp y))
    by (unfold F2R; rewrite bpow_add; ring).
  set (p := IZR (Fnum x) * IZR (Fnum y)) in *.
  replace (r * powerRZ 2 (Fexp x + Fexp y) - p * powerRZ 2 (Fexp x + Fexp y))
    with ((r - p) * powerRZ 2 (Fexp x + Fexp y)) by ring.
  rewrite Rabs_mult, (Rabs_pos_eq (powerRZ 2 _)) by lra.
  replace (p * powerRZ 2 (Fexp x + Fexp y) * u53)
    with (p * u53 * powerRZ 2 (Fexp x + Fexp y)) by ring.
  apply Rmult_le_compat_r; [lra | exact Herr].
Qed.

Lemma align_value x y mx my e :
  align x y = (mx, my, e) ->
  F2R x = IZR mx * powerRZ 2 e /\ F2R y = IZR my * powerRZ 2 e.
Proof.
  unfold align. intros [= <- <- <-]. unfold F2R.
  rewrite !mult_IZR, !bpow_IZR by lia. rewrite !Rmult_assoc, <- !bpow_add.
  split; do 2 f_equal; lia.
Qed.

Lemma Fltb_spec x y : Fltb x y = true <-> F2R x < F2R y.
Proof.
  unfold Fltb. destruct (align x y) as [[mx my] e] eqn:E.
  destruct (align_value _ _ _ _ _ E) as [-> ->].
  pose proof (bpow_pos e) as Pe. rewrite Z.ltb_lt. split.
  - intros H. apply Rmult_lt_compat_r; [lra | apply IZR_lt; assumption].
  - intros H. apply lt_IZR. apply Rmult_lt_reg_r with (powerRZ 2 e); assumption.
Qed.

Lemma py_min_spec x y :
  (py_min x y = x \/ py_min x y = y) /\ F2R (py_min x y) = Rmin (F2R x) (F2R y).
Proof.
  unfold py_min. destruct (Fltb y x) eqn:E.
  - apply Fltb_spec in E. split; [right; reflexivity |]. rewrite Rmin_right; lra.
  - split; [left; reflexivity |].
    assert (~ F2R y < F2R x) by (rewrite <- Fltb_spec; congruence).
    rewrite Rmin_left; lra.
Qed.

(** [int(x)] is the floor of a non-negative float. *)
Lemma py_int_spec x :
  (0 <= Fnum x)%Z -> IZR (py_int x) <= F2R x < IZR (py_int x) + 1.
Proof.
  intros Hx. unfold py_int, F2R. destruct (Z.leb_spec 0 (Fexp x)) as [He|He].
  - rewrite mult_IZR, bpow_IZR by assumption. lra.
  - assert (Hp : (0 < 2 ^ (- Fexp x))%Z) by (apply Z.pow_pos_nonneg; lia).
    rewrite Z.quot_div_nonneg by lia.
    pose proof (div_floor (Fnum x) _ Hp) as Hf.
    rewrite bpow_IZR in Hf by lia.
    replace (powerRZ 2 (Fexp x)) with (/ powerRZ 2 (- Fexp x))
      by (rewrite <- bpow_opp; f_equal; lia).
    exact Hf.
Qed.

End FloatFacts.

(** ** The new size of an image that is too large *)

Section Sizing.
Local Open Scope R_scope.

(** One dimension [a] scaled by a float within [2^-53] of [c / b]: truncation
    gives the floor of the exact [a * c / b], or one less. *)
Lemma scaled_dimension a c b r :
  (0 < a < max_dimension)%Z -> (0 < b < max_dimension)%Z -> (0 < c)%Z ->
  (a * c <= 1920 * b)%Z ->
  (0 < Fnum r)%Z ->
  Rabs (F2R r - IZR c / IZR b) <= IZR c / IZR b * u53 ->
  let o := py_int (Fmul (of_int a) r) in
  (o * b <= a * c <= (o + 1) * b)%Z.
Proof.
  unfold max_dimension. intros Ha Hb Hc Hfit Hr Herr.
  set (o := py_int (Fmul (of_int a) r)).
  destruct (of_int_exact a ltac:(lia)) as [Hapos Haval].
  destruct (Fmul_spec (of_int a) r Hapos Hr) as [Hppos Hperr].
  pose proof (py_int_spec (Fmul (of_int a) r) ltac:(lia)) as Hfloor.
  fold o in Hfloor. rewrite Haval in Hperr.
  set (y := F2R (Fmul (of_int a) r)) in *. set (r' := F2R r) in *.
  assert (HA : 0 < IZR a) by (apply IZR_lt; lia).
  assert (HB : 0 < IZR b) by (apply IZR_lt; lia).
  assert (HC : 0 < IZR c) by (apply IZR_lt; lia).
  assert (HB31 : IZR b < 2147483648) by (apply IZR_lt; lia).
  set (t := IZR c / IZR b) in *.
  assert (Ht : 0 < t) by (apply Rdiv_lt_0_compat; assumption).
  set (E := IZR a * t).
  assert (HEb : E * IZR b = IZR (a * c)).
  { unfold E, t. rewrite mult_IZR. field. lra. }
  assert (HE0 : 0 < E) by (apply Rmult_lt_0_compat; assumption).
  assert (HE : E <= 1920).
  { apply Rmult_le_reg_r with (IZR b); [assumption |]. rewrite HEb.
    rewrite <- mult_IZR. apply IZR_le. exact Hfit. }
  (* z = a * r' is within E * u of E *)
  apply Rabs_bounds in Herr. apply Rabs_bounds in Hperr.
  set (z := IZR a * r') in *.
  assert (Hz : - (E * u53) <= z - E <= E * u53).
  { unfold z, E. split.
    - replace (- (IZR a * t * u53)) with (IZR a * - (t * u53)) by ring.
      replace (IZR a * r' - IZR a * t) with (IZR a * (r' - t)) by ring.
      apply Rmult_le_compat_l; lra.
    - replace (IZR a * r' - IZR a * t) with (IZR a * (r' - t)) by ring.
      replace (IZR a * t * u53) with (IZR a * (t * u53)) by ring.
      apply Rmult_le_compat_l; lra. }
  unfold u53 in *.
  assert (Hy : - / 1000000000000 <= y - E <= / 1000000000000) by lra.
  assert (Hob : IZR o * IZR b <= (E + / 1000000000000) * IZR b).
  { apply Rmult_le_compat_r; lra. }
  assert (Hob' : (E - / 1000000000000) * IZR b < (IZR o + 1) * IZR b).
  { apply Rmult_lt_compat_r; lra. }
  split.
  - assert (IZR (o * b) < IZR (a * c + 1)).
    { rewrite mult_IZR, plus_IZR, <- HEb. lra. }
    apply lt_IZR in H. lia.
  - assert (IZR (a * c - 1) < IZR ((o + 1) * b)).
    { rewrite mult_IZR, minus_IZR, plus_IZR, <- HEb. lra. }
    apply lt_IZR in H. lia.
Qed.

Lemma Rmin_close a b a' b' :
  0 < a -> 0 < b ->
  Rabs (a' - a) <= a * u53 -> Rabs (b' - b) <= b * u53 ->
  Rabs (Rmin a' b' - Rmin a b) <= Rmin a b * u53.
Proof.
  intros Ha Hb Ha' Hb'. apply Rabs_bounds in Ha'. apply Rabs_bounds in Hb'.
  unfold u53 in *. apply Rabs_le.
  unfold Rmin. destruct (Rle_dec a' b'), (Rle_dec a b); lra.
Qed.

Lemma ratio_le_iff c d w h :
  (0 < w)%Z -> (0 < h)%Z ->
  IZR c / IZR w <= IZR d / IZR h <-> (c * h <= d * w)%Z.
Proof.
  intros Hw Hh.
  assert (HW : 0 < IZR w) by (apply IZR_lt; lia).
  assert (HH : 0 < IZR h) by (apply IZR_lt; lia).
  assert (HWH : 0 < IZR w * IZR h) by (apply Rmult_lt_0_compat; assumption).
  replace (IZR c / IZR w) with (IZR (c * h) * / (IZR w * IZR h))
    by (rewrite mult_IZR; field; lra).
  replace (IZR d / IZR h) with (IZR (d * w) * / (IZR w * IZR h))
    by (rewrite mult_IZR; field; lra).
  pose proof (Rinv_0_lt_compat _ HWH) as Hinv.
  split.
  - intros Hle. apply le_IZR. apply Rmult_le_reg_r with (/ (IZR w * IZR h)); assumption.
  - intros Hle. apply Rmult_le_compat_r; [lra | apply IZR_le; assumption].
Qed.

Lemma ratio_terms_exact w h c b :
  (0 < w)%Z -> (0 < h)%Z -> ratio_terms w h = (c, b) ->
  exact_ratio w h = IZR c / IZR b.
Proof.
  intros Hw Hh. unfold ratio_terms, exact_ratio.
  destruct (Z.leb_spec (IMAGE_MAX_WIDTH * h) (IMAGE_MAX_HEIGHT * w)) as [Hle|Hgt];
    intros [= <- <-].
  - apply Rmin_left. apply ratio_le_iff; assumption.
  - apply Rmin_right. apply ratio_le_iff; try assumption. lia.
Qed.

(** Both new dimensions are the floor of the exactly scaled dimension, or one
    less. *)
Lemma new_size_spec w h :
  (0 < w < max_dimension)%Z -> (0 < h < max_dimension)%Z ->
  exists ow oh c b,
    new_size w h = Some (ow, oh) /\ ratio_terms w h = (c, b) /\
    (0 < c)%Z /\ (0 < b)%Z /\
    (ow * b <= w * c <= (ow + 1) * b)%Z /\
    (oh * b <= h * c <= (oh + 1) * b)%Z.
Proof.
  intros Hw Hh. unfold new_size.
  destruct (int_truediv_spec IMAGE_MAX_WIDTH w ltac:(reflexivity) ltac:(lia))
    as (rw & -> & Hrwpos & Hrw).
  destruct (int_truediv_spec IMAGE_MAX_HEIGHT h ltac:(reflexivity) ltac:(lia))
    as (rh & -> & Hrhpos & Hrh).
  destruct (py_min_spec rw rh) as [Hwhich Hval].
  assert (Hpos : (0 < Fnum (py_min rw rh))%Z) by (destruct Hwhich as [-> | ->]; assumption).
  assert (HW : 0 < IZR w) by (apply IZR_lt; lia).
  assert (HH : 0 < IZR h) by (apply IZR_lt; lia).
  assert (Hclose : Rabs (F2R (py_min rw rh) - exact_ratio w h) <= exact_ratio w h * u53).
  { rewrite Hval. unfold exact_ratio. apply Rmin_close; try assumption.
    - apply Rdiv_lt_0_compat; [apply IZR_lt; reflexivity | assumption].
    - apply Rdiv_lt_0_compat; [apply IZR_lt; reflexivity | assumption]. }
  destruct (ratio_terms w h) as [c b] eqn:Ecb.
  rewrite (ratio_terms_exact w h c b) in Hclose by (lia || assumption).
  exists (py_int (Fmul (of_int w) (py_min rw rh))),
         (py_int (Fmul (of_int h) (py_min rw rh))), c, b.
  assert (Hcb : (0 < c)%Z /\ (0 < b < max_dimension)%Z /\
                (w * c <= 1920 * b)%Z /\ (h * c <= 1920 * b)%Z).
  { unfold ratio_terms, IMAGE_MAX_WIDTH, IMAGE_MAX_HEIGHT in Ecb.
    destruct (Z.leb_spec (1920 * h) (1080 * w)); injection Ecb as <- <-; lia. }
  destruct Hcb as (Hc & Hb & Hfw & Hfh).
  split; [reflexivity |]. split; [reflexivity |]. split; [assumption |].
  split; [lia |]. split.
  - apply scaled_dimension; assumption.
  - apply scaled_dimension; assumption.
Qed.


(** What the bounds of [new_size_spec] give when the image is too large:
    the new size fits, does not exceed the old one, and is within a pixel of
    the exactly scaled size. *)
Lemma new_size_facts w h :
  (0 < w < max_dimension)%Z -> (0 < h < max_dimension)%Z ->
  exists ow oh,
    new_size w h = Some (ow, oh) /\
    (0 <= ow <= IMAGE_MAX_WIDTH)%Z /\ (0 <= oh <= IMAGE_MAX_HEIGHT)%Z /\
    ((IMAGE_MAX_WIDTH < w \/ IMAGE_MAX_HEIGHT < h)%Z -> (ow <= w /\ oh <= h)%Z) /\
    IZR w * exact_ratio w h - 1 <= IZR ow <= IZR w * exact_ratio w h /\
    IZR h * exact_ratio w h - 1 <= IZR oh <= IZR h * exact_ratio w h /\
    (Z.abs (ow * h - oh * w) <= Z.max w h)%Z.
Proof.
  intros Hw Hh.
  destruct (new_size_spec w h Hw Hh) as (ow & oh & c & b & E & Ecb & Hc & Hb & How & Hoh).
  exists ow, oh. split; [exact E |].
  rewrite (ratio_terms_exact w h c b) by (lia || assumption).
  assert (HB : 0 < IZR b) by (apply IZR_lt; lia).
  assert (Hreal : forall a o : Z, (o * b <= a * c <= (o + 1) * b)%Z ->
            IZR a * (IZR c / IZR b) - 1 <= IZR o <= IZR a * (IZR c / IZR b)).
  { intros a o [H1 H2]. apply IZR_le in H1, H2.
    rewrite !mult_IZR in H1. rewrite !mult_IZR, plus_IZR in H2.
    replace (IZR a * (IZR c / IZR b)) with (IZR a * IZR c / IZR b) by (field; lra).
    split.
    - apply Rmult_le_reg_r with (IZR b); [assumption |].
      replace ((IZR a * IZR c / IZR b - 1) * IZR b) with (IZR a * IZR c - IZR b) by (field; lra).
      lra.
    - apply Rmult_le_reg_r with (IZR b); [assumption |].
      replace (IZR a * IZR c / IZR b * IZR b) with (IZR a * IZR c) by (field; lra).
      lra. }
  assert (cancel_le : forall p x y : Z, (0 < p)%Z -> (x * p <= y * p)%Z -> (x <= y)%Z).
  { intros p x y Hp Hxy. apply (Z.mul_le_mono_pos_r x y p Hp). exact Hxy. }
  assert (cancel_lt : forall p x y : Z, (0 < p)%Z -> (x * p < y * p)%Z -> (x < y)%Z).
  { intros p x y Hp Hxy. apply (Z.mul_lt_mono_pos_r p x y Hp). exact Hxy. }
  unfold ratio_terms, IMAGE_MAX_WIDTH, IMAGE_MAX_HEIGHT in *.
  destruct (Z.leb_spec (1920 * h) (1080 * w)) as [Hle|Hgt]; injection Ecb as <- <-.
  - (* the width decides: ow is 1919 or 1920 *)
    assert (Hw1 : (1919 <= ow)%Z).
    { assert (1920 <= ow + 1)%Z; [| lia]. apply (cancel_le w); lia. }
    assert (Hw2 : (ow <= 1920)%Z) by (apply (cancel_le w); lia).
    assert (Hh1 : (0 <= oh)%Z).
    { assert (0 < oh + 1)%Z; [| lia]. apply (cancel_lt w); lia. }
    assert (Hh2 : (oh <= 1080)%Z) by (apply (cancel_le w); lia).
    assert (Hp1 : (ow * h <= 1920 * h)%Z) by (apply Z.mul_le_mono_nonneg_r; lia).
    assert (Hp2 : (1919 * h <= ow * h)%Z) by (apply Z.mul_le_mono_nonneg_r; lia).
    split; [lia |]. split; [lia |]. split; [| split; [| split]].
    + intros Hbig. split; [lia |].
      apply Z.lt_le_incl, (cancel_lt w); [lia |].
      assert (1920 * h < h * w)%Z; [| lia].
      rewrite (Z.mul_comm h w). apply Z.mul_lt_mono_pos_r; lia.
    + apply Hreal; assumption.
    + apply Hreal; assumption.
    + lia.
  - (* the height decides: oh is 1079 or 1080 *)
    assert (Hh1 : (1079 <= oh)%Z).
    { assert (1080 <= oh + 1)%Z; [| lia]. apply (cancel_le h); lia. }
    assert (Hh2 : (oh <= 1080)%Z) by (apply (cancel_le h); lia).
    assert (Hw1 : (0 <= ow)%Z).
    { assert (0 < ow + 1)%Z; [| lia]. apply (cancel_lt h); lia. }
    assert (Hw2 : (ow <= 1920)%Z) by (apply (cancel_le h); lia).
    assert (Hp1 : (oh * w <= 1080 * w)%Z) by (apply Z.mul_le_mono_nonneg_r; lia).
    assert (Hp2 : (1079 * w <= oh * w)%Z) by (apply Z.mul_le_mono_nonneg_r; lia).
    split; [lia |]. split; [lia |]. split; [| split; [| split]].
    + intros Hbig. split; [| lia].
      apply Z.lt_le_incl, (cancel_lt h); [lia |].
      assert (1080 * w < w * h)%Z; [| lia].
      rewrite (Z.mul_comm w h). apply Z.mul_lt_mono_pos_r; lia.
    + apply Hreal; assumption.
    + apply Hreal; assumption.
    + lia.
Qed.

End Sizing.

(** ** Facts about the monad *)

Section MonadFacts.
Context {S : Type}.

Lemma bind_Ok {A B} (m : M S A) (k : A -> M S B) s a s1 :
  m s = (Ok a, s1) -> bind m k s = k a s1.
Proof. intros E. unfold bind. rewrite E. reflexivity. Qed.

Lemma bind_Raise {A B} (m : M S A) (k : A -> M S B) s e s1 :
  m s = (Raise e, s1) -> bind m k s = (Raise e, s1).
Proof. intros E. unfold bind. rewrite E. reflexivity. Qed.

Lemma bind_Ok_inv {A B} (m : M S A) (k : A -> M S B) s b s' :
  bind m k s = (Ok b, s') ->
  exists a s1, m s = (Ok a, s1) /\ k a s1 = (Ok b, s').
Proof.
  unfold bind. destruct (m s) as [[a|e] s1]; intros E; [eauto | discriminate].
Qed.

Lemma bind_Raise_inv {A B} (m : M S A) (k : A -> M S B) s e s' :
  bind m k s = (Raise e, s') ->
  m s = (Raise e, s') \/ exists a s1, m s = (Ok a, s1) /\ k a s1 = (Raise e, s').
Proof.
  unfold bind. destruct (m s) as [[a|e0] s1]; intros E; [eauto | left; congruence].
Qed.





Lemma with_local_Raise {L A} (m : M (S * L) A) l0 s e s1 l :
  m (s, l0) = (Raise e, (s1, l)) -> with_local l0 m s = (Raise e, s1).
Proof. intros E. unfold with_local. rewrite E. reflexivity. Qed.

Lemma lift_inv {A} (o : outcome A) (s : S) a s' :
  lift o s = (Ok a, s') -> o = Ok a /\ s' = s.
Proof. unfold lift. intros [= -> ->]. auto. Qed.

End MonadFacts.

(** ** Facts about paths *)

Section PathFacts.

Lemma parent_snoc (p : path) (c : string) : parent (p ++ [c]) = p.
Proof. unfold parent. apply removelast_last. Qed.

Lemma name_snoc (p : path) (c : string) : name (p ++ [c]) = c.
Proof. unfold name. apply last_last. Qed.

Lemma parent_name (p : path) : p <> [] -> p = parent p ++ [name p].
Proof. intros Hp. unfold parent, name. apply app_removelast_last. exact Hp. Qed.

Lemma parent_length (p : path) : p <> [] -> length p = Datatypes.S (length (parent p)).
Proof.
  intros Hp. rewrite (parent_name p Hp) at 1. rewrite length_app. simpl. lia.
Qed.

Lemma with_suffix_shape p suf p' :
  with_suffix p suf = Ok p' ->
  p <> [] /\ name p <> ""%string /\
  exists c, p' = parent p ++ [c] /\
            c = String.append (substring 0 (String.length (name p) - String.length (suffix p)) (name p)) suf.
Proof.
  unfold with_suffix. destruct (invalid_suffix suf); [discriminate |].
  destruct (String.eqb_spec (name p) "") as [E|NE]; [discriminate |].
  intros [= <-]. split; [| split; [exact NE | eauto]].
  intros ->. apply NE. reflexivity.
Qed.

Lemma with_suffix_parent p suf p' :
  with_suffix p suf = Ok p' -> parent p' = parent p /\ p' <> [].
Proof.
  intros Hs. destruct (with_suffix_shape _ _ _ Hs) as (_ & _ & c & -> & _).
  split; [apply parent_snoc | ]. intros E. destruct (parent p); discriminate.
Qed.

End PathFacts.

(** ** Facts about the filesystem calls *)

Section FilesystemFacts.
Context `{Platform}.

Lemma node_at_nonroot (m : fs) (p : path) : p <> [] -> node_at m p = m !! p.
Proof. destruct p; [congruence | reflexivity]. Qed.


Lemma node_at_insert_eq (m : fs) (p : path) x : p <> [] -> node_at (<[p := x]> m) p = Some x.
Proof. intros Hp. rewrite node_at_nonroot by exact Hp. apply lookup_insert_eq. Qed.

(** [mkdir] keeps every node that was there. *)
Lemma mkdir_from_keeps todo : forall (done : path) (m : fs) o m' (p : path) x,
  mkdir_from done todo m = (o, m') -> m !! p = Some x -> m' !! p = Some x.
Proof.
  induction todo as [|c todo IH]; intros done m o m' p x; simpl.
  - intros [= <- <-]. auto.
  - destruct (m !! (done ++ [c])) as [[f|]|] eqn:E.
    + intros [= <- <-]. auto.
    + apply IH.
    + intros Hm Hp. eapply IH; [exact Hm |].
      rewrite lookup_insert_ne; [exact Hp | congruence].
Qed.

(** What [mkdir] adds is a directory on the way. *)
Lemma mkdir_from_new todo : forall (done : path) (m : fs) o m' (p : path) x,
  mkdir_from done todo m = (o, m') -> m' !! p = Some x ->
  m !! p = Some x \/
  (x = NDir /\ exists k, (0 < k <= length todo)%nat /\ p = done ++ take k todo).
Proof.
  induction todo as [|c todo IH]; intros done m o m' p x; simpl.
  - intros [= <- <-]. auto.
  - assert (Hshift : forall k, (0 < k <= length todo)%nat ->
              (done ++ [c]) ++ take k todo = done ++ take (Datatypes.S k) (c :: todo)).
    { intros k _. simpl. rewrite <- app_assoc. reflexivity. }
    destruct (m !! (done ++ [c])) as [[f|]|] eqn:E.
    + intros [= <- <-]. auto.
    + intros Hm Hp. destruct (IH _ _ _ _ _ _ Hm Hp) as [?|[-> (k & Hk & ->)]]; [auto |].
      right. split; [reflexivity |]. exists (Datatypes.S k). split; [lia | auto].
    + intros Hm Hp. destruct (IH _ _ _ _ _ _ Hm Hp) as [Hin|[-> (k & Hk & ->)]].
      * destruct (decide (done ++ [c] = p)) as [<-|Hne].
        -- rewrite lookup_insert_eq in Hin. injection Hin as <-.
           right. split; [reflexivity |]. exists 1%nat. split; [lia |]. reflexivity.
        -- rewrite lookup_insert_ne in Hin by exact Hne. auto.
      * right. split; [reflexivity |]. exists (Datatypes.S k). split; [lia | auto].
Qed.



(** [mkdir] leaves every path alone that is not on the way. *)
Lemma mkdir_parents_other (q : path) (m m0 : fs) o (p : path) :
  mkdir_parents q m = (o, m0) -> ~ p `prefix_of` q -> m0 !! p = m !! p.
Proof.
  intros Hm Hp. destruct (m0 !! p) as [x|] eqn:E0.
  - destruct (mkdir_from_new _ _ _ _ _ _ _ Hm E0) as [Hin|[_ (k & _ & ->)]]; [auto |].
    exfalso. apply Hp. simpl. apply prefix_take.
  - destruct (m !! p) as [x|] eqn:E; [| reflexivity].
    rewrite (mkdir_from_keeps _ _ _ _ _ _ _ Hm E) in E0. discriminate.
Qed.

Lemma mkdir_parents_keeps (q : path) (m m0 : fs) o (p : path) x :
  mkdir_parents q m = (o, m0) -> node_at m p = Some x -> node_at m0 p = Some x.
Proof.
  intros Hm. destruct p; [auto |]. simpl. eapply mkdir_from_keeps. exact Hm.
Qed.

Lemma not_prefix_of_parent (p : path) : p <> [] -> ~ p `prefix_of` parent p.
Proof.
  intros Hp Hpre. apply prefix_length in Hpre.
  rewrite (parent_length p Hp) in Hpre. lia.
Qed.


Lemma write_file_cases (p : path) (f : file) (m : fs) o m' :
  write_file p f m = (o, m') ->
  (o = Ok tt /\ m' = <[p := NFile f]> m /\ open_for_write m p = None) \/
  (exists e, o = Raise e /\ m' = m).
Proof.
  unfold write_file. destruct (open_for_write m p) eqn:E; intros [= <- <-]; eauto.
Qed.


Lemma st_size_file (m : fs) (p : path) (f : file) :
  node_at m p = Some (NFile f) -> st_size p m = (Ok (Z.of_nat (length (f_bytes f))), m).
Proof. intros E. unfold st_size. rewrite E. reflexivity. Qed.

Lemma get_file_size_mb_file (m : fs) (p : path) (f : file) :
  node_at m p = Some (NFile f) -> get_file_size_mb p m = (Ok (size_mb f), m).
Proof.
  intros E. unfold get_file_size_mb.
  rewrite (bind_Ok _ _ _ _ _ (st_size_file _ _ _ E)).
  unfold int_truediv, size_mb. change (Z.sgn (1024 * 1024)) with 1%Z.
  rewrite Z.mul_1_r. reflexivity.
Qed.

(** [get_file_size_mb] never changes the filesystem, and raises only when the
    path is not there. *)
Lemma get_file_size_mb_cases (m : fs) (p : path) o m' :
  get_file_size_mb p m = (o, m') ->
  m' = m /\ ((exists x, o = Ok x) \/ (node_at m p = None /\ o = Raise (missing m p))).
Proof.
  unfold get_file_size_mb, bind, st_size.
  destruct (node_at m p) as [[f|]|] eqn:E; simpl; intros [= <- <-]; eauto.
Qed.


Lemma is_dir_in_root (m : fs) : is_dir_in m [] = true.
Proof. reflexivity. Qed.

End FilesystemFacts.

(** ** Facts about the image steps *)

Section ImageFacts.
Context `{Platform} `{ImageLib}.

Lemma map_outcome_Ok_inv {A B} (f : A -> B) o b :
  map_outcome f o = Ok b -> exists a, o = Ok a /\ b = f a.
Proof. destruct o; simpl; intros [= <-]; eauto. Qed.

(** Mode normalisation keeps the size. *)
Lemma normalise_mode_size (img img' : image pixels) :
  normalise_mode img = Ok img' -> im_size img' = im_size img.
Proof.
  unfold normalise_mode.
  destruct (String.eqb (im_mode img) "RGBA" || String.eqb (im_mode img) "P").
  - unfold Image_new. destruct (lib_new _ _ _) as [bg|e]; simpl; [| discriminate].
    destruct (if String.eqb (im_mode img) "P" then convert img "RGBA" else Ok img)
      as [img1|e]; [| discriminate].
    destruct (if String.eqb (im_mode img1) "RGBA"
              then map_outcome Some (split_last img1) else Ok None) as [mask|e];
      [| discriminate].
    unfold paste. intros Hp. apply map_outcome_Ok_inv in Hp as (px & _ & ->).
    reflexivity.
  - destruct (negb (String.eqb (im_mode img) "RGB")).
    + unfold convert. intros Hc. apply map_outcome_Ok_inv in Hc as (px & _ & ->).
      reflexivity.
    + intros [= <-]. reflexivity.
Qed.

Lemma resize_if_needed_within (img : image pixels) :
  width img <= IMAGE_MAX_WIDTH -> height img <= IMAGE_MAX_HEIGHT ->
  resize_if_needed img = Ok img.
Proof.
  intros Hw Hh. unfold resize_if_needed.
  destruct (Z.ltb_spec IMAGE_MAX_WIDTH (width img)); [lia |].
  destruct (Z.ltb_spec IMAGE_MAX_HEIGHT (height img)); [lia |]. reflexivity.
Qed.

Lemma resize_if_needed_never_grows (img img' : image pixels) :
  0 < width img < max_dimension -> 0 < height img < max_dimension ->
  resize_if_needed img = Ok img' ->
  width img' <= width img /\ height img' <= height img.
Proof.
  intros Hw Hh. unfold resize_if_needed.
  destruct ((IMAGE_MAX_WIDTH <? width img) || (IMAGE_MAX_HEIGHT <? height img)) eqn:E.
  - destruct (new_size_facts _ _ Hw Hh) as (ow & oh & -> & _ & _ & Hle & _).
    unfold resize. intros Hr. apply map_outcome_Ok_inv in Hr as (px & _ & ->).
    unfold width, height. simpl. apply Hle.
    apply orb_true_iff in E. rewrite !Z.ltb_lt in E. exact E.
  - intros [= <-]. lia.
Qed.

Lemma Image_save_Ok_inv (img : image pixels) (p : path) (format : option string) (quality : Z) (extra : save_param) (m m' : fs) :
  Image_save img p format quality extra m = (Ok tt, m') ->
  exists b, lib_encode img format (suffix p) quality extra = Encoded b /\
            m' = <[p := NFile (File b new_file_meta)]> m /\
            open_for_write m p = None.
Proof.
  unfold Image_save. destruct (lib_encode _ _ _ _ _) as [b|e|e leftover].
  - intros Hw. apply write_file_cases in Hw as [(_ & -> & Ho)|(e & ? & _)];
      [eauto | discriminate].
  - discriminate.
  - destruct (write_file _ _ _) as [[[]|e'] m1]; discriminate.
Qed.


Lemma Image_open_state (p : path) (m m' : fs) o :
  Image_open p m = (o, m') -> m' = m.
Proof.
  unfold Image_open. destruct (node_at m p) as [[f|]|]; intros [= <- <-]; reflexivity.
Qed.

(** What a successful [with] block did. *)
Lemma open_and_save_Ok_inv (src dst final : path) (osz : Z * Z) (img' : image pixels) (m m' : fs) :
  open_and_save src dst m = (Ok (final, osz, img'), m') ->
  exists f img0 img1 b,
    node_at m src = Some (NFile f) /\
    lib_open (f_bytes f) = Ok img0 /\
    normalise_mode img0 = Ok img1 /\
    osz = im_size img1 /\
    resize_if_needed img1 = Ok img' /\
    with_suffix dst ".webp" = Ok final /\
    lib_encode img' (Some "WEBP"%string) (suffix final) IMAGE_QUALITY (Method 6) = Encoded b /\
    m' = <[final := NFile (File b new_file_meta)]> m /\
    open_for_write m final = None.
Proof.
  unfold open_and_save. intros Hrun.
  apply bind_Ok_inv in Hrun as (img0 & m1 & Hopen & Hrun).
  pose proof (Image_open_state _ _ _ _ Hopen) as ->.
  apply bind_Ok_inv in Hrun as (img1 & m1 & Hnorm & Hrun).
  apply lift_inv in Hnorm as [Hnorm ->].
  apply bind_Ok_inv in Hrun as (img2 & m1 & Hres & Hrun).
  apply lift_inv in Hres as [Hres ->].
  change CONVERT_TO_WEBP with true in Hrun. cbv iota in Hrun.
  apply bind_Ok_inv in Hrun as (final' & m1 & Hsuf & Hrun).
  apply lift_inv in Hsuf as [Hsuf ->].
  apply bind_Ok_inv in Hrun as ([] & m1 & Hsave & Hrun).
  injection Hrun as <- <- <- <-.
  apply Image_save_Ok_inv in Hsave as (b & Henc & -> & Ho).
  unfold Image_open in Hopen.
  destruct (node_at m src) as [[f|]|] eqn:Hsrc; try discriminate.
  injection Hopen as Hopen.
  exists f, img0, img1, b. repeat split; auto.
Qed.


End ImageFacts.

(** ** Facts about suffixes *)

Section SuffixFacts.
Local Open Scope nat_scope.

Lemma substring_0_all (s : string) : substring 0 (String.length s) s = s.
Proof. induction s as [|c s IH]; simpl; [reflexivity | rewrite IH; reflexivity]. Qed.

Lemma substring_split (s : string) : forall i,
  i <= String.length s ->
  s = String.append (substring 0 i s) (substring i (String.length s - i) s).
Proof.
  induction s as [|c s IH]; intros [|i] Hi; simpl in *; try lia.
  - reflexivity.
  - rewrite substring_0_all. reflexivity.
  - rewrite (IH i) at 1 by lia. reflexivity.
Qed.

Lemma substring_length_prefix (s : string) : forall i,
  i <= String.length s -> String.length (substring 0 i s) = i.
Proof.
  induction s as [|c s IH]; intros [|i] Hi; simpl in *; try lia.
  rewrite IH by lia. reflexivity.
Qed.

Lemma substring_length_tail (s : string) : forall i,
  i <= String.length s ->
  String.length (substring i (String.length s - i) s) = String.length s - i.
Proof.
  induction s as [|c s IH]; intros [|i] Hi; simpl in *; try lia.
  - rewrite substring_0_all. reflexivity.
  - apply IH. lia.
Qed.

Lemma substring_skip (s t : string) : forall n,
  substring (String.length s) n (String.append s t) = substring 0 n t.
Proof. induction s as [|c s IH]; intros n; simpl; [reflexivity | apply IH]. Qed.

Lemma append_length (s t : string) :
  String.length (String.append s t) = String.length s + String.length t.
Proof. induction s as [|c s IH]; simpl; [reflexivity | rewrite IH; reflexivity]. Qed.

Lemma rfind_none c (t : string) : has_char c t = false -> rfind c t = None.
Proof.
  induction t as [|a t IH]; simpl; [reflexivity |].
  intros Hn. apply orb_false_iff in Hn as [Ha Ht]. rewrite IH, Ha by exact Ht.
  reflexivity.
Qed.

Lemma rfind_last c (s t : string) :
  has_char c t = false ->
  rfind c (String.append s (String c t)) = Some (String.length s).
Proof.
  intros Ht. induction s as [|a s IH]; simpl.
  - rewrite rfind_none by exact Ht. rewrite Ascii.eqb_refl. reflexivity.
  - rewrite IH. reflexivity.
Qed.

Lemma rfind_bound c (s : string) i : rfind c s = Some i -> i < String.length s.
Proof.
  revert i. induction s as [|a s IH]; simpl; intros i; [discriminate |].
  destruct (rfind c s) as [j|].
  - intros [= <-]. specialize (IH j eq_refl). lia.
  - destruct (Ascii.eqb a c); [intros [= <-]; lia | discriminate].
Qed.

(** A name that ends in [.webp] after a non-empty stem has that suffix. *)
Lemma suffix_of_webp_name (d : path) (stem : string) :
  stem <> ""%string -> suffix (d ++ [String.append stem ".webp"]) = ".webp"%string.
Proof.
  intros Hstem. unfold suffix. rewrite name_snoc.
  change ".webp"%string with (String "." "webp").
  rewrite rfind_last by reflexivity.
  rewrite append_length.
  assert (0 < String.length stem) by (destruct stem; [congruence | simpl; lia]).
  replace (0 <? String.length stem) with true by (symmetry; apply Nat.ltb_lt; lia).
  replace (String.length stem <? String.length stem + String.length (String "." "webp") - 1)
    with true by (symmetry; apply Nat.ltb_lt; simpl; lia).
  simpl andb. cbv iota.
  replace (String.length stem + String.length (String "." "webp") - String.length stem)
    with (String.length (String "." "webp")) by lia.
  rewrite substring_skip. apply substring_0_all.
Qed.

(** The name of a path is its stem followed by its suffix, and the stem of a
    non-empty name is not empty. *)
Lemma stem_and_suffix (p : path) :
  let nm := name p in
  let stem := substring 0 (String.length nm - String.length (suffix p)) nm in
  nm = String.append stem (suffix p) /\ (nm <> ""%string -> stem <> ""%string).
Proof.
  unfold suffix. set (nm := name p).
  assert (Hempty : nm = String.append (substring 0 (String.length nm - 0) nm) "" /\
                   (nm <> ""%string -> substring 0 (String.length nm - 0) nm <> ""%string)).
  { rewrite Nat.sub_0_r, substring_0_all. split; [| auto].
    clear. induction nm as [|c s IH]; [reflexivity |].
    change (String c s = String c (String.append s "")). rewrite <- IH. reflexivity. }
  destruct (rfind "." nm) as [i|] eqn:E; [| exact Hempty].
  destruct ((0 <? i) && (i <? String.length nm - 1)) eqn:Hi; [| exact Hempty].
  apply andb_true_iff in Hi as [H0 H1]. apply Nat.ltb_lt in H0, H1.
  simpl. rewrite substring_length_tail by lia.
  replace (String.length nm - (String.length nm - i)) with i by lia.
  split; [apply substring_split; lia |].
  intros _ Hs. pose proof (substring_length_prefix nm i ltac:(lia)) as Hl.
  rewrite Hs in Hl. simpl in Hl. lia.
Qed.

(** [with_suffix(".webp")] gives a path with the suffix [.webp], in the same
    directory; it is the path itself exactly when the suffix was [.webp]
    already. *)
Lemma with_suffix_webp (p p' : path) :
  with_suffix p ".webp" = Ok p' ->
  suffix p' = ".webp"%string /\ parent p' = parent p /\
  (p' = p <-> suffix p = ".webp"%string).
Proof.
  intros Hs. destruct (with_suffix_shape _ _ _ Hs) as (Hp & Hnm & c & -> & ->).
  destruct (stem_and_suffix p) as [Hsplit Hstem]. specialize (Hstem Hnm).
  set (stem := substring 0 (String.length (name p) - String.length (suffix p)) (name p)) in *.
  split; [apply suffix_of_webp_name; exact Hstem |].
  split; [apply parent_snoc |].
  split.
  - intros E. rewrite <- E. apply suffix_of_webp_name. exact Hstem.
  - intros E. rewrite E in Hsplit. rewrite <- Hsplit.
    symmetry. apply parent_name. exact Hp.
Qed.

End SuffixFacts.

(** ** Characters of a text *)

Section TextFacts.






End TextFacts.

(** ** Facts about the fallback copy and [optimize_image] *)

Section OptimizeFacts.
Context `{Platform} `{ImageLib}.


(** The fallback never sets [success], and never touches [output]. *)
Lemma fallback_keeps (src dst : path) (err : string) (m m' : fs) (r r' : result) :
  fallback src dst err (m, r) = (Ok tt, (m', r')) ->
  success r' = success r /\ output r' = output r /\ error r' = Some err.
Proof.
  unfold fallback, bind, set_local, on_fst.
  destruct (copy2 src dst m) as [[[]|e] m1]; [| discriminate].
  destruct (get_file_size_mb dst m1) as [[x|e] m2]; [| discriminate].
  intros [= <- <-]. auto.
Qed.







(** [optimize_image] with the handler folded into [fallback]. *)
Lemma Media_optimize_image_unfold (src dst : path) :
  Media.optimize_image src dst =
  (let* orig := get_file_size_mb src in
   let* '(_, result) :=
     with_local (new_result src dst orig)
       (try_except
          (let* '(final_output, original_size, img) :=
             on_fst (transcode_image src dst) in
           set_local (set_output final_output) >>
           let* opt := on_fst (get_file_size_mb final_output) in
           set_local (set_optimized_size_mb opt) >>
           let* red := reduction opt orig in
           set_local (set_reduction_percent red) >>
           set_local (set_success true) >>
           set_local (set_resized (negb (size_eqb original_size (im_size img)))))
          (fun e => fallback src dst (exn_str e)))
   in ret result)%monad.
Proof. reflexivity. Qed.

Lemma Productos_optimize_image_unfold (src dst : path) :
  Productos.optimize_image src dst =
  (let* orig := get_file_size_mb src in
   let* '(_, result) :=
     with_local (new_result src dst orig)
       (try_except
          (let* '(final_output, original_size, img) :=
             on_fst (transcode_image src dst) in
           set_local (set_output final_output) >>
           let* opt := on_fst (get_file_size_mb final_output) in
           set_local (set_optimized_size_mb opt) >>
           let* red := reduction opt orig in
           set_local (set_reduction_percent red) >>
           set_local (set_success true))
          (fun e => fallback src dst (exn_str e)))
   in ret result)%monad.
Proof. reflexivity. Qed.

(** Walk through the body of [optimize_image] in a hypothesis [Hrun] that
    says what the call came to. *)
Ltac walk_optimize_image Hrun src dst m :=
  unfold bind, with_local, try_except, on_fst, set_local, reduction, ret, raise in Hrun;
  let orig := fresh "orig" in let m0 := fresh "m0" in let E0 := fresh "E0" in
  destruct (get_file_size_mb src m) as [[orig|?] m0] eqn:E0; [| discriminate Hrun];
  apply get_file_size_mb_cases in E0 as [-> _];
  let final := fresh "final" in let osz := fresh "osz" in let img' := fresh "img'" in
  let m1 := fresh "m1" in let E1 := fresh "E1" in
  destruct (transcode_image src dst m) as [[[[final osz] img']|?] m1] eqn:E1;
  [ let opt := fresh "opt" in let m2 := fresh "m2" in let E2 := fresh "E2" in
    destruct (get_file_size_mb final m1) as [[opt|?] m2] eqn:E2;
    apply get_file_size_mb_cases in E2 as [-> E2];
    [ let q := fresh "q" in destruct (Fdiv opt orig) as [q|] | ]
  | ].

(** A result with [success] set comes from a [try] body that ran to its
    end: the transcode returned, and [output] is its [final_output]. *)
Lemma Media_optimize_image_success (src dst : path) (m m' : fs) (r : result) :
  Media.optimize_image src dst m = (Ok r, m') -> success r = true ->
  exists final osz img',
    transcode_image src dst m = (Ok (final, osz, img'), m') /\ output r = final.
Proof.
  rewrite Media_optimize_image_unfold. intros Hrun Hs.
  walk_optimize_image Hrun src dst m.
  - injection Hrun as <- <-. eauto.
  - destruct (fallback _ _ _ _) as [[[]|?] [m3 r3]] eqn:Ef; [| discriminate].
    apply fallback_keeps in Ef as (Hsucc & _). injection Hrun as <- <-.
    rewrite Hsucc in Hs. discriminate.
  - destruct (fallback _ _ _ _) as [[[]|?] [m3 r3]] eqn:Ef; [| discriminate].
    apply fallback_keeps in Ef as (Hsucc & _). injection Hrun as <- <-.
    rewrite Hsucc in Hs. discriminate.
  - destruct (fallback _ _ _ _) as [[[]|?] [m3 r3]] eqn:Ef; [| discriminate].
    apply fallback_keeps in Ef as (Hsucc & _). injection Hrun as <- <-.
    rewrite Hsucc in Hs. discriminate.
Qed.

Lemma Productos_optimize_image_success (src dst : path) (m m' : fs) (r : result) :
  Productos.optimize_image src dst m = (Ok r, m') -> success r = true ->
  exists final osz img',
    transcode_image src dst m = (Ok (final, osz, img'), m') /\ output r = final.
Proof.
  rewrite Productos_optimize_image_unfold. intros Hrun Hs.
  walk_optimize_image Hrun src dst m.
  - injection Hrun as <- <-. eauto.
  - destruct (fallback _ _ _ _) as [[[]|?] [m3 r3]] eqn:Ef; [| discriminate].
    apply fallback_keeps in Ef as (Hsucc & _). injection Hrun as <- <-.
    rewrite Hsucc in Hs. discriminate.
  - destruct (fallback _ _ _ _) as [[[]|?] [m3 r3]] eqn:Ef; [| discriminate].
    apply fallback_keeps in Ef as (Hsucc & _). injection Hrun as <- <-.
    rewrite Hsucc in Hs. discriminate.
  - destruct (fallback _ _ _ _) as [[[]|?] [m3 r3]] eqn:Ef; [| discriminate].
    apply fallback_keeps in Ef as (Hsucc & _). injection Hrun as <- <-.
    rewrite Hsucc in Hs. discriminate.
Qed.





End OptimizeFacts.

(** ** Facts about the two [main] procedures *)

Section MainFacts.
Context `{Platform} `{ImageLib} `{Subprocess}.

Lemma print_eq (l : line) (w : world) :
  print l w = (Ok tt, World (w_fs w) (w_out w ++ [l])).
Proof. reflexivity. Qed.

Lemma in_fs_eq {A} (c : M fs A) (w : world) (o : outcome A) (m' : fs) :
  c (w_fs w) = (o, m') -> in_fs c w = (o, World m' (w_out w)).
Proof. intros E. unfold in_fs. rewrite E. reflexivity. Qed.

Lemma in_fs_inv {A} (c : M fs A) (w w' : world) o :
  in_fs c w = (o, w') -> c (w_fs w) = (o, w_fs w') /\ w_out w' = w_out w.
Proof.
  unfold in_fs. destruct (c (w_fs w)) as [o' m']. intros [= <- <-]. auto.
Qed.

Lemma filter_m_is_file (l : list path) (m : fs) :
  filter_m is_file l m = (Ok (List.filter (is_file_in m) l), m).
Proof.
  induction l as [|p l IH]; [reflexivity |].
  simpl. unfold bind at 1. unfold is_file at 1. unfold bind at 1. rewrite IH.
  reflexivity.
Qed.

Lemma filter_m_is_image_file (l : list path) (m : fs) :
  filter_m Productos.is_image_file l m
  = (Ok (List.filter (fun f => is_file_in m f && is_image f) l), m).
Proof.
  induction l as [|p l IH]; [reflexivity |].
  simpl. unfold bind at 1. unfold Productos.is_image_file at 1.
  unfold bind at 1. unfold is_file at 1. unfold ret at 1.
  unfold bind at 1. rewrite IH. reflexivity.
Qed.

Lemma count_result_inv {S} (r : result) (c c' : cat_stats) (s s' : S) :
  count_result r c s = (Ok c', s') -> s' = s.
Proof.
  unfold count_result, getitem, bind, ret, raise.
  destruct (optimized_size_mb r); intros [= <- <-]; reflexivity.
Qed.

(** [report_result] prints one result line or raises. *)
Lemma report_result_inv (r : result) (c c' : cat_stats) (w w' : world) :
  report_result r c w = (Ok c', w') ->
  exists l, w' = World (w_fs w) (w_out w ++ [l]) /\ result_line l.
Proof.
  unfold report_result, getitem, bind, ret, raise, print, modify, result_line.
  destruct (success r).
  - destruct (optimized_size_mb r); [| discriminate].
    destruct (reduction_percent r); [| discriminate].
    intros [= <- <-]. eauto 10.
  - intros [= <- <-]. eauto 10.
Qed.

(** The loop body of the media pipeline prints the progress line and one
    outcome line. *)
Lemma Media_process_file_inv (n i : nat) (f : path) (st st' : Media.stats) (w w' : world) :
  Media.process_file n (i, f) st w = (Ok st', w') ->
  exists rel l,
    relative_to f Media.SOURCE_DIR = Ok rel /\
    w_out w' = w_out w ++ [LProgress i n rel; l] /\
    outcome_line (is_media f) l.
Proof.
  unfold Media.process_file. intros Hrun.
  apply bind_Ok_inv in Hrun as (rel & w1 & Hrel & Hrun).
  apply lift_inv in Hrel as [Hrel ->].
  apply bind_Ok_inv in Hrun as ([] & w1 & Hp & Hrun).
  rewrite print_eq in Hp. injection Hp as <-.
  exists rel. unfold is_media, outcome_line.
  destruct (bool_decide (suffix f ∈ IMAGE_EXTENSIONS)).
  - apply bind_Ok_inv in Hrun as (r & w2 & Hopt & Hrun).
    apply in_fs_inv in Hopt as [_ Hout].
    apply bind_Ok_inv in Hrun as (c & w3 & Hc & Hrun).
    apply count_result_inv in Hc as ->.
    apply bind_Ok_inv in Hrun as (c' & w4 & Hr & Hrun).
    apply report_result_inv in Hr as (l & -> & Hl).
    injection Hrun as <- <-. exists l. simpl. rewrite Hout. simpl.
    rewrite <- app_assoc. auto.
  - destruct (bool_decide (suffix f ∈ Media.VIDEO_EXTENSIONS)).
    + apply bind_Ok_inv in Hrun as (r & w2 & Hopt & Hrun).
      apply in_fs_inv in Hopt as [_ Hout].
      apply bind_Ok_inv in Hrun as (c & w3 & Hc & Hrun).
      apply count_result_inv in Hc as ->.
      apply bind_Ok_inv in Hrun as (c' & w4 & Hr & Hrun).
      apply report_result_inv in Hr as (l & -> & Hl).
      injection Hrun as <- <-. exists l. simpl. rewrite Hout. simpl.
      rewrite <- app_assoc. auto.
    + apply bind_Ok_inv in Hrun as ([] & w2 & Hmk & Hrun).
      apply in_fs_inv in Hmk as [_ Hout2].
      apply bind_Ok_inv in Hrun as ([] & w3 & Hcp & Hrun).
      apply in_fs_inv in Hcp as [_ Hout3].
      apply bind_Ok_inv in Hrun as ([] & w4 & Hp & Hrun).
      rewrite print_eq in Hp. injection Hp as <-.
      injection Hrun as <- <-. exists LCopied. simpl.
      rewrite Hout3, Hout2. simpl. rewrite <- app_assoc. auto.
Qed.

(** The loop body of the product pipeline prints the progress line and one
    result line. *)
Lemma Productos_process_file_inv (n i : nat) (f : path) (st st' : cat_stats) (w w' : world) :
  Productos.process_file n (i, f) st w = (Ok st', w') ->
  exists rel l,
    relative_to f Productos.SOURCE_DIR = Ok rel /\
    w_out w' = w_out w ++ [LProgress i n rel; l] /\
    result_line l.
Proof.
  unfold Productos.process_file. intros Hrun.
  apply bind_Ok_inv in Hrun as (rel & w1 & Hrel & Hrun).
  apply lift_inv in Hrel as [Hrel ->].
  apply bind_Ok_inv in Hrun as ([] & w1 & Hp & Hrun).
  rewrite print_eq in Hp. injection Hp as <-.
  apply bind_Ok_inv in Hrun as (r & w2 & Hopt & Hrun).
  apply in_fs_inv in Hopt as [_ Hout].
  apply bind_Ok_inv in Hrun as (c & w3 & Hc & Hrun).
  apply count_result_inv in Hc as ->.
  apply report_result_inv in Hrun as (l & -> & Hl).
  exists rel, l. simpl. rewrite Hout. simpl. rewrite <- app_assoc. auto.
Qed.

(** A loop that returns has printed, for every file in turn, its two
    lines. *)
Lemma for_each_file_lines {St} (root : path) (transcoded : path -> bool) (n : nat)
    (body : nat * path -> St -> M world St) :
  (forall i f st st' w w',
      body (i, f) st w = (Ok st', w') ->
      exists rel l, relative_to f root = Ok rel /\
                    w_out w' = w_out w ++ [LProgress i n rel; l] /\
                    outcome_line (transcoded f) l) ->
  forall files i st st' w w',
    for_each (combine (seq i (length files)) files) body st w = (Ok st', w') ->
    exists ls, w_out w' = w_out w ++ ls /\ file_lines root transcoded n i files ls.
Proof.
  intros Hbody. induction files as [|f files IH]; intros i st st' w w'; simpl.
  - intros [= <- <-]. exists []. split; [rewrite app_nil_r; reflexivity | constructor].
  - intros Hrun. apply bind_Ok_inv in Hrun as (st1 & w1 & Hstep & Hrun).
    apply Hbody in Hstep as (rel & l & Hrel & Hout & Hl).
    apply IH in Hrun as (ls & Hout' & Hls).
    exists (LProgress i n rel :: l :: ls). split.
    + rewrite Hout', Hout, <- app_assoc. reflexivity.
    + econstructor; eassumption.
Qed.


(** The guarded division of the summaries goes through. *)
Lemma reduction_guarded {S} (a b : float) (s : S) :
  Fpos b = true -> exists x, reduction a b s = (Ok x, s).
Proof.
  unfold Fpos, reduction, Fdiv. intros Hb. apply Z.ltb_lt in Hb.
  destruct (Z.eqb_spec (Fnum b) 0) as [E|_]; [lia |]. eexists. reflexivity.
Qed.

Lemma Media_print_category_total (category : string) (data : cat_stats) (w : world) :
  exists ls, Media.print_category category data w
             = (Ok tt, World (w_fs w) (w_out w ++ ls)).
Proof.
  unfold Media.print_category. destruct (0 <? processed data).
  - rewrite !(bind_Ok _ _ _ _ _ (print_eq _ _)). simpl.
    set (w4 := World _ _).
    assert (Hred : exists ls,
               (if Fpos (original_size data)
                then let* red := reduction (optimized_size data) (original_size data)
                     in print (LReduction red)
                else ret tt)%monad w4 = (Ok tt, World (w_fs w4) (w_out w4 ++ ls))).
    { destruct (Fpos (original_size data)) eqn:Hp.
      - destruct (reduction_guarded (optimized_size data) _ w4 Hp) as (x & Hx).
        rewrite (bind_Ok _ _ _ _ _ Hx). exists [LReduction x]. reflexivity.
      - exists []. rewrite app_nil_r. destruct w4; reflexivity. }
    destruct Hred as (ls & Hred). rewrite (bind_Ok _ _ _ _ _ Hred).
    destruct (0 <? errors data).
    + rewrite print_eq. subst w4. simpl. eexists.
      rewrite <- !app_assoc. reflexivity.
    + unfold ret. subst w4. simpl. eexists. rewrite <- !app_assoc. reflexivity.
  - exists []. rewrite app_nil_r. destruct w; reflexivity.
Qed.

(** The summary of the media pipeline is printed whatever the statistics. *)
Lemma Media_print_summary_total (st : Media.stats) (w : world) :
  exists tail, Media.print_summary st w
               = (Ok tt, World (w_fs w) (w_out w ++ LSummaryTitle :: tail)).
Proof.
  unfold Media.print_summary.
  rewrite (bind_Ok _ _ _ _ _ (print_eq _ _)).
  destruct (Media_print_category_total "images" (Media.images st)
              (World (w_fs w) (w_out w ++ [LSummaryTitle]))) as (l1 & Hc1).
  rewrite (bind_Ok _ _ _ _ _ Hc1). simpl w_fs. simpl w_out.
  destruct (Media_print_category_total "videos" (Media.videos st)
              (World (w_fs w) ((w_out w ++ [LSummaryTitle]) ++ l1))) as (l2 & Hc2).
  rewrite (bind_Ok _ _ _ _ _ Hc2). simpl w_fs. simpl w_out.
  rewrite !(bind_Ok _ _ _ _ _ (print_eq _ _)). simpl w_fs. simpl w_out.
  set (w5 := World _ _).
  set (total_original := Fadd (Fadd zero _) _).
  set (total_optimized := Fadd (Fadd zero _) _).
  assert (Hsav : exists ls,
             (if Fpos total_original
              then let* pct := reduction total_optimized total_original
                   in print (LSavings (Fsub total_original total_optimized) pct)
              else ret tt)%monad w5 = (Ok tt, World (w_fs w5) (w_out w5 ++ ls))).
  { destruct (Fpos total_original) eqn:Hp.
    - destruct (reduction_guarded total_optimized _ w5 Hp) as (x & Hx).
      rewrite (bind_Ok _ _ _ _ _ Hx). eexists [_]. reflexivity.
    - exists []. rewrite app_nil_r. destruct w5; reflexivity. }
  destruct Hsav as (ls & Hsav). rewrite (bind_Ok _ _ _ _ _ Hsav).
  rewrite !(bind_Ok _ _ _ _ _ (print_eq _ _)). rewrite print_eq.
  subst w5. simpl. eexists. rewrite <- !app_assoc. simpl. reflexivity.
Qed.

(** The summary of the product pipeline is printed whatever the
    statistics. *)
Lemma Productos_print_summary_total (st : cat_stats) (w : world) :
  exists tail, Productos.print_summary st w
               = (Ok tt, World (w_fs w) (w_out w ++ LSummaryTitle :: tail)).
Proof.
  unfold Productos.print_summary.
  rewrite !(bind_Ok _ _ _ _ _ (print_eq _ _)). simpl w_fs. simpl w_out.
  set (w5 := World _ _).
  assert (Hred : exists ls,
             (if Fpos (original_size st)
              then let* red := reduction (optimized_size st) (original_size st)
                   in print (LReduction red)
              else ret tt)%monad w5 = (Ok tt, World (w_fs w5) (w_out w5 ++ ls))).
  { destruct (Fpos (original_size st)) eqn:Hp.
    - destruct (reduction_guarded (optimized_size st) _ w5 Hp) as (x & Hx).
      rewrite (bind_Ok _ _ _ _ _ Hx). eexists [_]. reflexivity.
    - exists []. rewrite app_nil_r. destruct w5; reflexivity. }
  destruct Hred as (ls & Hred). rewrite (bind_Ok _ _ _ _ _ Hred).
  assert (Herr : exists ls',
             (if 0 <? errors st then print (LErrors (errors st)) else ret tt)
               (World (w_fs w5) (w_out w5 ++ ls))
             = (Ok tt, World (w_fs w5) ((w_out w5 ++ ls) ++ ls'))).
  { destruct (0 <? errors st).
    - eexists [_]. reflexivity.
    - exists []. rewrite app_nil_r. reflexivity. }
  destruct Herr as (ls' & Herr). rewrite (bind_Ok _ _ _ _ _ Herr).
  rewrite !(bind_Ok _ _ _ _ _ (print_eq _ _)). rewrite print_eq.
  subst w5. simpl. eexists. rewrite <- !app_assoc. simpl. reflexivity.
Qed.


Lemma relative_to_inv (p root rel : path) :
  relative_to p root = Ok rel -> p = root ++ rel.
Proof.
  unfold relative_to. case_bool_decide as Hpre; [| discriminate].
  intros [= <-]. destruct Hpre as [k ->]. rewrite drop_app_length. reflexivity.
Qed.

Lemma forallb_agree {A} (f g : A -> bool) (l : list A) :
  (forall x, In x l -> f x = g x) -> forallb f l = forallb g l.
Proof.
  induction l as [|x l IH]; intros Hfg; [reflexivity |].
  simpl. rewrite (Hfg x) by (left; reflexivity).
  rewrite IH by (intros y Hy; apply Hfg; right; exact Hy). reflexivity.
Qed.

(** Nothing at or below one directory is on the way to a sibling of it. *)
Lemma sibling_not_on_the_way (d : path) (a b : string) (q : path) :
  a <> b -> (d ++ [a]) `prefix_of` q -> ~ q `prefix_of` (d ++ [b]).
Proof.
  intros Hab [k ->] [k' Hk'].
  rewrite <- !app_assoc in Hk'. apply app_inv_head in Hk'.
  simpl in Hk'. injection Hk' as Hb _. congruence.
Qed.

(** Making the output directory changes nothing at or below the source
    directory, so the same files are listed before and after. *)
Lemma mkdir_sibling_keeps (d : path) (a b : string) (m m0 : fs) (o : outcome unit) :
  a <> b -> mkdir_parents (d ++ [b]) m = (o, m0) ->
  forall p, walkable m0 (d ++ [a]) p = walkable m (d ++ [a]) p /\
            (walkable m (d ++ [a]) p = true -> is_file_in m0 p = is_file_in m p).
Proof.
  intros Hab Hmk p.
  assert (Hsame : forall q, (d ++ [a]) `prefix_of` q -> node_at m0 q = node_at m q).
  { intros q Hq. destruct q as [|c q]; [reflexivity |]. simpl.
    eapply mkdir_parents_other; [exact Hmk |].
    eapply sibling_not_on_the_way; eassumption. }
  unfold walkable. case_bool_decide as Hpre; [| split; [reflexivity | discriminate]].
  simpl. destruct (length (d ++ [a]) <? length p)%nat eqn:Hlen;
    [| split; [reflexivity | discriminate]].
  simpl. split.
  - apply forallb_agree. intros k Hk. apply in_seq in Hk.
    unfold is_dir_in. rewrite Hsame; [reflexivity |].
    destruct Hpre as [t ->]. rewrite take_app_ge by lia. apply prefix_app_r. reflexivity.
  - intros _. unfold is_file_in. rewrite Hsame by exact Hpre. reflexivity.
Qed.

Lemma enumerated_NoDup (m : fs) (root : path) : NoDup (enumerated m root).
Proof.
  unfold enumerated. apply NoDup_ListNoDup, List.NoDup_filter, NoDup_ListNoDup.
  apply NoDup_fst_map_to_list.
Qed.

Lemma elem_of_enumerated_file (m : fs) (root p : path) :
  (p ∈ enumerated m root /\ is_file_in m p = true) <->
  (walkable m root p = true /\ is_file_in m p = true).
Proof.
  unfold enumerated. rewrite list_elem_of_In, filter_In. split.
  - intros [[_ Hw] Hf]. auto.
  - intros [Hw Hf]. split; [| exact Hf]. split; [| exact Hw].
    unfold is_file_in, node_at in Hf. destruct p as [|c p]; [discriminate |].
    destruct (m !! (c :: p)) as [x|] eqn:E; [| discriminate].
    apply list_elem_of_In, list_elem_of_fmap. exists (c :: p, x). split; [reflexivity |].
    apply elem_of_map_to_list. exact E.
Qed.


(** The files a pipeline runs over, listed after the output directory [d/b]
    was made, are the regular files below the source directory [d/a] of the
    filesystem as it was, narrowed by [extra]. *)
Lemma listed_files_spec (d : path) (a b : string) (m m0 : fs) (o : outcome unit)
    (extra : path -> bool) (p : path) :
  a <> b -> mkdir_parents (d ++ [b]) m = (o, m0) ->
  p ∈ List.filter (fun f => is_file_in m0 f && extra f) (enumerated m0 (d ++ [a])) <->
  walkable m (d ++ [a]) p = true /\ is_file_in m p = true /\ extra p = true.
Proof.
  intros Hab Hmk.
  destruct (mkdir_sibling_keeps d a b m m0 o Hab Hmk p) as [Hw Hf].
  rewrite list_elem_of_In, filter_In, andb_true_iff, <- list_elem_of_In.
  split.
  - intros [Hin [Hfile Hextra]].
    destruct (proj1 (elem_of_enumerated_file m0 _ p) (conj Hin Hfile)) as [Hw0 _].
    rewrite Hw in Hw0. rewrite (Hf Hw0) in Hfile. auto.
  - intros (Hwm & Hfile & Hextra).
    rewrite <- (Hf Hwm) in Hfile. rewrite <- Hw in Hwm.
    destruct (proj2 (elem_of_enumerated_file m0 _ p) (conj Hwm Hfile)) as [Hin _].
    auto.
Qed.

Lemma regular_files_alt (m : fs) (root : path) :
  regular_files m root
  = List.filter (fun f => is_file_in m f && true) (enumerated m root).
Proof.
  unfold regular_files. apply List.filter_ext. intros p. rewrite andb_true_r. reflexivity.
Qed.

Lemma filter_NoDup (keep : path -> bool) (l : list path) :
  NoDup l -> NoDup (List.filter keep l).
Proof. rewrite !NoDup_ListNoDup. apply List.NoDup_filter. Qed.

End MainFacts.

(** ** What the loops did, file by file *)

Section RunFacts.
Context `{Platform} `{ImageLib} `{Subprocess}.

(** A [copy2] that returns has written the content and metadata of the
    source, a regular file, at the destination or inside it. *)
Lemma copy2_Ok_inv (src dst : path) (m m' : fs) :
  copy2 src dst m = (Ok tt, m') ->
  exists f, node_at m src = Some (NFile f) /\
            m' = <[(if is_dir_in m dst then dst ++ [name src] else dst) := NFile f]> m.
Proof.
  unfold copy2. set (t := if is_dir_in m dst then dst ++ [name src] else dst).
  destruct (bool_decide (src = t)); [discriminate |].
  destruct (node_at m src) as [[f|]|]; [| discriminate | discriminate].
  intros Hw. apply write_file_cases in Hw as [(_ & -> & _)|(e & ? & _)]; [| discriminate].
  exists f. auto.
Qed.

Lemma mkdir_keeps_the_kind_of (dst : path) (m m1 : fs) o :
  dst <> [] -> mkdir_parents (parent dst) m = (o, m1) ->
  is_dir_in m1 dst = is_dir_in m dst.
Proof.
  intros Hdst Hmk. unfold is_dir_in. rewrite !node_at_nonroot by exact Hdst.
  rewrite (mkdir_parents_other _ _ _ _ _ Hmk (not_prefix_of_parent dst Hdst)).
  reflexivity.
Qed.

Lemma file_before_mkdir (q src : path) (m m1 : fs) o (f : file) :
  mkdir_parents q m = (o, m1) -> node_at m1 src = Some (NFile f) ->
  node_at m src = Some (NFile f).
Proof.
  intros Hmk Hsrc. destruct src as [|c src]; [discriminate |].
  rewrite node_at_nonroot in * by discriminate.
  destruct (mkdir_from_new _ _ _ _ _ _ _ Hmk Hsrc) as [Hin|[Hd _]];
    [exact Hin | discriminate].
Qed.

(** [mkdir] of the parent and [copy2], both returning, are a verbatim copy. *)
Lemma copy_step (src dst : path) (m m1 m' : fs) :
  dst <> [] ->
  mkdir_parents (parent dst) m = (Ok tt, m1) ->
  copy2 src dst m1 = (Ok tt, m') ->
  copied_verbatim src dst m m'.
Proof.
  intros Hdst Hmk Hcp. apply copy2_Ok_inv in Hcp as (f & Hsrc & ->).
  exists f, m1. split; [exact Hmk |].
  split; [eapply file_before_mkdir; eassumption |].
  rewrite (mkdir_keeps_the_kind_of dst m m1 _ Hdst Hmk). reflexivity.
Qed.

(** [report_result] prints the line of the result or raises. *)
Lemma report_result_action (r : result) (c c' : cat_stats) (w w' : world) :
  report_result r c w = (Ok c', w') ->
  exists l, w' = World (w_fs w) (w_out w ++ [l]) /\ action_line (Converted r) l.
Proof.
  unfold report_result, getitem, bind, ret, raise, print, modify, action_line.
  destruct (success r).
  - destruct (optimized_size_mb r) as [opt|]; [| discriminate].
    destruct (reduction_percent r) as [red|]; [| discriminate].
    intros [= <- <-]. eauto 10.
  - intros [= <- <-]. eauto.
Qed.

(** The loop body of the media script at a file that is neither an image
    nor a video: the two filesystem calls, unprotected, and the notice. *)
Lemma Media_process_file_other (n i : nat) (src rel : path) (st : Media.stats) (w : world) :
  is_media src = false ->
  relative_to src Media.SOURCE_DIR = Ok rel ->
  Media.process_file n (i, src) st w =
  match mkdir_parents (parent (join Media.OUTPUT_DIR rel)) (w_fs w) with
  | (Raise e, m1) => (Raise e, World m1 (w_out w ++ [LProgress i n rel]))
  | (Ok _, m1) =>
      match copy2 src (join Media.OUTPUT_DIR rel) m1 with
      | (Raise e, m2) => (Raise e, World m2 (w_out w ++ [LProgress i n rel]))
      | (Ok _, m2) => (Ok st, World m2 (w_out w ++ [LProgress i n rel; LCopied]))
      end
  end.
Proof.
  intros Hroute Hrel. unfold is_media in Hroute.
  apply orb_false_iff in Hroute as [Himg Hvid].
  unfold Media.process_file.
  rewrite (bind_Ok _ _ _ rel w) by (unfold lift; rewrite Hrel; reflexivity).
  cbv beta. rewrite (bind_Ok _ _ _ _ _ (print_eq _ _)). cbv beta.
  rewrite Himg, Hvid.
  unfold bind, in_fs, print, modify, ret. simpl.
  destruct (mkdir_parents _ (w_fs w)) as [[[]|e] m1]; [| reflexivity].
  simpl. destruct (copy2 _ _ m1) as [[[]|e] m2]; [| reflexivity].
  simpl. rewrite <- app_assoc. reflexivity.
Qed.

Lemma output_path_nonroot_media (rel : path) : join Media.OUTPUT_DIR rel <> [].
Proof.
  unfold join, Media.OUTPUT_DIR, join. intros E.
  apply app_eq_nil in E as [E _]. apply app_eq_nil in E as [_ E]. discriminate.
Qed.

(** The loop body of the media script handled its file by one action. *)
Lemma Media_process_file_handled (n i : nat) (f : path) (st st' : Media.stats)
    (w w' : world) :
  Media.process_file n (i, f) st w = (Ok st', w') ->
  exists rel a l,
    relative_to f Media.SOURCE_DIR = Ok rel /\
    media_handled f a (w_fs w) (w_fs w') /\
    action_line a l /\
    w_out w' = w_out w ++ [LProgress i n rel; l].
Proof.
  intros Hrun.
  destruct (relative_to f Media.SOURCE_DIR) as [rel|e] eqn:Hrel;
    [| unfold Media.process_file, bind, lift in Hrun; rewrite Hrel in Hrun; discriminate].
  exists rel.
  destruct (is_media f) eqn:Hroute.
  - unfold Media.process_file in Hrun.
    apply bind_Ok_inv in Hrun as (rel' & w1 & Hrel' & Hrun).
    apply lift_inv in Hrel' as [Hrel' ->].
    assert (rel' = rel) by congruence. subst rel'.
    apply bind_Ok_inv in Hrun as ([] & w1 & Hp & Hrun).
    rewrite print_eq in Hp. injection Hp as <-.
    unfold is_media in Hroute. fold (is_image f) in Hroute, Hrun.
    fold (is_video f) in Hroute, Hrun.
    destruct (is_image f) eqn:Himg.
    + apply bind_Ok_inv in Hrun as (r & w2 & Hopt & Hrun).
      apply in_fs_inv in Hopt as [Hopt Hout].
      apply bind_Ok_inv in Hrun as (c & w3 & Hc & Hrun).
      apply count_result_inv in Hc as ->.
      apply bind_Ok_inv in Hrun as (c' & w4 & Hr & Hrun).
      apply report_result_action in Hr as (l & -> & Hl).
      injection Hrun as <- <-. exists (Converted r), l.
      split; [reflexivity |]. split; [| split; [exact Hl |]].
      * exists rel. split; [exact Hrel |]. left. split; [exact Himg | exact Hopt].
      * simpl. rewrite Hout. simpl. rewrite <- app_assoc. reflexivity.
    + simpl in Hroute. rewrite Hroute in Hrun.
      apply bind_Ok_inv in Hrun as (r & w2 & Hopt & Hrun).
      apply in_fs_inv in Hopt as [Hopt Hout].
      apply bind_Ok_inv in Hrun as (c & w3 & Hc & Hrun).
      apply count_result_inv in Hc as ->.
      apply bind_Ok_inv in Hrun as (c' & w4 & Hr & Hrun).
      apply report_result_action in Hr as (l & -> & Hl).
      injection Hrun as <- <-. exists (Converted r), l.
      split; [reflexivity |]. split; [| split; [exact Hl |]].
      * exists rel. split; [exact Hrel |]. right.
        split; [exact Himg |]. split; [exact Hroute | exact Hopt].
      * simpl. rewrite Hout. simpl. rewrite <- app_assoc. reflexivity.
  - rewrite (Media_process_file_other n i f rel st w Hroute Hrel) in Hrun.
    destruct (mkdir_parents _ (w_fs w)) as [[[]|e] m1] eqn:Hmk; [| discriminate].
    destruct (copy2 _ _ m1) as [[[]|e] m2] eqn:Hcp; [| discriminate].
    injection Hrun as <- <-. exists Copied, LCopied.
    split; [reflexivity |]. split; [| split; reflexivity].
    exists rel. split; [exact Hrel |]. split; [exact Hroute |].
    exact (copy_step _ _ _ _ _ (output_path_nonroot_media rel) Hmk Hcp).
Qed.

(** The loop body of the product script handled its file, an image, if the
    file has an image extension. *)
Lemma Productos_process_file_handled (n i : nat) (f : path) (st st' : cat_stats)
    (w w' : world) :
  is_image f = true ->
  Productos.process_file n (i, f) st w = (Ok st', w') ->
  exists rel a l,
    relative_to f Productos.SOURCE_DIR = Ok rel /\
    product_handled f a (w_fs w) (w_fs w') /\
    action_line a l /\
    w_out w' = w_out w ++ [LProgress i n rel; l].
Proof.
  intros Himg Hrun. unfold Productos.process_file in Hrun.
  apply bind_Ok_inv in Hrun as (rel & w1 & Hrel & Hrun).
  apply lift_inv in Hrel as [Hrel ->].
  apply bind_Ok_inv in Hrun as ([] & w1 & Hp & Hrun).
  rewrite print_eq in Hp. injection Hp as <-.
  apply bind_Ok_inv in Hrun as (r & w2 & Hopt & Hrun).
  apply in_fs_inv in Hopt as [Hopt Hout].
  apply bind_Ok_inv in Hrun as (c & w3 & Hc & Hrun).
  apply count_result_inv in Hc as ->.
  apply report_result_action in Hrun as (l & -> & Hl).
  exists rel, (Converted r), l. split; [exact Hrel |].
  split; [| split; [exact Hl |]].
  - exists rel, r. auto.
  - simpl. rewrite Hout. simpl. rewrite <- app_assoc. reflexivity.
Qed.

(** A loop that returns has handled every file in turn. *)
Lemma for_each_handled {St : Type} (root : path)
    (handled : path -> action -> fs -> fs -> Prop) (n : nat)
    (body : nat * path -> St -> M world St) (files : list path) :
  (forall i f st st' w w',
      In f files ->
      body (i, f) st w = (Ok st', w') ->
      exists rel a l, relative_to f root = Ok rel /\
                      handled f a (w_fs w) (w_fs w') /\
                      action_line a l /\
                      w_out w' = w_out w ++ [LProgress i n rel; l]) ->
  forall i st st' w w',
    for_each (combine (seq i (length files)) files) body st w = (Ok st', w') ->
    exists acts ls,
      w_out w' = w_out w ++ ls /\
      handled_in_turn root handled n i files acts (w_fs w) (w_fs w') ls.
Proof.
  induction files as [|f files IH]; intros Hbody i st st' w w'; simpl.
  - intros [= <- <-]. exists [], []. split; [rewrite app_nil_r; reflexivity | constructor].
  - intros Hrun. apply bind_Ok_inv in Hrun as (st1 & w1 & Hstep & Hrun).
    apply Hbody in Hstep as (rel & a & l & Hrel & Ha & Hl & Hout); [| left; reflexivity].
    apply IH in Hrun as (acts & ls & Hout' & Hls);
      [| intros; eapply Hbody; [right |]; eassumption].
    exists (a :: acts), (LProgress i n rel :: l :: ls). split.
    + rewrite Hout', Hout, <- app_assoc. reflexivity.
    + econstructor; eassumption.
Qed.

End RunFacts.

(** ** The claims about image dimensions *)

Section SizingClaims.
Context `{Platform} `{ImageLib}.

(** C4.  An image whose width and height are within 1920 x 1080 goes to the
    encoder with the dimensions it was decoded with, and no image of any
    size comes out larger than it went in.  [img0] is the decoded source,
    [img'] the image that [save] encoded into the file at [final]; image
    dimensions are positive and below [max_dimension]. *)
Theorem C4_dimensions_kept_within_bounds
    (src dst final : path) (osz : Z * Z) (f : file) (img0 img' : image pixels)
    (m m' : fs) :
  node_at m src = Some (NFile f) ->
  lib_open (f_bytes f) = Ok img0 ->
  transcode_image src dst m = (Ok (final, osz, img'), m') ->
  (exists b,
      lib_encode img' (Some "WEBP"%string) (suffix final) IMAGE_QUALITY (Method 6)
        = Encoded b /\
      node_at m' final = Some (NFile (File b new_file_meta))) /\
  (width img0 <= IMAGE_MAX_WIDTH -> height img0 <= IMAGE_MAX_HEIGHT ->
   im_size img' = im_size img0) /\
  (0 < width img0 < max_dimension -> 0 < height img0 < max_dimension ->
   width img' <= width img0 /\ height img' <= height img0).
Proof.
  intros Hsrc Hdec Hrun. unfold transcode_image in Hrun.
  apply bind_Ok_inv in Hrun as ([] & m0 & Hmk & Hrun).
  apply open_and_save_Ok_inv in Hrun
    as (f1 & i0 & i1 & b & Hsrc1 & Hdec1 & Hnorm & -> & Hres & Hsuf & Henc & -> & Ho).
  rewrite (mkdir_parents_keeps _ _ _ _ _ _ Hmk Hsrc) in Hsrc1.
  injection Hsrc1 as <-. rewrite Hdec in Hdec1. injection Hdec1 as <-.
  apply normalise_mode_size in Hnorm.
  destruct (with_suffix_parent _ _ _ Hsuf) as [_ Hfinal].
  split; [| split].
  - exists b. split; [exact Henc | apply node_at_insert_eq; exact Hfinal].
  - intros Hw Hh.
    rewrite resize_if_needed_within in Hres
      by (unfold width, height in *; rewrite Hnorm; assumption).
    injection Hres as <-. exact Hnorm.
  - intros Hw Hh.
    assert (Hsame : width i1 = width img0 /\ height i1 = height img0)
      by (unfold width, height; rewrite Hnorm; auto).
    destruct Hsame as [Ew Eh].
    pose proof (resize_if_needed_never_grows i1 img'
                  ltac:(rewrite Ew; exact Hw) ltac:(rewrite Eh; exact Hh) Hres).
    lia.
Qed.


End SizingClaims.


(** An 800 x 600 picture goes through at 800 x 600. *)
Lemma C4_witness :
  exists final osz img' m',
    @transcode_image Toy.platform Toy.imagelib
      ["srv"; "Productos"; "p.webp"]%string
      ["srv"; "ProductosOptimized"; "p.webp"]%string Toy.product_tree
    = (Ok (final, osz, img'), m') /\
    im_size img' = (800, 600).
Proof.
  destruct (@transcode_image Toy.platform Toy.imagelib
      ["srv"; "Productos"; "p.webp"]%string
      ["srv"; "ProductosOptimized"; "p.webp"]%string Toy.product_tree)
    as [[[[final osz] img']|e] m'] eqn:Hrun.
  - exists final, osz, img', m'. split; [reflexivity |].
    refine (proj1 (proj2 (@C4_dimensions_kept_within_bounds Toy.platform Toy.imagelib
              _ _ _ _ (File (Toy.picture 800 600) Toy.a_meta)
              (Image "RGB" (800, 600) tt) _ _ _ _ _ Hrun)) _ _).
    + vm_compute. reflexivity.
    + vm_compute. reflexivity.
    + vm_compute. discriminate.
    + vm_compute. discriminate.
  - exfalso.
    assert (Hok : returned (fst (@transcode_image Toy.platform Toy.imagelib
      ["srv"; "Productos"; "p.webp"]%string
      ["srv"; "ProductosOptimized"; "p.webp"]%string Toy.product_tree)) = true)
      by (vm_compute; reflexivity).
    rewrite Hrun in Hok. discriminate.
Defined.

(** ** The claims about [optimize_image] *)

Lemma pair_of_fst {A B} (x : A * B) (a : A) : fst x = a -> x = (a, snd x).
Proof. destruct x. simpl. intros ->. reflexivity. Qed.

Section ImageClaims.
Context `{Platform} `{ImageLib}.





(** C8.  [CONVERT_TO_WEBP] is set, and a result with [success = True] (of
    either script) names as [output] the destination with its suffix replaced
    by [.webp]; the file there is what the encoder made of the image for the
    format [WEBP] at quality 75 with [method=6]. *)
Theorem C8_success_writes_webp (src dst : path) (m m' : fs) (r : result) :
  Media.optimize_image src dst m = (Ok r, m') \/
  Productos.optimize_image src dst m = (Ok r, m') ->
  success r = true ->
  CONVERT_TO_WEBP = true /\ IMAGE_QUALITY = 75 /\
  with_suffix dst ".webp" = Ok (output r) /\
  suffix (output r) = ".webp"%string /\
  exists img b,
    lib_encode img (Some "WEBP"%string) ".webp" 75 (Method 6) = Encoded b /\
    node_at m' (output r) = Some (NFile (File b new_file_meta)).
Proof.
  intros Hrun Hs.
  assert (Ht : exists final osz img',
             transcode_image src dst m = (Ok (final, osz, img'), m') /\ output r = final).
  { destruct Hrun as [Hrun|Hrun].
    - eapply Media_optimize_image_success; eassumption.
    - eapply Productos_optimize_image_success; eassumption. }
  destruct Ht as (final & osz & img' & Ht & ->).
  unfold transcode_image in Ht. apply bind_Ok_inv in Ht as ([] & m0 & _ & Ht).
  apply open_and_save_Ok_inv in Ht
    as (f & i0 & i1 & b & _ & _ & _ & _ & _ & Hsuf & Henc & -> & _).
  destruct (with_suffix_webp _ _ Hsuf) as (Hsfx & _ & _).
  destruct (with_suffix_parent _ _ _ Hsuf) as [_ Hfinal].
  rewrite Hsfx in Henc.
  split; [reflexivity |]. split; [reflexivity |]. split; [exact Hsuf |].
  split; [exact Hsfx |].
  exists img', b. split; [exact Henc | apply node_at_insert_eq; exact Hfinal].
Qed.


End ImageClaims.



(** The picture [p.webp] of the product tree: the output is a [.webp] file. *)
Lemma C8_witness :
  exists r m',
    @Productos.optimize_image Toy.platform Toy.imagelib Toy.p_src Toy.p_dst Toy.product_tree
      = (Ok r, m') /\
    success r = true /\ suffix (output r) = ".webp"%string.
Proof.
  destruct (@Productos.optimize_image Toy.platform Toy.imagelib Toy.p_src Toy.p_dst
              Toy.product_tree) as [[r|e] m'] eqn:Hrun.
  - assert (Hs : success r = true).
    { assert (Hok : map_outcome success
                      (fst (@Productos.optimize_image Toy.platform Toy.imagelib
                              Toy.p_src Toy.p_dst Toy.product_tree)) = Ok true)
        by (vm_compute; reflexivity).
      rewrite Hrun in Hok. simpl in Hok. congruence. }
    exists r, m'. split; [reflexivity |]. split; [exact Hs |].
    exact (proj1 (proj2 (proj2 (proj2
             (@C8_success_writes_webp Toy.platform Toy.imagelib
                Toy.p_src Toy.p_dst Toy.product_tree m' r (or_intror Hrun) Hs))))).
  - exfalso.
    assert (Hok : returned (fst (@Productos.optimize_image Toy.platform Toy.imagelib
                              Toy.p_src Toy.p_dst Toy.product_tree)) = true)
      by (vm_compute; reflexivity).
    rewrite Hrun in Hok. discriminate.
Defined.



(** ** The claim about [optimize_video] *)

Section VideoClaims.
Context `{Platform} `{ImageLib} `{Subprocess}.


(** [optimize_video] with the two handlers folded into [fallback]. *)
Lemma Media_optimize_video_unfold (src dst : path) :
  Media.optimize_video src dst =
  (let* orig := get_file_size_mb src in
   let* '(_, result) :=
     with_local (new_result src dst orig)
       (try_except
          (on_fst (mkdir_parents (parent dst)) >>
           let cmd := Media.ffmpeg_cmd src dst in
           let* process := on_fst (subprocess_run cmd 600 dst) in
           (if negb (returncode process =? 0)
            then raise (Exn PlainException
                          ("FFmpeg error: " +:+ last_chars 500 (stderr process)))
            else ret tt) >>
           let* opt := on_fst (get_file_size_mb dst) in
           set_local (set_optimized_size_mb opt) >>
           let* red := reduction opt orig in
           set_local (set_reduction_percent red) >>
           set_local (set_success true))
          (fun e =>
             if bool_decide (exn_kind_of e = FileNotFoundError)
             then fallback src dst "FFmpeg no encontrado"
             else fallback src dst (exn_str e)))
   in ret result)%monad.
Proof. reflexivity. Qed.



End VideoClaims.



(** ** The claims about the two [main] procedures *)

Section MainClaims.
Context `{Platform} `{ImageLib} `{Subprocess}.

Lemma Media_main_missing (w : world) :
  exists_in (w_fs w) Media.SOURCE_DIR = false ->
  Media.main w
  = (Ok tt, World (w_fs w) (w_out w ++ [LBanner; LNoSourceDir Media.SOURCE_DIR])).
Proof.
  intros Hex. unfold Media.main, bind, in_fs, path_exists, print, modify. simpl.
  rewrite Hex. simpl. rewrite <- app_assoc. reflexivity.
Qed.

Lemma Productos_main_missing (w : world) :
  exists_in (w_fs w) Productos.SOURCE_DIR = false ->
  Productos.main w
  = (Ok tt, World (w_fs w) (w_out w ++ [LBanner; LNoSourceDir Productos.SOURCE_DIR])).
Proof.
  intros Hex. unfold Productos.main, bind, in_fs, path_exists, print, modify. simpl.
  rewrite Hex. simpl. rewrite <- app_assoc. reflexivity.
Qed.

(** [main] of the media script when the source directory is there: the
    output directory is made, the regular files below the source are listed,
    the loop runs over them and the summary is printed. *)
Lemma Media_main_found (w : world) :
  exists_in (w_fs w) Media.SOURCE_DIR = true ->
  Media.main w =
  match mkdir_parents Media.OUTPUT_DIR (w_fs w) with
  | (Ok _, m0) =>
      let files := regular_files m0 Media.SOURCE_DIR in
      (let* st := for_each (enumerate_from_1 files)
                           (Media.process_file (length files))
                           (Media.Stats no_stats no_stats) in
       Media.print_summary st)%monad
        (World m0 (w_out w ++ [LBanner; LFound (length files)]))
  | (Raise e, m0) => (Raise e, World m0 (w_out w ++ [LBanner]))
  end.
Proof.
  intros Hex. unfold Media.main.
  rewrite (bind_Ok _ _ _ _ _ (print_eq _ _)).
  rewrite (bind_Ok _ _ _ true (World (w_fs w) (w_out w ++ [LBanner])))
    by (unfold in_fs, path_exists; simpl; rewrite Hex; reflexivity).
  cbv beta. change (negb true) with false. cbv iota.
  destruct (mkdir_parents Media.OUTPUT_DIR (w_fs w)) as [[[]|e] m0] eqn:Hmk.
  - rewrite (bind_Ok _ _ _ tt (World m0 (w_out w ++ [LBanner])))
      by (apply (in_fs_eq _ (World _ _)); exact Hmk).
    cbv beta.
    rewrite (bind_Ok _ _ _ (enumerated m0 Media.SOURCE_DIR) (World m0 (w_out w ++ [LBanner])))
      by reflexivity.
    cbv beta.
    rewrite (bind_Ok _ _ _ (regular_files m0 Media.SOURCE_DIR)
               (World m0 (w_out w ++ [LBanner])))
      by (apply (in_fs_eq _ (World _ _)); apply filter_m_is_file).
    cbv beta.
    rewrite (bind_Ok _ _ _ _ _ (print_eq _ _)). simpl.
    rewrite <- app_assoc. reflexivity.
  - apply bind_Raise. apply (in_fs_eq _ (World _ _)). exact Hmk.
Qed.

(** The image files among the regular files: what the product loop runs
    over. *)
Lemma Productos_main_found (w : world) :
  exists_in (w_fs w) Productos.SOURCE_DIR = true ->
  Productos.main w =
  match mkdir_parents Productos.OUTPUT_DIR (w_fs w) with
  | (Ok _, m0) =>
      let files := List.filter (fun f => is_file_in m0 f && is_image f)
                               (enumerated m0 Productos.SOURCE_DIR) in
      (let* st := for_each (enumerate_from_1 files)
                           (Productos.process_file (length files))
                           no_stats in
       Productos.print_summary st)%monad
        (World m0 (w_out w ++ [LBanner; LFound (length files)]))
  | (Raise e, m0) => (Raise e, World m0 (w_out w ++ [LBanner]))
  end.
Proof.
  intros Hex. unfold Productos.main.
  rewrite (bind_Ok _ _ _ _ _ (print_eq _ _)).
  rewrite (bind_Ok _ _ _ true (World (w_fs w) (w_out w ++ [LBanner])))
    by (unfold in_fs, path_exists; simpl; rewrite Hex; reflexivity).
  cbv beta. change (negb true) with false. cbv iota.
  destruct (mkdir_parents Productos.OUTPUT_DIR (w_fs w)) as [[[]|e] m0] eqn:Hmk.
  - rewrite (bind_Ok _ _ _ tt (World m0 (w_out w ++ [LBanner])))
      by (apply (in_fs_eq _ (World _ _)); exact Hmk).
    cbv beta.
    rewrite (bind_Ok _ _ _ (enumerated m0 Productos.SOURCE_DIR)
               (World m0 (w_out w ++ [LBanner])))
      by reflexivity.
    cbv beta.
    rewrite (bind_Ok _ _ _ (List.filter (fun f => is_file_in m0 f && is_image f)
                              (enumerated m0 Productos.SOURCE_DIR))
               (World m0 (w_out w ++ [LBanner])))
      by (apply (in_fs_eq _ (World _ _)); apply filter_m_is_image_file).
    cbv beta.
    rewrite (bind_Ok _ _ _ _ _ (print_eq _ _)). simpl.
    rewrite <- app_assoc. reflexivity.
  - apply bind_Raise. apply (in_fs_eq _ (World _ _)). exact Hmk.
Qed.

(** C7.  When the source directory does not exist, [main] (of either script)
    prints the banner and the error and returns: the filesystem is as it
    was and nothing else is printed.  When it exists and [main] returns, the
    files were counted and the summary was printed, so no other way leads
    to an early return. *)
Theorem C7_missing_source_is_the_only_early_return (w : world) :
  (exists_in (w_fs w) Media.SOURCE_DIR = false ->
   Media.main w
   = (Ok tt, World (w_fs w) (w_out w ++ [LBanner; LNoSourceDir Media.SOURCE_DIR]))) /\
  (exists_in (w_fs w) Productos.SOURCE_DIR = false ->
   Productos.main w
   = (Ok tt, World (w_fs w) (w_out w ++ [LBanner; LNoSourceDir Productos.SOURCE_DIR]))) /\
  (exists_in (w_fs w) Media.SOURCE_DIR = true ->
   forall w', Media.main w = (Ok tt, w') ->
   exists n body tail,
     w_out w' = w_out w ++ [LBanner; LFound n] ++ body ++ LSummaryTitle :: tail) /\
  (exists_in (w_fs w) Productos.SOURCE_DIR = true ->
   forall w', Productos.main w = (Ok tt, w') ->
   exists n body tail,
     w_out w' = w_out w ++ [LBanner; LFound n] ++ body ++ LSummaryTitle :: tail).
Proof.
  split; [apply Media_main_missing |]. split; [apply Productos_main_missing |].
  split.
  - intros Hex w'. rewrite (Media_main_found w Hex).
    destruct (mkdir_parents Media.OUTPUT_DIR (w_fs w)) as [[[]|e] m0]; [| discriminate].
    intros Hrun. apply bind_Ok_inv in Hrun as (st & wl & Hloop & Hsum).
    eapply for_each_file_lines in Hloop as (body & Hbody & _);
      [| intros; eapply Media_process_file_inv; eassumption].
    destruct (Media_print_summary_total st wl) as (tail & Htail).
    rewrite Htail in Hsum. injection Hsum as <-.
    eexists _, body, tail. simpl in *. rewrite Hbody, <- !app_assoc. reflexivity.
  - intros Hex w'. rewrite (Productos_main_found w Hex).
    destruct (mkdir_parents Productos.OUTPUT_DIR (w_fs w)) as [[[]|e] m0]; [| discriminate].
    intros Hrun. apply bind_Ok_inv in Hrun as (st & wl & Hloop & Hsum).
    eapply (for_each_file_lines Productos.SOURCE_DIR (fun _ => true)) in Hloop
      as (body & Hbody & _);
      [| intros; eapply Productos_process_file_inv; eassumption].
    destruct (Productos_print_summary_total st wl) as (tail & Htail).
    rewrite Htail in Hsum. injection Hsum as <-.
    eexists _, body, tail. simpl in *. rewrite Hbody, <- !app_assoc. reflexivity.
Qed.


(** C9.  The division of a summary is made only behind the test that the
    divisor is positive, where it cannot fail; so both summaries are printed
    whatever the statistics are, zero totals included, and a run over a
    source directory with nothing below it returns after printing a summary
    of zeros. *)
Theorem C9_totals_never_divide_by_zero :
  (forall (a b : float) (w : world),
      Fpos b = true -> exists x, reduction a b w = (Ok x, w)) /\
  (forall (st : Media.stats) (w : world),
      exists tail, Media.print_summary st w
                   = (Ok tt, World (w_fs w) (w_out w ++ LSummaryTitle :: tail))) /\
  (forall (st : cat_stats) (w : world),
      exists tail, Productos.print_summary st w
                   = (Ok tt, World (w_fs w) (w_out w ++ LSummaryTitle :: tail))) /\
  (forall (w : world) (m0 : fs),
      exists_in (w_fs w) Media.SOURCE_DIR = true ->
      mkdir_parents Media.OUTPUT_DIR (w_fs w) = (Ok tt, m0) ->
      enumerated m0 Media.SOURCE_DIR = [] ->
      Media.main w
      = (Ok tt, World m0 (w_out w ++
           [LBanner; LFound 0; LSummaryTitle; LTotalTitle;
            LTotalOriginal zero; LTotalOptimized zero;
            LSavedIn Media.OUTPUT_DIR; LRule]))) /\
  (forall (w : world) (m0 : fs),
      exists_in (w_fs w) Productos.SOURCE_DIR = true ->
      mkdir_parents Productos.OUTPUT_DIR (w_fs w) = (Ok tt, m0) ->
      enumerated m0 Productos.SOURCE_DIR = [] ->
      Productos.main w
      = (Ok tt, World m0 (w_out w ++
           [LBanner; LFound 0; LSummaryTitle; LCategory "IMAGENES";
            LProcessed 0; LOriginalSize zero; LOptimizedSize zero;
            LSavedIn Productos.OUTPUT_DIR; LRule]))).
Proof.
  split; [intros a b w; apply reduction_guarded |].
  split; [apply Media_print_summary_total |].
  split; [apply Productos_print_summary_total |].
  split.
  - intros w m0 Hex Hmk Hempty. rewrite (Media_main_found w Hex), Hmk.
    unfold regular_files. rewrite Hempty. simpl.
    unfold bind, ret, Media.print_summary, Media.print_category, bind, print, modify.
    simpl. rewrite <- !app_assoc. reflexivity.
  - intros w m0 Hex Hmk Hempty. rewrite (Productos_main_found w Hex), Hmk.
    rewrite Hempty. simpl.
    unfold bind, ret, Productos.print_summary, bind, print, modify.
    simpl. rewrite <- !app_assoc. reflexivity.
Qed.

(** C1, as amended.  A run that returns has handled each of its files exactly
    once, in the order of the listing: between the count of the files and
    the summary there are two lines for every file, the progress line and
    the line of its one action, and the filesystem went from the one after
    the output directory was made to the final one through these actions
    alone.  For the media script the files are all regular files below the
    source directory, each listed once; the action of an image is the
    result [optimize_image] returned, that of a video the result
    [optimize_video] returned, and that of any other file the copy of its
    content and metadata to the mirrored path.  For the product script the
    files are the regular files with an image extension only, each with the
    result [optimize_image] returned; the other files are not in the run,
    so nothing is done for them. *)
Theorem C1_each_listed_file_once (w w' : world) :
  (exists_in (w_fs w) Media.SOURCE_DIR = true ->
   Media.main w = (Ok tt, w') ->
   exists (m0 : fs) (files : list path) (acts : list action) (lines tail : list line),
     mkdir_parents Media.OUTPUT_DIR (w_fs w) = (Ok tt, m0) /\
     files = regular_files m0 Media.SOURCE_DIR /\
     NoDup files /\
     (forall p, p ∈ files <->
                walkable (w_fs w) Media.SOURCE_DIR p = true /\
                is_file_in (w_fs w) p = true) /\
     w_out w' = w_out w ++ [LBanner; LFound (length files)] ++ lines
                        ++ LSummaryTitle :: tail /\
     handled_in_turn Media.SOURCE_DIR media_handled (length files) 1
       files acts m0 (w_fs w') lines) /\
  (exists_in (w_fs w) Productos.SOURCE_DIR = true ->
   Productos.main w = (Ok tt, w') ->
   exists (m0 : fs) (files : list path) (acts : list action) (lines tail : list line),
     mkdir_parents Productos.OUTPUT_DIR (w_fs w) = (Ok tt, m0) /\
     NoDup files /\
     (forall p, p ∈ files <->
                walkable (w_fs w) Productos.SOURCE_DIR p = true /\
                is_file_in (w_fs w) p = true /\ is_image p = true) /\
     w_out w' = w_out w ++ [LBanner; LFound (length files)] ++ lines
                        ++ LSummaryTitle :: tail /\
     handled_in_turn Productos.SOURCE_DIR product_handled (length files) 1
       files acts m0 (w_fs w') lines).
Proof.
  assert (Hnames : "Servicios"%string <> "ServiciosOptimized"%string /\
                   "Productos"%string <> "ProductosOptimized"%string)
    by (split; discriminate).
  destruct Hnames as [Hs Hp]. split.
  - intros Hex. rewrite (Media_main_found w Hex).
    destruct (mkdir_parents Media.OUTPUT_DIR (w_fs w)) as [[[]|e] m0] eqn:Hmk;
      [| discriminate].
    intros Hrun. apply bind_Ok_inv in Hrun as (st & wl & Hloop & Hsum).
    eapply (for_each_handled Media.SOURCE_DIR media_handled) in Hloop
      as (acts & lines & Hlines & Hfl);
      [| intros; eapply Media_process_file_handled; eassumption].
    destruct (Media_print_summary_total st wl) as (tail & Htail).
    rewrite Htail in Hsum. injection Hsum as <-.
    exists m0, (regular_files m0 Media.SOURCE_DIR), acts, lines, tail.
    split; [reflexivity |]. split; [reflexivity |].
    split; [apply filter_NoDup, enumerated_NoDup |].
    split; [| split; [| exact Hfl]].
    + intros p. rewrite regular_files_alt.
      unfold Media.SOURCE_DIR, Media.OUTPUT_DIR, join in *.
      rewrite (listed_files_spec _ _ _ _ _ _ (fun _ => true) p Hs Hmk). tauto.
    + simpl in *. rewrite Hlines, <- !app_assoc. reflexivity.
  - intros Hex. rewrite (Productos_main_found w Hex).
    destruct (mkdir_parents Productos.OUTPUT_DIR (w_fs w)) as [[[]|e] m0] eqn:Hmk;
      [| discriminate].
    intros Hrun. apply bind_Ok_inv in Hrun as (st & wl & Hloop & Hsum).
    eapply (for_each_handled Productos.SOURCE_DIR product_handled) in Hloop
      as (acts & lines & Hlines & Hfl).
    2:{ intros i f st1 st2 w1 w2 Hin Hstep.
        apply filter_In in Hin as [_ Hin]. apply andb_true_iff in Hin as [_ Himg].
        eapply Productos_process_file_handled; eassumption. }
    destruct (Productos_print_summary_total st wl) as (tail & Htail).
    rewrite Htail in Hsum. injection Hsum as <-.
    eexists m0, _, acts, lines, tail.
    split; [reflexivity |].
    split; [apply filter_NoDup, enumerated_NoDup |].
    split; [| split; [| exact Hfl]].
    + intros p. unfold Productos.SOURCE_DIR, Productos.OUTPUT_DIR, join in *.
      apply (listed_files_spec _ _ _ _ _ _ is_image p Hp Hmk).
    + simpl in *. rewrite Hlines, <- !app_assoc. reflexivity.
Qed.



End MainClaims.

(** Without the source directory nothing but the banner and the error is
    printed; with it, the run over the media tree reaches the summary. *)
Lemma C7_witness :
  @Media.main Toy.platform Toy.imagelib (Toy.subprocess NotInstalled) (World ∅ [])
  = (Ok tt, World ∅ [LBanner; LNoSourceDir ["srv"; "Servicios"]%string]) /\
  exists n body tail,
    w_out (snd (@Media.main Toy.platform Toy.imagelib (Toy.subprocess NotInstalled)
                  (World Toy.media_tree [])))
    = [LBanner; LFound n] ++ body ++ LSummaryTitle :: tail.
Proof.
  split.
  - apply (proj1 (@C7_missing_source_is_the_only_early_return
                    Toy.platform Toy.imagelib (Toy.subprocess NotInstalled) (World ∅ []))).
    vm_compute. reflexivity.
  - apply (proj1 (proj2 (proj2 (@C7_missing_source_is_the_only_early_return
                    Toy.platform Toy.imagelib (Toy.subprocess NotInstalled)
                    (World Toy.media_tree []))))).
    + vm_compute. reflexivity.
    + apply pair_of_fst. vm_compute. reflexivity.
Defined.

(** An empty [Servicios]: the run returns after a summary of zeros. *)
Lemma C9_witness :
  exists m0,
    @Media.main Toy.platform Toy.imagelib (Toy.subprocess NotInstalled)
      (World Toy.empty_tree [])
    = (Ok tt, World m0
         [LBanner; LFound 0; LSummaryTitle; LTotalTitle;
          LTotalOriginal zero; LTotalOptimized zero;
          LSavedIn ["srv"; "ServiciosOptimized"]%string; LRule]).
Proof.
  exists (snd (@mkdir_parents Toy.platform
                 (@Media.OUTPUT_DIR Toy.platform) Toy.empty_tree)).
  apply (proj1 (proj2 (proj2 (proj2 (@C9_totals_never_divide_by_zero
                  Toy.platform Toy.imagelib (Toy.subprocess NotInstalled)))))
           (World Toy.empty_tree [])).
  - vm_compute. reflexivity.
  - apply pair_of_fst. vm_compute. reflexivity.
  - vm_compute. reflexivity.
Defined.

(** The media tree: four regular files, each handled by one action. *)
Lemma C1_witness :
  exists (m0 : fs) (files : list path) (acts : list action) (lines tail : list line),
    NoDup files /\
    w_out (snd (@Media.main Toy.platform Toy.imagelib (Toy.subprocess NotInstalled)
                  (World Toy.media_tree [])))
    = [LBanner; LFound (length files)] ++ lines ++ LSummaryTitle :: tail /\
    @handled_in_turn (@Media.SOURCE_DIR Toy.platform)
      (@media_handled Toy.platform Toy.imagelib (Toy.subprocess NotInstalled))
      (length files) 1 files acts m0
      (w_fs (snd (@Media.main Toy.platform Toy.imagelib (Toy.subprocess NotInstalled)
                    (World Toy.media_tree []))))
      lines.
Proof.
  destruct (proj1 (@C1_each_listed_file_once
                     Toy.platform Toy.imagelib (Toy.subprocess NotInstalled)
                     (World Toy.media_tree [])
                     (snd (@Media.main Toy.platform Toy.imagelib
                             (Toy.subprocess NotInstalled) (World Toy.media_tree [])))))
    as (m0 & files & acts & lines & tail & _ & _ & Hnd & _ & Hout & Hfl).
  - vm_compute. reflexivity.
  - apply pair_of_fst. vm_compute. reflexivity.
  - exists m0, files, acts, lines, tail.
    split; [exact Hnd |]. split; [exact Hout | exact Hfl].
Defined.

(** The claim as stated fails for the product script: [notes.txt] is a
    regular file listed below the source directory, the run returns, and
    nothing was printed for the file: no progress line, no copy notice. *)
Lemma C1_counterexample :
  @is_file_in Toy.product_tree Toy.pnotes_src = true /\
  @walkable Toy.product_tree (@Productos.SOURCE_DIR Toy.platform) Toy.pnotes_src = true /\
  fst (@Productos.main Toy.platform Toy.imagelib (World Toy.product_tree [])) = Ok tt /\
  existsb (Toy.mentions ["notes.txt"%string])
    (w_out (snd (@Productos.main Toy.platform Toy.imagelib (World Toy.product_tree []))))
  = false /\
  existsb Toy.is_copy_notice
    (w_out (snd (@Productos.main Toy.platform Toy.imagelib (World Toy.product_tree []))))
  = false.
Proof. repeat split; vm_compute; reflexivity. Qed.



(** ** Facts about what a run may change *)

Section Confinement.
Context `{Platform}.

Lemma changed_within_weaken (P Q : path -> Prop) (m m' : fs) :
  (forall p, P p -> Q p) -> changed_within P m m' -> changed_within Q m m'.
Proof.
  intros HPQ Hc. induction Hc as [|m m1 m2 Hs _ IH]; [apply rtc_refl |].
  eapply rtc_l; [| exact IH].
  destruct Hs; [apply step_mkdir | apply step_write]; auto.
Qed.

(** Outside [P] nothing changes. *)
Lemma changed_within_outside (P : path -> Prop) (m m' : fs) :
  changed_within P m m' -> forall p, ~ P p -> m' !! p = m !! p.
Proof.
  intros Hc p Hp. induction Hc as [|m m1 m2 Hs _ IH]; [reflexivity |].
  rewrite IH. destruct Hs as [q Hq _ _|q f Hq _];
    apply lookup_insert_ne; intros ->; contradiction.
Qed.

(** Nothing is removed and nothing changes its kind. *)
Lemma changed_within_kind (P : path -> Prop) (m m' : fs) :
  changed_within P m m' ->
  forall (p : path) (nd : node),
    m !! p = Some nd -> exists nd', m' !! p = Some nd' /\ same_kind nd nd'.
Proof.
  intros Hc. induction Hc as [m|m m1 m2 Hs _ IH]; intros p nd Hnd.
  - exists nd. split; [exact Hnd | destruct nd; exact I].
  - assert (Hstep : exists n1, m1 !! p = Some n1 /\ same_kind nd n1).
    { destruct Hs as [q Hq Hne Hnone|q f Hq Hd].
      - destruct (decide (q = p)) as [->|Hqp]; [congruence |].
        exists nd. rewrite lookup_insert_ne by exact Hqp.
        split; [exact Hnd | destruct nd; exact I].
      - destruct (decide (q = p)) as [->|Hqp].
        + exists (NFile f). rewrite lookup_insert_eq. split; [reflexivity |].
          unfold is_dir_in, node_at in Hd. destruct p; [discriminate |].
          rewrite Hnd in Hd. destruct nd; [exact I | discriminate].
        + exists nd. rewrite lookup_insert_ne by exact Hqp.
          split; [exact Hnd | destruct nd; exact I]. }
    destruct Hstep as (n1 & Hn1 & Hk1).
    destruct (IH _ _ Hn1) as (nd' & Hnd' & Hk'). exists nd'. split; [exact Hnd' |].
    destruct nd, n1, nd'; simpl in *; tauto.
Qed.

Section Combinators.
Context {S : Type} (P : path -> Prop) (proj : S -> fs).

Lemma confined_ret {A : Type} (a : A) : confined P proj (ret a).
Proof. intros s o s' [= <- <-]. apply rtc_refl. Qed.

Lemma confined_raise {A : Type} (e : exn) : confined P proj (@raise S A e).
Proof. intros s o s' [= <- <-]. apply rtc_refl. Qed.

Lemma confined_lift {A : Type} (o : outcome A) : confined P proj (lift o).
Proof. intros s o' s' [= <- <-]. apply rtc_refl. Qed.

Lemma confined_getitem {A : Type} (key : string) (o : option A) :
  confined P proj (getitem key o).
Proof. destruct o; [apply confined_ret | apply confined_raise]. Qed.

Lemma confined_bind {A B : Type} (c : M S A) (k : A -> M S B) :
  confined P proj c -> (forall a, confined P proj (k a)) ->
  confined P proj (bind c k).
Proof.
  intros Hc Hk s o s' Hrun. unfold bind in Hrun.
  destruct (c s) as [[a|e] s1] eqn:E.
  - etrans; [exact (Hc _ _ _ E) | exact (Hk _ _ _ _ Hrun)].
  - injection Hrun as <- <-. exact (Hc _ _ _ E).
Qed.

Lemma confined_try_except {A : Type} (c : M S A) (h : exn -> M S A) :
  confined P proj c -> (forall e, confined P proj (h e)) ->
  confined P proj (try_except c h).
Proof.
  intros Hc Hh s o s' Hrun. unfold try_except in Hrun.
  destruct (c s) as [[a|e] s1] eqn:E.
  - injection Hrun as <- <-. exact (Hc _ _ _ E).
  - etrans; [exact (Hc _ _ _ E) | exact (Hh _ _ _ _ Hrun)].
Qed.

Lemma confined_if {A : Type} (b : bool) (c1 c2 : M S A) :
  confined P proj c1 -> confined P proj c2 ->
  confined P proj (if b then c1 else c2).
Proof. destruct b; auto. Qed.

Lemma confined_for_each {A B : Type} (body : A -> B -> M S B) (xs : list A) :
  (forall x acc, In x xs -> confined P proj (body x acc)) ->
  forall acc, confined P proj (for_each xs body acc).
Proof.
  induction xs as [|x xs IH]; intros Hb acc; simpl.
  - apply confined_ret.
  - apply confined_bind; [apply Hb; left; reflexivity |].
    intros acc'. apply IH. intros y a Hy. apply Hb. right. exact Hy.
Qed.

Lemma confined_filter_m {A : Type} (p : A -> M S bool) (xs : list A) :
  (forall x, confined P proj (p x)) -> confined P proj (filter_m p xs).
Proof.
  intros Hp. induction xs as [|x xs IH]; simpl; [apply confined_ret |].
  apply confined_bind; [apply Hp |]. intros b.
  apply confined_bind; [exact IH |]. intros rest. apply confined_ret.
Qed.

End Combinators.

Lemma confined_weaken {S A : Type} (P Q : path -> Prop) (proj : S -> fs) (c : M S A) :
  (forall p, P p -> Q p) -> confined P proj c -> confined Q proj c.
Proof.
  intros HPQ Hc s o s' Hrun. eapply changed_within_weaken; [exact HPQ |].
  exact (Hc _ _ _ Hrun).
Qed.

(** The local variables and the printed lines are no part of the
    filesystem. *)
Lemma confined_on_fst {L A : Type} (P : path -> Prop) (c : M fs A) :
  confined P (fun m => m) c -> confined P (@fst fs L) (on_fst c).
Proof.
  intros Hc [m l] o [m' l'] Hrun. unfold on_fst in Hrun.
  destruct (c m) as [o1 m1] eqn:E. injection Hrun as <- <- <-.
  exact (Hc _ _ _ E).
Qed.

Lemma confined_set_local {L : Type} (P : path -> Prop) (f : L -> L) :
  confined P (@fst fs L) (set_local f).
Proof. intros [m l] o [m' l'] [= <- <- <-]. apply rtc_refl. Qed.

Lemma confined_with_local {L A : Type} (P : path -> Prop) (l0 : L) (c : M (fs * L) A) :
  confined P fst c -> confined P (fun m => m) (with_local l0 c).
Proof.
  intros Hc m o m' Hrun. unfold with_local in Hrun.
  destruct (c (m, l0)) as [[a|e] [m1 l1]] eqn:E; injection Hrun as <- <-;
    exact (Hc _ _ _ E).
Qed.

Lemma confined_in_fs {A : Type} (P : path -> Prop) (c : M fs A) :
  confined P (fun m => m) c -> confined P w_fs (in_fs c).
Proof.
  intros Hc w o w' Hrun. unfold in_fs in Hrun.
  destruct (c (w_fs w)) as [o1 m1] eqn:E. injection Hrun as <- <-.
  exact (Hc _ _ _ E).
Qed.

Lemma confined_print (P : path -> Prop) (l : line) : confined P w_fs (print l).
Proof. intros w o w' [= <- <-]. apply rtc_refl. Qed.

(** The file operations. *)
Lemma confined_reader {A : Type} (P : path -> Prop) (c : M fs A) :
  (forall m, snd (c m) = m) -> confined P (fun m => m) c.
Proof.
  intros Hc m o m' Hrun. pose proof (Hc m) as E. rewrite Hrun in E.
  simpl in E. subst m'. apply rtc_refl.
Qed.

Lemma confined_get_file_size_mb (P : path -> Prop) (p : path) :
  confined P (fun m => m) (get_file_size_mb p).
Proof.
  intros m o m' Hrun. apply get_file_size_mb_cases in Hrun as [-> _].
  apply rtc_refl.
Qed.

Lemma mkdir_from_changed (P : path -> Prop) (todo : list string) :
  forall (done : path) (m m' : fs) o,
    (forall k, (0 < k <= length todo)%nat -> P (done ++ take k todo)) ->
    mkdir_from done todo m = (o, m') -> changed_within P m m'.
Proof.
  induction todo as [|c todo IH]; intros done m m' o HP Hrun; simpl in Hrun.
  - injection Hrun as <- <-. apply rtc_refl.
  - assert (Hnext : forall k, (0 < k <= length todo)%nat ->
                              P ((done ++ [c]) ++ take k todo)).
    { intros k Hk. rewrite <- app_assoc. apply (HP (Datatypes.S k)). simpl. lia. }
    assert (Hhere : P (done ++ [c])) by (apply (HP 1%nat); simpl; lia).
    destruct (m !! (done ++ [c])) as [[f|]|] eqn:E.
    + injection Hrun as <- <-. apply rtc_refl.
    + exact (IH _ _ _ _ Hnext Hrun).
    + eapply rtc_l; [| exact (IH _ _ _ _ Hnext Hrun)].
      apply step_mkdir; [exact Hhere | destruct done; discriminate | exact E].
Qed.

Lemma confined_mkdir_parents (P : path -> Prop) (q : path) :
  (forall p, p `prefix_of` q -> P p) ->
  confined P (fun m => m) (mkdir_parents q).
Proof.
  intros HP m o m' Hrun. unfold mkdir_parents in Hrun.
  eapply mkdir_from_changed; [| exact Hrun].
  intros k _. simpl. apply HP. apply prefix_take.
Qed.

Lemma confined_write_file (P : path -> Prop) (p : path) (f : file) :
  P p -> confined P (fun m => m) (write_file p f).
Proof.
  intros HP m o m' Hrun.
  apply write_file_cases in Hrun as [(_ & -> & Hopen)|(e & _ & ->)]; [| apply rtc_refl].
  apply rtc_once. apply step_write; [exact HP |].
  unfold open_for_write in Hopen. unfold is_dir_in.
  destruct (node_at m p) as [[?|]|]; [reflexivity | discriminate | reflexivity].
Qed.

Lemma confined_copy2 (P : path -> Prop) (src dst : path) :
  P dst -> P (dst ++ [name src]) -> confined P (fun m => m) (copy2 src dst).
Proof.
  intros Hdst Hin m o m' Hrun. unfold copy2 in Hrun.
  destruct (bool_decide _); [injection Hrun as <- <-; apply rtc_refl |].
  destruct (node_at m src) as [[f|]|]; try (injection Hrun as <- <-; apply rtc_refl).
  revert Hrun. apply confined_write_file. destruct (is_dir_in m dst); assumption.
Qed.

Lemma confined_leave (P : path -> Prop) (out : path) (o : option bytes) (m : fs) :
  P out -> changed_within P m (leave out o m).
Proof.
  intros HP. unfold leave. destruct o as [b|]; [| apply rtc_refl].
  destruct (write_file out _ m) as [[[]|e] m1] eqn:E; [| apply rtc_refl].
  exact (confined_write_file P out _ HP _ _ _ E).
Qed.

End Confinement.

Section ConfinedScripts.
Context `{Platform} `{ImageLib} `{Subprocess}.

Lemma confined_bind_ok {S A B : Type} (P : path -> Prop) (proj : S -> fs)
    (Q : A -> Prop) (c : M S A) (k : A -> M S B) :
  confined P proj c ->
  (forall s a s1, c s = (Ok a, s1) -> Q a) ->
  (forall a, Q a -> confined P proj (k a)) ->
  confined P proj (bind c k).
Proof.
  intros Hc HQ Hk s o s' Hrun. unfold bind in Hrun.
  destruct (c s) as [[a|e] s1] eqn:E.
  - etrans; [exact (Hc _ _ _ E) | exact (Hk _ (HQ _ _ _ E) _ _ _ Hrun)].
  - injection Hrun as <- <-. exact (Hc _ _ _ E).
Qed.

Lemma confined_reduction {S : Type} (P : path -> Prop) (proj : S -> fs) (a b : float) :
  confined P proj (reduction a b).
Proof.
  unfold reduction. destruct (Fdiv a b); [apply confined_ret | apply confined_raise].
Qed.

Lemma confined_Image_open (P : path -> Prop) (p : path) :
  confined P (fun m => m) (Image_open p).
Proof.
  intros m o m' Hrun. apply Image_open_state in Hrun as ->. apply rtc_refl.
Qed.

Lemma confined_Image_save (P : path -> Prop) (img : image pixels) (p : path)
    (format : option string) (quality : Z) (extra : save_param) :
  P p -> confined P (fun m => m) (Image_save img p format quality extra).
Proof.
  intros HP m o m' Hrun. unfold Image_save in Hrun.
  destruct (lib_encode img format (suffix p) quality extra) as [b|e|e leftover].
  - exact (confined_write_file P p _ HP _ _ _ Hrun).
  - injection Hrun as <- <-. apply rtc_refl.
  - destruct (write_file p _ m) as [[[]|e'] m1] eqn:E; injection Hrun as <- <-;
      exact (confined_write_file P p _ HP _ _ _ E).
Qed.

Lemma confined_subprocess_run (P : path -> Prop) (cmd : list string) (t : Z)
    (out : path) :
  P out -> confined P (fun m => m) (subprocess_run cmd t out).
Proof.
  intros HP m o m' Hrun. unfold subprocess_run in Hrun.
  destruct (run_command cmd t m) as [|partial|e written|rc sout serr written];
    try destruct (captured_text sout serr);
    injection Hrun as <- <-;
    first [apply rtc_refl | apply confined_leave; exact HP].
Qed.

End ConfinedScripts.

(** Take a computation apart down to its file operations. *)
Ltac confine :=
  repeat
    lazymatch goal with
    | |- confined _ _ (ret _) => apply confined_ret
    | |- confined _ _ (raise _) => apply confined_raise
    | |- confined _ _ (lift _) => apply confined_lift
    | |- confined _ _ (getitem _ _) => apply confined_getitem
    | |- confined _ _ (set_local _) => apply confined_set_local
    | |- confined _ _ (print _) => apply confined_print
    | |- confined _ _ (get_file_size_mb _) => apply confined_get_file_size_mb
    | |- confined _ _ (reduction _ _) => apply confined_reduction
    | |- confined _ _ (Image_open _) => apply confined_Image_open
    | |- confined _ _ (on_fst _) => apply confined_on_fst
    | |- confined _ _ (in_fs _) => apply confined_in_fs
    | |- confined _ _ (with_local _ _) => apply confined_with_local
    | |- confined _ _ (try_except _ _) => apply confined_try_except
    | |- confined _ _ (bind _ _) => apply confined_bind
    | |- confined _ _ (if _ then _ else _) => apply confined_if
    | |- confined _ _ (match ?a with (_, _) => _ end) => destruct a
    | |- confined _ _ (let _ := _ in _) => cbv zeta
    | |- forall _, confined _ _ _ => intro
    end.

Section ConfinedOptimize.
Context `{Platform} `{ImageLib} `{Subprocess}.

Lemma confined_fallback (P : path -> Prop) (src dst : path) (err : string) :
  P dst -> P (dst ++ [name src]) -> confined P fst (fallback src dst err).
Proof.
  intros Hd Hin. unfold fallback. confine. apply confined_copy2; assumption.
Qed.

Lemma confined_transcode_image (src dst : path) :
  confined (image_targets src dst) (fun m => m) (transcode_image src dst).
Proof.
  unfold transcode_image. apply confined_bind.
  - apply confined_mkdir_parents. intros p Hp. left.
    etrans; [exact Hp |]. destruct dst as [|c dst] using rev_ind; [reflexivity |].
    rewrite parent_snoc. apply prefix_app_r. reflexivity.
  - intros _. unfold open_and_save.
    apply confined_bind; [apply confined_Image_open | intros img0].
    apply confined_bind; [apply confined_lift | intros img1].
    apply confined_bind; [apply confined_lift | intros img2].
    change CONVERT_TO_WEBP with true. cbv iota.
    apply (confined_bind_ok _ _ (fun final => with_suffix dst ".webp" = Ok final)).
    + apply confined_lift.
    + intros s a s1 [= -> _]. reflexivity.
    + intros final Hfinal. confine. apply confined_Image_save. right. left. exact Hfinal.
Qed.

Lemma confined_Media_optimize_image (src dst : path) :
  confined (image_targets src dst) (fun m => m) (Media.optimize_image src dst).
Proof.
  rewrite Media_optimize_image_unfold. confine.
  - apply confined_transcode_image.
  - apply confined_fallback; [left; reflexivity | right; right; reflexivity].
Qed.

Lemma confined_Productos_optimize_image (src dst : path) :
  confined (image_targets src dst) (fun m => m) (Productos.optimize_image src dst).
Proof.
  rewrite Productos_optimize_image_unfold. confine.
  - apply confined_transcode_image.
  - apply confined_fallback; [left; reflexivity | right; right; reflexivity].
Qed.

Lemma prefix_of_parent (p : path) : parent p `prefix_of` p.
Proof.
  destruct p as [|c p] using rev_ind; [reflexivity |].
  rewrite parent_snoc. apply prefix_app_r. reflexivity.
Qed.

Lemma confined_Media_optimize_video (src dst : path) :
  confined (video_targets src dst) (fun m => m) (Media.optimize_video src dst).
Proof.
  rewrite Media_optimize_video_unfold. confine.
  - apply confined_mkdir_parents. intros p Hp. left.
    etrans; [exact Hp | apply prefix_of_parent].
  - apply confined_subprocess_run. left. reflexivity.
  - apply confined_fallback; [left; reflexivity | right; reflexivity].
  - apply confined_fallback; [left; reflexivity | right; reflexivity].
Qed.

End ConfinedOptimize.

Section ConfinedMain.
Context `{Platform} `{ImageLib} `{Subprocess}.

Lemma parent_app (d rel : path) : rel <> [] -> parent (d ++ rel) = d ++ parent rel.
Proof. intros Hrel. unfold parent. apply removelast_app. exact Hrel. Qed.

Lemma image_targets_in_output_tree (out src rel p : path) :
  rel <> [] -> image_targets src (join out rel) p -> output_tree out p.
Proof.
  intros Hrel [Hp|[Hp| ->]]; unfold join in *.
  - destruct (prefix_weak_total p out (out ++ rel) Hp (prefix_app_r out out rel (reflexivity _)));
      [left | right]; assumption.
  - right. destruct (with_suffix_parent _ _ _ Hp) as [Hpar Hne].
    rewrite (parent_name p Hne), Hpar, (parent_app _ _ Hrel), <- app_assoc.
    apply prefix_app_r. reflexivity.
  - right. rewrite <- app_assoc. apply prefix_app_r. reflexivity.
Qed.

Lemma video_targets_in_output_tree (out src rel p : path) :
  video_targets src (join out rel) p -> output_tree out p.
Proof.
  intros [Hp| ->]; unfold join in *.
  - destruct (prefix_weak_total p out (out ++ rel) Hp (prefix_app_r out out rel (reflexivity _)));
      [left | right]; assumption.
  - right. rewrite <- app_assoc. apply prefix_app_r. reflexivity.
Qed.

Lemma relative_below (src root rel : path) :
  (length root < length src)%nat -> relative_to src root = Ok rel ->
  src = root ++ rel /\ rel <> [].
Proof.
  intros Hlen Hrel. apply relative_to_inv in Hrel. split; [exact Hrel |].
  intros ->. rewrite app_nil_r in Hrel. subst. lia.
Qed.

Lemma confined_count_result {S : Type} (P : path -> Prop) (proj : S -> fs)
    (r : result) (c : cat_stats) :
  confined P proj (count_result r c).
Proof. unfold count_result. confine. Qed.

Lemma confined_report_result (P : path -> Prop) (r : result) (c : cat_stats) :
  confined P w_fs (report_result r c).
Proof. unfold report_result. confine. Qed.

Lemma confined_Media_process_file (n i : nat) (src : path) (st : Media.stats) :
  (length Media.SOURCE_DIR < length src)%nat ->
  confined (output_tree Media.OUTPUT_DIR) w_fs (Media.process_file n (i, src) st).
Proof.
  intros Hlen. unfold Media.process_file.
  apply (confined_bind_ok _ _ (fun rel => rel <> []));
    [apply confined_lift
    | intros s rel s1 [= Hrel _]; exact (proj2 (relative_below _ _ _ Hlen Hrel)) |].
  intros rel Hrel. confine.
  - eapply confined_weaken; [| apply confined_Media_optimize_image].
    intros p. apply image_targets_in_output_tree. exact Hrel.
  - apply confined_count_result.
  - apply confined_report_result.
  - eapply confined_weaken; [| apply confined_Media_optimize_video].
    intros p. apply video_targets_in_output_tree.
  - apply confined_count_result.
  - apply confined_report_result.
  - apply confined_mkdir_parents. intros p Hp.
    apply (video_targets_in_output_tree _ src rel). left.
    etrans; [exact Hp | apply prefix_of_parent].
  - apply confined_copy2.
    + apply (video_targets_in_output_tree _ src rel). left. reflexivity.
    + apply (video_targets_in_output_tree _ src rel). right. reflexivity.
Qed.

Lemma confined_Productos_process_file (n i : nat) (src : path) (st : cat_stats) :
  (length Productos.SOURCE_DIR < length src)%nat ->
  confined (output_tree Productos.OUTPUT_DIR) w_fs (Productos.process_file n (i, src) st).
Proof.
  intros Hlen. unfold Productos.process_file.
  apply (confined_bind_ok _ _ (fun rel => rel <> []));
    [apply confined_lift
    | intros s rel s1 [= Hrel _]; exact (proj2 (relative_below _ _ _ Hlen Hrel)) |].
  intros rel Hrel. confine.
  - eapply confined_weaken; [| apply confined_Productos_optimize_image].
    intros p. apply image_targets_in_output_tree. exact Hrel.
  - apply confined_count_result.
  - apply confined_report_result.
Qed.

Lemma confined_Media_print_summary (P : path -> Prop) (st : Media.stats) :
  confined P w_fs (Media.print_summary st).
Proof. unfold Media.print_summary, Media.print_category. confine. Qed.

Lemma confined_Productos_print_summary (P : path -> Prop) (st : cat_stats) :
  confined P w_fs (Productos.print_summary st).
Proof. unfold Productos.print_summary. confine. Qed.

Lemma rglob_below (root : path) (m m' : fs) (l : list path) :
  rglob root m = (Ok l, m') ->
  forall p, In p l -> (length root < length p)%nat.
Proof.
  intros [= <- _] p Hp. apply filter_In in Hp as [_ Hw].
  unfold walkable in Hw. apply andb_true_iff in Hw as [Hw _].
  apply andb_true_iff in Hw as [_ Hw]. apply Nat.ltb_lt. exact Hw.
Qed.

Lemma in_enumerate_from_1 {A : Type} (xs : list A) (i : nat) (x : A) :
  In (i, x) (enumerate_from_1 xs) -> In x xs.
Proof. unfold enumerate_from_1. apply in_combine_r. Qed.

Lemma confined_Media_main :
  confined (output_tree Media.OUTPUT_DIR) w_fs Media.main.
Proof.
  unfold Media.main.
  apply confined_bind; [apply confined_print | intros _].
  apply confined_bind; [apply confined_in_fs, confined_reader; reflexivity | intros found].
  apply confined_if; [apply confined_print |].
  apply confined_bind; [| intros _].
  { apply confined_in_fs, confined_mkdir_parents. intros p Hp. left. exact Hp. }
  apply (confined_bind_ok _ _
           (fun l => forall p, In p l -> (length Media.SOURCE_DIR < length p)%nat)).
  { apply confined_in_fs, confined_reader; reflexivity. }
  { intros w l w1 Hrun. apply in_fs_inv in Hrun as [Hrun _].
    exact (rglob_below _ _ _ _ Hrun). }
  intros all_files Hall.
  apply (confined_bind_ok _ _
           (fun l => forall p, In p l -> (length Media.SOURCE_DIR < length p)%nat)).
  { apply confined_in_fs, confined_reader. intros m. rewrite filter_m_is_file. reflexivity. }
  { intros w l w1 Hrun. apply in_fs_inv in Hrun as [Hrun _].
    rewrite filter_m_is_file in Hrun. injection Hrun as <- _.
    intros p Hp. apply filter_In in Hp as [Hp _]. exact (Hall _ Hp). }
  intros files Hfiles.
  apply confined_bind; [apply confined_print | intros _].
  apply confined_bind; [| intros st; apply confined_Media_print_summary].
  apply confined_for_each. intros [i p] st Hin.
  apply confined_Media_process_file. apply Hfiles.
  exact (in_enumerate_from_1 _ _ _ Hin).
Qed.

Lemma confined_Productos_main :
  confined (output_tree Productos.OUTPUT_DIR) w_fs Productos.main.
Proof.
  unfold Productos.main.
  apply confined_bind; [apply confined_print | intros _].
  apply confined_bind; [apply confined_in_fs, confined_reader; reflexivity | intros found].
  apply confined_if; [apply confined_print |].
  apply confined_bind; [| intros _].
  { apply confined_in_fs, confined_mkdir_parents. intros p Hp. left. exact Hp. }
  apply (confined_bind_ok _ _
           (fun l => forall p, In p l -> (length Productos.SOURCE_DIR < length p)%nat)).
  { apply confined_in_fs, confined_reader; reflexivity. }
  { intros w l w1 Hrun. apply in_fs_inv in Hrun as [Hrun _].
    exact (rglob_below _ _ _ _ Hrun). }
  intros all_files Hall.
  apply (confined_bind_ok _ _
           (fun l => forall p, In p l -> (length Productos.SOURCE_DIR < length p)%nat)).
  { apply confined_in_fs, confined_reader. intros m.
    rewrite filter_m_is_image_file. reflexivity. }
  { intros w l w1 Hrun. apply in_fs_inv in Hrun as [Hrun _].
    rewrite filter_m_is_image_file in Hrun. injection Hrun as <- _.
    intros p Hp. apply filter_In in Hp as [Hp _]. exact (Hall _ Hp). }
  intros files Hfiles.
  apply confined_bind; [apply confined_print | intros _].
  apply confined_bind; [| intros st; apply confined_Productos_print_summary].
  apply confined_for_each. intros [i p] st Hin.
  apply confined_Productos_process_file. apply Hfiles.
  exact (in_enumerate_from_1 _ _ _ Hin).
Qed.

(** A sibling of the output directory, and what is below it, is no part of
    the output tree. *)
Lemma sibling_outside_output_tree (d : path) (a b : string) (p : path) :
  a <> b -> (d ++ [a]) `prefix_of` p -> ~ output_tree (d ++ [b]) p.
Proof.
  intros Hab Hp [Hq|Hq].
  - exact (sibling_not_on_the_way d a b p Hab Hp Hq).
  - destruct Hp as [k ->]. destruct Hq as [k' Hq].
    rewrite <- !app_assoc in Hq. apply app_inv_head in Hq.
    simpl in Hq. congruence.
Qed.

End ConfinedMain.


(** ** What a result of [optimize_image] and [optimize_video] says *)

Section ResultFacts.
Context `{Platform} `{ImageLib} `{Subprocess}.

Lemma fallback_inv (src dst : path) (err : string) (m m' : fs) (r r' : result) :
  fallback src dst err (m, r) = (Ok tt, (m', r')) ->
  exists opt, r' = set_reduction_percent zero
                     (set_optimized_size_mb opt (set_error err r)).
Proof.
  unfold fallback, bind, on_fst, set_local, ret. intros Hrun.
  destruct (copy2 src dst m) as [[[]|?] m1]; [| discriminate].
  destruct (get_file_size_mb dst m1) as [[opt|?] m2]; [| discriminate].
  injection Hrun as <- <-. exists opt. reflexivity.
Qed.

(** A result of [optimize_image] is the record of a [try] body that ran to
    its end, or one the handler completed. *)
Lemma Media_optimize_image_inv (src dst : path) (f : file) (m m' : fs) (r : result) :
  node_at m src = Some (NFile f) ->
  Media.optimize_image src dst m = (Ok r, m') ->
  (exists final osz img' opt q,
      transcode_image src dst m = (Ok (final, osz, img'), m') /\
      get_file_size_mb final m' = (Ok opt, m') /\
      Fdiv opt (size_mb f) = Some q /\
      r = Result src final (size_mb f) true None (Some opt)
                 (Some (Fmul (Fsub (of_int 1) q) (of_int 100)))
                 (Some (negb (size_eqb osz (im_size img'))))) \/
  (exists out msg opt,
      r = Result src out (size_mb f) false (Some msg) (Some opt) (Some zero) None).
Proof.
  intros Hsrc. rewrite Media_optimize_image_unfold.
  rewrite (bind_Ok _ _ _ _ _ (get_file_size_mb_file _ _ _ Hsrc)). cbv beta.
  unfold bind, with_local, try_except, on_fst, set_local, reduction, ret, raise.
  intros Hrun.
  destruct (transcode_image src dst m) as [[[[final osz] img']|e] m1] eqn:E1.
  - destruct (get_file_size_mb final m1) as [[opt|e] m2] eqn:E2;
      pose proof E2 as E2'; apply get_file_size_mb_cases in E2' as [-> _].
    + destruct (Fdiv opt (size_mb f)) as [q|] eqn:Eq.
      * injection Hrun as <- <-. left. exists final, osz, img', opt, q.
        repeat split; assumption.
      * destruct (fallback _ _ _ _) as [[[]|?] [m3 r3]] eqn:Ef; [| discriminate].
        apply fallback_inv in Ef as (opt' & ->). injection Hrun as <- <-.
        right. eexists _, _, _. reflexivity.
    + destruct (fallback _ _ _ _) as [[[]|?] [m3 r3]] eqn:Ef; [| discriminate].
      apply fallback_inv in Ef as (opt' & ->). injection Hrun as <- <-.
      right. eexists _, _, _. reflexivity.
  - destruct (fallback _ _ _ _) as [[[]|?] [m3 r3]] eqn:Ef; [| discriminate].
    apply fallback_inv in Ef as (opt' & ->). injection Hrun as <- <-.
    right. eexists _, _, _. reflexivity.
Qed.

Lemma Productos_optimize_image_inv (src dst : path) (f : file) (m m' : fs) (r : result) :
  node_at m src = Some (NFile f) ->
  Productos.optimize_image src dst m = (Ok r, m') ->
  (exists final osz img' opt q,
      transcode_image src dst m = (Ok (final, osz, img'), m') /\
      get_file_size_mb final m' = (Ok opt, m') /\
      Fdiv opt (size_mb f) = Some q /\
      r = Result src final (size_mb f) true None (Some opt)
                 (Some (Fmul (Fsub (of_int 1) q) (of_int 100))) None) \/
  (exists out msg opt,
      r = Result src out (size_mb f) false (Some msg) (Some opt) (Some zero) None).
Proof.
  intros Hsrc. rewrite Productos_optimize_image_unfold.
  rewrite (bind_Ok _ _ _ _ _ (get_file_size_mb_file _ _ _ Hsrc)). cbv beta.
  unfold bind, with_local, try_except, on_fst, set_local, reduction, ret, raise.
  intros Hrun.
  destruct (transcode_image src dst m) as [[[[final osz] img']|e] m1] eqn:E1.
  - destruct (get_file_size_mb final m1) as [[opt|e] m2] eqn:E2;
      pose proof E2 as E2'; apply get_file_size_mb_cases in E2' as [-> _].
    + destruct (Fdiv opt (size_mb f)) as [q|] eqn:Eq.
      * injection Hrun as <- <-. left. exists final, osz, img', opt, q.
        repeat split; assumption.
      * destruct (fallback _ _ _ _) as [[[]|?] [m3 r3]] eqn:Ef; [| discriminate].
        apply fallback_inv in Ef as (opt' & ->). injection Hrun as <- <-.
        right. eexists _, _, _. reflexivity.
    + destruct (fallback _ _ _ _) as [[[]|?] [m3 r3]] eqn:Ef; [| discriminate].
      apply fallback_inv in Ef as (opt' & ->). injection Hrun as <- <-.
      right. eexists _, _, _. reflexivity.
  - destruct (fallback _ _ _ _) as [[[]|?] [m3 r3]] eqn:Ef; [| discriminate].
    apply fallback_inv in Ef as (opt' & ->). injection Hrun as <- <-.
    right. eexists _, _, _. reflexivity.
Qed.

(** The same for [optimize_video]: a success is a transcoder that exited
    with 0, after which the destination could be measured. *)
Lemma Media_optimize_video_inv (src dst : path) (f : file) (m m' : fs) (r : result) :
  node_at m src = Some (NFile f) ->
  Media.optimize_video src dst m = (Ok r, m') ->
  (exists m0 sout serr written opt q,
      mkdir_parents (parent dst) m = (Ok tt, m0) /\
      run_command (Media.ffmpeg_cmd src dst) 600 m0 = Completed 0 sout serr written /\
      m' = leave dst written m0 /\
      get_file_size_mb dst m' = (Ok opt, m') /\
      Fdiv opt (size_mb f) = Some q /\
      r = Result src dst (size_mb f) true None (Some opt)
                 (Some (Fmul (Fsub (of_int 1) q) (of_int 100))) None) \/
  (exists msg opt,
      r = Result src dst (size_mb f) false (Some msg) (Some opt) (Some zero) None).
Proof.
  intros Hsrc. rewrite Media_optimize_video_unfold.
  rewrite (bind_Ok _ _ _ _ _ (get_file_size_mb_file _ _ _ Hsrc)). cbv beta zeta.
  unfold bind, with_local, try_except, on_fst, set_local, reduction, ret, raise.
  intros Hrun.
  destruct (mkdir_parents (parent dst) m) as [[[]|e] m0] eqn:E0.
  - unfold subprocess_run in Hrun.
    destruct (run_command (Media.ffmpeg_cmd src dst) 600 m0) as [|partial|e0 written0|rc sout serr written] eqn:Er.
    + right. destruct (bool_decide _);
        destruct (fallback _ _ _ _) as [[[]|?] [m3 r3]] eqn:Ef; try discriminate;
        apply fallback_inv in Ef as (opt' & ->); injection Hrun as <- <-;
        eexists _, _; reflexivity.
    + right. destruct (bool_decide _);
        destruct (fallback _ _ _ _) as [[[]|?] [m3 r3]] eqn:Ef; try discriminate;
        apply fallback_inv in Ef as (opt' & ->); injection Hrun as <- <-;
        eexists _, _; reflexivity.
    + right. destruct (bool_decide _);
        destruct (fallback _ _ _ _) as [[[]|?] [m3 r3]] eqn:Ef; try discriminate;
        apply fallback_inv in Ef as (opt' & ->); injection Hrun as <- <-;
        eexists _, _; reflexivity.
    + destruct (captured_text sout serr) as [err|e1].
      2:{ right. destruct (bool_decide _);
            destruct (fallback _ _ _ _) as [[[]|?] [m3 r3]] eqn:Ef; try discriminate;
            apply fallback_inv in Ef as (opt' & ->); injection Hrun as <- <-;
            eexists _, _; reflexivity. }
      cbn [returncode stderr] in Hrun.
      destruct (rc =? 0) eqn:Erc; cbn [negb] in Hrun; cbv beta iota in Hrun.
      * apply Z.eqb_eq in Erc as ->.
        destruct (get_file_size_mb dst (leave dst written m0)) as [[opt|e] m2] eqn:E2;
          pose proof E2 as E2'; apply get_file_size_mb_cases in E2' as [-> _].
        -- destruct (Fdiv opt (size_mb f)) as [q|] eqn:Eq.
           ++ injection Hrun as <- <-. left. exists m0, sout, serr, written, opt, q.
              repeat split; assumption.
           ++ right. destruct (bool_decide _);
                destruct (fallback _ _ _ _) as [[[]|?] [m3 r3]] eqn:Ef; try discriminate;
                apply fallback_inv in Ef as (opt' & ->); injection Hrun as <- <-;
                eexists _, _; reflexivity.
        -- right. destruct (bool_decide _);
             destruct (fallback _ _ _ _) as [[[]|?] [m3 r3]] eqn:Ef; try discriminate;
             apply fallback_inv in Ef as (opt' & ->); injection Hrun as <- <-;
             eexists _, _; reflexivity.
      * right. destruct (bool_decide _);
          destruct (fallback _ _ _ _) as [[[]|?] [m3 r3]] eqn:Ef; try discriminate;
          apply fallback_inv in Ef as (opt' & ->); injection Hrun as <- <-;
          eexists _, _; reflexivity.
  - right. destruct (bool_decide _);
      destruct (fallback _ _ _ _) as [[[]|?] [m3 r3]] eqn:Ef; try discriminate;
      apply fallback_inv in Ef as (opt' & ->); injection Hrun as <- <-;
      eexists _, _; reflexivity.
Qed.

End ResultFacts.


(** ** Rounding keeps the order *)

Section RoundingOrder.
Local Open Scope R_scope.

Lemma bpow_cancel (a : Z) : powerRZ 2 a * powerRZ 2 (- a) = 1.
Proof. rewrite <- bpow_add. replace (a + - a)%Z with 0%Z by lia. reflexivity. Qed.

Lemma bpow_le_half (k : Z) : (k < 0)%Z -> powerRZ 2 k <= / 2.
Proof.
  intros Hk. replace k with (- (- k - 1) + - (1))%Z by lia.
  rewrite bpow_add, bpow_opp. change (powerRZ 2 (- (1))) with (/ (2 * 1)).
  rewrite Rmult_1_r, <- bpow_IZR by lia.
  assert (1 <= IZR (2 ^ (- k - 1))).
  { apply IZR_le. pose proof (Z.pow_pos_nonneg 2 (- k - 1)). lia. }
  assert (/ IZR (2 ^ (- k - 1)) <= 1).
  { rewrite <- Rinv_1. apply Rinv_le_contravar; lra. }
  lra.
Qed.

(** The nearest integer to a quotient does not cross an integer. *)
Lemma nearest_even_below (num den J : Z) :
  (0 < den)%Z -> IZR num / IZR den <= IZR J -> (nearest_even num den <= J)%Z.
Proof.
  intros Hden Hle. pose proof (nearest_even_close num den Hden) as Hc.
  apply Rabs_bounds in Hc.
  assert (IZR (nearest_even num den) < IZR (J + 1)) by (rewrite plus_IZR; lra).
  apply lt_IZR in H. lia.
Qed.

Lemma nearest_even_above (num den J : Z) :
  (0 < den)%Z -> IZR J <= IZR num / IZR den -> (J <= nearest_even num den)%Z.
Proof.
  intros Hden Hle. pose proof (nearest_even_close num den Hden) as Hc.
  apply Rabs_bounds in Hc.
  assert (IZR (J - 1) < IZR (nearest_even num den)) by (rewrite minus_IZR; lra).
  apply lt_IZR in H. lia.
Qed.

(** Rounding a quotient that is at most (at least) a number of at most 53
    bits gives a float that is at most (at least) that number. *)
Lemma round_pos_le_repr (n d K j : Z) :
  (0 < n)%Z -> (0 < d)%Z -> (0 < K < 2 ^ 53)%Z ->
  IZR n / IZR d <= IZR K * powerRZ 2 j ->
  F2R (round_pos n d) <= IZR K * powerRZ 2 j.
Proof.
  intros Hn Hd [HK0 HK1] Hle.
  destruct (round_pos_window n d Hn Hd)
    as (e & num & den & -> & _ & Hden & Hv & Hlo & _).
  rewrite bpow_52 in Hlo.
  pose proof (bpow_pos (- e)) as Pe. pose proof (bpow_pos e) as Pe'.
  apply IZR_lt in HK0, HK1. change (2 ^ 53)%Z with 9007199254740992%Z in HK1.
  assert (Ht : IZR num / IZR den <= IZR K * powerRZ 2 (j - e)).
  { rewrite Hv. replace (j - e)%Z with (j + - e)%Z by lia.
    rewrite bpow_add, <- Rmult_assoc. apply Rmult_le_compat_r; lra. }
  assert (Hje : (0 <= j - e)%Z).
  { destruct (Z.leb_spec 0 (j - e)) as [|Hneg]; [assumption | exfalso].
    pose proof (bpow_le_half _ Hneg) as Hh.
    assert (IZR K * powerRZ 2 (j - e) <= IZR K * / 2)
      by (apply Rmult_le_compat_l; lra).
    lra. }
  rewrite <- bpow_IZR, <- mult_IZR in Ht by exact Hje.
  apply nearest_even_below in Ht; [| exact Hden].
  apply IZR_le in Ht. rewrite mult_IZR, bpow_IZR in Ht by exact Hje.
  unfold F2R. simpl Fnum. simpl Fexp.
  replace (IZR K * powerRZ 2 j) with (IZR K * powerRZ 2 (j - e) * powerRZ 2 e).
  - apply Rmult_le_compat_r; lra.
  - rewrite Rmult_assoc, <- bpow_add. f_equal. f_equal. lia.
Qed.

Lemma round_pos_ge_repr (n d K j : Z) :
  (0 < n)%Z -> (0 < d)%Z -> (0 < K < 2 ^ 53)%Z ->
  IZR K * powerRZ 2 j <= IZR n / IZR d ->
  IZR K * powerRZ 2 j <= F2R (round_pos n d).
Proof.
  intros Hn Hd [HK0 HK1] Hle.
  destruct (round_pos_window n d Hn Hd)
    as (e & num & den & -> & _ & Hden & Hv & Hlo & _).
  rewrite bpow_52 in Hlo.
  pose proof (bpow_pos (- e)) as Pe. pose proof (bpow_pos e) as Pe'.
  apply IZR_lt in HK0, HK1. change (2 ^ 53)%Z with 9007199254740992%Z in HK1.
  assert (Ht : IZR K * powerRZ 2 (j - e) <= IZR num / IZR den).
  { rewrite Hv. replace (j - e)%Z with (j + - e)%Z by lia.
    rewrite bpow_add, <- Rmult_assoc. apply Rmult_le_compat_r; lra. }
  assert (Hbig : (4503599627370496 <= nearest_even num den)%Z)
    by (apply nearest_even_above; [exact Hden | exact Hlo]).
  apply IZR_le in Hbig.
  unfold F2R. simpl Fnum. simpl Fexp.
  replace (IZR K * powerRZ 2 j) with (IZR K * powerRZ 2 (j - e) * powerRZ 2 e)
    by (rewrite Rmult_assoc, <- bpow_add; f_equal; f_equal; lia).
  apply Rmult_le_compat_r; [lra |].
  destruct (Z.leb_spec 0 (j - e)) as [Hje|Hneg].
  - rewrite <- bpow_IZR, <- mult_IZR in Ht by exact Hje.
    apply nearest_even_above in Ht; [| exact Hden].
    apply IZR_le in Ht. rewrite mult_IZR, bpow_IZR in Ht by exact Hje. exact Ht.
  - pose proof (bpow_le_half _ Hneg) as Hh.
    assert (IZR K * powerRZ 2 (j - e) <= IZR K * / 2)
      by (apply Rmult_le_compat_l; lra).
    lra.
Qed.

(** The sign of a rounded quotient is the sign of its numerator. *)
Lemma round_sign (n d : Z) :
  (0 < d)%Z ->
  ((0 < n)%Z -> (0 < Fnum (round n d))%Z) /\
  (n = 0%Z -> Fnum (round n d) = 0%Z) /\
  ((n < 0)%Z -> (Fnum (round n d) < 0)%Z).
Proof.
  intros Hd. split; [| split].
  - intros Hn. rewrite round_positive by exact Hn.
    exact (proj1 (round_pos_spec n d Hn Hd)).
  - intros ->. reflexivity.
  - intros Hn. destruct n as [|p|p]; try lia. unfold round, Fopp. simpl Fnum.
    pose proof (proj1 (round_pos_spec (- Z.neg p) d ltac:(lia) Hd)). lia.
Qed.

Lemma F2R_sign (x : float) :
  ((0 <= Fnum x)%Z -> 0 <= F2R x) /\ ((Fnum x <= 0)%Z -> F2R x <= 0) /\
  (Fnum x = 0%Z -> F2R x = 0).
Proof.
  unfold F2R. pose proof (bpow_pos (Fexp x)) as P. split; [| split].
  - intros Hx. apply IZR_le in Hx. apply Rmult_le_pos; lra.
  - intros Hx. apply IZR_le in Hx.
    replace 0 with (0 * powerRZ 2 (Fexp x)) by ring.
    apply Rmult_le_compat_r; lra.
  - intros ->. ring.
Qed.

Lemma round_le_repr (n d K j : Z) :
  (0 < d)%Z -> (0 < K < 2 ^ 53)%Z ->
  IZR n / IZR d <= IZR K * powerRZ 2 j ->
  F2R (round n d) <= IZR K * powerRZ 2 j.
Proof.
  intros Hd HK Hle. destruct (Z.ltb_spec 0 n) as [Hn|Hn].
  - rewrite round_positive by exact Hn. apply round_pos_le_repr; assumption.
  - assert (Hs : (Fnum (round n d) <= 0)%Z).
    { destruct (round_sign n d Hd) as (_ & Hz & Hneg).
      destruct (Z.eq_dec n 0%Z) as [E|E]; [rewrite (Hz E); lia |].
      specialize (Hneg ltac:(lia)). lia. }
    apply (proj1 (proj2 (F2R_sign _))) in Hs.
    pose proof (bpow_pos j). destruct HK as [HK _]. apply IZR_lt in HK.
    assert (0 <= IZR K * powerRZ 2 j) by (apply Rmult_le_pos; lra). lra.
Qed.

End RoundingOrder.

(** ** The reduction in percent *)

Section ReductionFacts.
Local Open Scope R_scope.

Lemma div_le_iff (a b x : R) : 0 < b -> (a / b <= x <-> a <= x * b).
Proof.
  intros Hb. split; intros Hle.
  - replace a with (a / b * b) by (field; lra). apply Rmult_le_compat_r; lra.
  - apply Rmult_le_reg_r with b; [lra |].
    replace (a / b * b) with a by (field; lra). exact Hle.
Qed.

Lemma div_ge_iff (a b x : R) : 0 < b -> (x <= a / b <-> x * b <= a).
Proof.
  intros Hb. split; intros Hle.
  - replace a with (a / b * b) by (field; lra). apply Rmult_le_compat_r; lra.
  - apply Rmult_le_reg_r with b; [lra |].
    replace (a / b * b) with a by (field; lra). exact Hle.
Qed.

Lemma bpow_sub (a b : Z) : powerRZ 2 (a - b) = powerRZ 2 a * powerRZ 2 (- b).
Proof. replace (a - b)%Z with (a + - b)%Z by lia. apply bpow_add. Qed.

(** The quotient of a float that is not negative by a positive one. *)
Lemma Fdiv_facts (a b : float) :
  (0 <= Fnum a)%Z -> (0 < Fnum b)%Z ->
  exists q, Fdiv a b = Some q /\ (0 <= Fnum q)%Z /\
            (Fnum a = 0%Z -> Fnum q = 0%Z) /\
            (F2R a <= F2R b -> F2R q <= 1) /\
            (F2R b <= F2R a -> 1 <= F2R q).
Proof.
  intros Ha Hb. unfold Fdiv.
  assert ((Fnum b =? 0)%Z = false) as -> by (apply Z.eqb_neq; lia).
  rewrite Z.sgn_pos, Z.mul_1_r, Z.abs_eq by lia.
  eexists. split; [reflexivity |].
  destruct (round_sign (Fnum a) (Fnum b) Hb) as (Hpos & Hzero & _).
  pose proof (bpow_pos (Fexp a)) as Pa. pose proof (bpow_pos (Fexp b)) as Pb.
  pose proof (bpow_pos (- Fexp a)) as Pa'.
  pose proof (bpow_cancel (Fexp a)) as Ca.
  assert (Hmb : 0 < IZR (Fnum b)) by (apply IZR_lt; lia).
  assert (Hone : powerRZ 2 (Fexp b - Fexp a) * powerRZ 2 (Fexp a - Fexp b) = 1).
  { rewrite <- bpow_add. replace (Fexp b - Fexp a + (Fexp a - Fexp b))%Z with 0%Z by lia.
    reflexivity. }
  pose proof (bpow_pos (Fexp a - Fexp b)) as Pab.
  split; [| split; [| split]].
  - simpl Fnum. destruct (Z.eq_dec (Fnum a) 0%Z) as [E|E]; [rewrite (Hzero E); lia |].
    specialize (Hpos ltac:(lia)). lia.
  - simpl Fnum. exact Hzero.
  - intros Hle. rewrite F2R_shift. unfold F2R at 1 2 in Hle.
    assert (Hq : F2R (round (Fnum a) (Fnum b)) <= IZR 1 * powerRZ 2 (Fexp b - Fexp a)).
    { apply round_le_repr; [exact Hb | lia |].
      apply div_le_iff; [exact Hmb |].
      rewrite bpow_sub, Rmult_1_l.
      assert (IZR (Fnum a) * powerRZ 2 (Fexp a) * powerRZ 2 (- Fexp a)
              <= IZR (Fnum b) * powerRZ 2 (Fexp b) * powerRZ 2 (- Fexp a))
        by (apply Rmult_le_compat_r; lra).
      rewrite Rmult_assoc, Ca in H. lra. }
    rewrite Rmult_1_l in Hq.
    rewrite <- Hone. apply Rmult_le_compat_r; lra.
  - intros Hle. rewrite F2R_shift. unfold F2R at 1 2 in Hle.
    assert (Hma : (0 < Fnum a)%Z).
    { destruct (Z.eq_dec (Fnum a) 0%Z) as [E|E]; [| lia].
      rewrite E in Hle. assert (0 < IZR (Fnum b) * powerRZ 2 (Fexp b))
        by (apply Rmult_lt_0_compat; lra). lra. }
    rewrite round_positive by exact Hma.
    assert (Hq : IZR 1 * powerRZ 2 (Fexp b - Fexp a) <= F2R (round_pos (Fnum a) (Fnum b))).
    { apply round_pos_ge_repr; [exact Hma | exact Hb | lia |].
      apply div_ge_iff; [exact Hmb |].
      rewrite bpow_sub, Rmult_1_l.
      assert (IZR (Fnum b) * powerRZ 2 (Fexp b) * powerRZ 2 (- Fexp a)
              <= IZR (Fnum a) * powerRZ 2 (Fexp a) * powerRZ 2 (- Fexp a))
        by (apply Rmult_le_compat_r; lra).
      rewrite (Rmult_assoc (IZR (Fnum a))), Ca in H. lra. }
    rewrite Rmult_1_l in Hq.
    rewrite <- Hone. apply Rmult_le_compat_r; lra.
Qed.

Lemma of_int_1 : of_int 1 = Float 4503599627370496 (-52).
Proof. vm_compute. reflexivity. Qed.

Lemma of_int_100 : of_int 100 = Float 7036874417766400 (-46).
Proof. vm_compute. reflexivity. Qed.

Lemma F2R_one : F2R (Float 4503599627370496 (-52)) = 1.
Proof.
  unfold F2R. simpl Fnum. simpl Fexp. change (-52)%Z with (Z.opp 52).
  rewrite bpow_opp, bpow_52. field.
Qed.

Lemma bpow_46 : powerRZ 2 46 = 70368744177664.
Proof. simpl. lra. Qed.

Lemma F2R_hundred : F2R (Float 7036874417766400 (-46)) = 100.
Proof.
  unfold F2R. simpl Fnum. simpl Fexp. change (-46)%Z with (Z.opp 46).
  rewrite bpow_opp, bpow_46. field.
Qed.

Lemma F2R_Fopp (x : float) : F2R (Fopp x) = - F2R x.
Proof. unfold F2R, Fopp. simpl. rewrite opp_IZR. ring. Qed.

(** [1 - q] for a [q] that is not negative. *)
Lemma one_minus_facts (q : float) :
  (0 <= Fnum q)%Z ->
  F2R (Fsub (of_int 1) q) <= 1 /\
  (F2R q <= 1 -> (0 <= Fnum (Fsub (of_int 1) q))%Z) /\
  (1 <= F2R q -> (Fnum (Fsub (of_int 1) q) <= 0)%Z) /\
  (Fnum q = 0%Z -> F2R (Fsub (of_int 1) q) = 1).
Proof.
  intros Hq. rewrite of_int_1. unfold Fsub, Fadd.
  destruct (align (Float 4503599627370496 (-52)) (Fopp q)) as [[mx my] e] eqn:Ea.
  destruct (align_value _ _ _ _ _ Ea) as [Hx Hy].
  rewrite F2R_one in Hx. rewrite F2R_Fopp in Hy.
  pose proof (bpow_pos e) as Pe. pose proof (bpow_pos (- e)) as Pe'.
  pose proof (bpow_cancel e) as Ce.
  pose proof (proj1 (F2R_sign q) Hq) as Hq0.
  assert (Hsum : IZR (mx + my) * powerRZ 2 e = 1 - F2R q)
    by (rewrite plus_IZR; lra).
  destruct (round_sign (mx + my) 1 ltac:(lia)) as (Hpos & Hzero & Hneg).
  assert (Hsign : forall v : R, IZR (mx + my) * powerRZ 2 e = v ->
                    (0 <= v -> (0 <= mx + my)%Z) /\ (v <= 0 -> (mx + my <= 0)%Z)).
  { intros v Hv. split; intros Hv0.
    - apply le_IZR. apply Rmult_le_reg_r with (powerRZ 2 e); lra.
    - apply le_IZR. apply Rmult_le_reg_r with (powerRZ 2 e); lra. }
  destruct (Hsign _ Hsum) as [Hs1 Hs2].
  assert (Hnn : forall k : Z, (0 <= k)%Z -> (0 <= Fnum (round k 1))%Z).
  { intros k Hk. destruct (round_sign k 1 ltac:(lia)) as (Hp & Hz & _).
    destruct (Z.eq_dec k 0%Z) as [E|E]; [rewrite (Hz E); lia |].
    specialize (Hp ltac:(lia)). lia. }
  assert (Hnp : forall k : Z, (k <= 0)%Z -> (Fnum (round k 1) <= 0)%Z).
  { intros k Hk. destruct (round_sign k 1 ltac:(lia)) as (_ & Hz & Hn).
    destruct (Z.eq_dec k 0%Z) as [E|E]; [rewrite (Hz E); lia |].
    specialize (Hn ltac:(lia)). lia. }
  assert (Hup : F2R (round (mx + my) 1) <= IZR 1 * powerRZ 2 (- e)).
  { apply round_le_repr; [lia | lia |].
    rewrite Rdiv_1_r, Rmult_1_l.
    assert (IZR (mx + my) * powerRZ 2 e * powerRZ 2 (- e) <= 1 * powerRZ 2 (- e))
      by (apply Rmult_le_compat_r; lra).
    rewrite Rmult_assoc, Ce in H. lra. }
  rewrite Rmult_1_l in Hup.
  split; [| split; [| split]].
  - rewrite F2R_shift. apply Rle_trans with (powerRZ 2 (- e) * powerRZ 2 e);
      [apply Rmult_le_compat_r; lra | rewrite Rmult_comm, Ce; lra].
  - intros Hle. simpl Fnum. apply Hnn. apply Hs1. lra.
  - intros Hle. simpl Fnum. apply Hnp. apply Hs2. lra.
  - intros Hz. rewrite (proj2 (proj2 (F2R_sign q)) Hz) in Hsum.
    assert (Hm : (0 < mx + my)%Z).
    { apply lt_IZR. apply Rmult_lt_reg_r with (powerRZ 2 e); lra. }
    rewrite F2R_shift, round_positive by exact Hm.
    assert (Hlow : IZR 1 * powerRZ 2 (- e) <= F2R (round_pos (mx + my) 1)).
    { apply round_pos_ge_repr; [exact Hm | lia | lia |].
      rewrite Rdiv_1_r, Rmult_1_l.
      assert (IZR (mx + my) * powerRZ 2 e * powerRZ 2 (- e) = 1 * powerRZ 2 (- e))
        by (rewrite Hsum; ring).
      rewrite Rmult_assoc, Ce in H. lra. }
    rewrite Rmult_1_l in Hlow. rewrite round_positive in Hup by exact Hm.
    assert (F2R (round_pos (mx + my) 1) = powerRZ 2 (- e)) as -> by lra.
    rewrite Rmult_comm. exact Ce.
Qed.

(** [s * 100]. *)
Lemma times_100_facts (s : float) :
  (F2R s <= 1 -> F2R (Fmul s (of_int 100)) <= 100) /\
  ((0 <= Fnum s)%Z -> (0 <= Fnum (Fmul s (of_int 100)))%Z) /\
  ((Fnum s <= 0)%Z -> (Fnum (Fmul s (of_int 100)) <= 0)%Z) /\
  (F2R s = 1 -> F2R (Fmul s (of_int 100)) = 100).
Proof.
  rewrite of_int_100. unfold Fmul. simpl Fnum. simpl Fexp.
  set (M := 7036874417766400%Z).
  pose proof (bpow_pos (Fexp s)) as Ps. pose proof (bpow_pos (- Fexp s)) as Ps'.
  pose proof (bpow_cancel (Fexp s)) as Cs.
  destruct (round_sign (Fnum s * M) 1 ltac:(lia)) as (Hpos & Hzero & Hneg).
  assert (HM : 0 < IZR M) by (apply IZR_lt; reflexivity).
  assert (Hval : powerRZ 2 (- Fexp s) * powerRZ 2 (Fexp s + -46) = powerRZ 2 (-46)).
  { rewrite <- bpow_add. f_equal. lia. }
  assert (H100 : IZR M * powerRZ 2 (-46) = 100) by exact F2R_hundred.
  assert (Hle1 : F2R s <= 1 ->
                 F2R (round (Fnum s * M) 1) <= IZR M * powerRZ 2 (- Fexp s)).
  { intros Hs. apply round_le_repr; [lia | unfold M; lia |].
    rewrite Rdiv_1_r, mult_IZR. unfold F2R in Hs.
    assert (IZR (Fnum s) * powerRZ 2 (Fexp s) * powerRZ 2 (- Fexp s)
            <= 1 * powerRZ 2 (- Fexp s)) by (apply Rmult_le_compat_r; lra).
    rewrite Rmult_assoc, Cs in H.
    rewrite (Rmult_comm (IZR (Fnum s))). apply Rmult_le_compat_l; lra. }
  pose proof (bpow_pos (Fexp s + -46)) as Pv.
  split; [| split; [| split]].
  - intros Hs. rewrite F2R_shift. rewrite <- H100, <- Hval, <- Rmult_assoc.
    apply Rmult_le_compat_r; [lra | exact (Hle1 Hs)].
  - intros Hs. destruct (Z.eq_dec (Fnum s) 0%Z) as [E|E].
    + rewrite Hzero by (rewrite E; reflexivity). lia.
    + specialize (Hpos ltac:(unfold M; lia)). lia.
  - intros Hs. destruct (Z.eq_dec (Fnum s) 0%Z) as [E|E].
    + rewrite Hzero by (rewrite E; reflexivity). lia.
    + specialize (Hneg ltac:(unfold M; lia)). lia.
  - intros Hs. pose proof (Hle1 ltac:(lra)) as Hup.
    assert (Hms : (0 < Fnum s)%Z).
    { apply lt_IZR. unfold F2R in Hs. apply Rmult_lt_reg_r with (powerRZ 2 (Fexp s)); lra. }
    assert (Hm : (0 < Fnum s * M)%Z) by (unfold M; lia).
    rewrite round_positive in Hup |- * by exact Hm.
    assert (Hlow : IZR M * powerRZ 2 (- Fexp s) <= F2R (round_pos (Fnum s * M) 1)).
    { apply round_pos_ge_repr; [exact Hm | lia | unfold M; lia |].
      rewrite Rdiv_1_r, mult_IZR. unfold F2R in Hs.
      assert (IZR (Fnum s) * powerRZ 2 (Fexp s) * powerRZ 2 (- Fexp s)
              = 1 * powerRZ 2 (- Fexp s)) by (rewrite Hs; ring).
      rewrite Rmult_assoc, Cs in H.
      rewrite (Rmult_comm (IZR (Fnum s))). apply Rmult_le_compat_l; lra. }
    rewrite F2R_shift.
    assert (F2R (round_pos (Fnum s * M) 1) = IZR M * powerRZ 2 (- Fexp s)) as -> by lra.
    rewrite Rmult_assoc, Hval. exact H100.
Qed.

(** [(1 - optimized / original) * 100] for sizes: at most 100, not negative
    when the optimized size is at most the original, not positive when it is
    at least the original, and 100 when the optimized size is 0. *)
Lemma reduction_facts {S : Type} (a b : float) (s : S) :
  (0 <= Fnum a)%Z -> (0 < Fnum b)%Z ->
  exists x, reduction a b s = (Ok x, s) /\
            F2R x <= 100 /\
            (F2R a <= F2R b -> 0 <= F2R x) /\
            (F2R b <= F2R a -> F2R x <= 0) /\
            (Fnum a = 0%Z -> F2R x = 100).
Proof.
  intros Ha Hb.
  destruct (Fdiv_facts a b Ha Hb) as (q & Eq & Hq & Hq0 & Hq1 & Hq2).
  unfold reduction. rewrite Eq. eexists. split; [reflexivity |].
  destruct (one_minus_facts q Hq) as (Hs1 & Hs2 & Hs3 & Hs4).
  destruct (times_100_facts (Fsub (of_int 1) q)) as (Hx1 & Hx2 & Hx3 & Hx4).
  split; [| split; [| split]].
  - exact (Hx1 Hs1).
  - intros Hle. apply (proj1 (F2R_sign _)). apply Hx2, Hs2, Hq1, Hle.
  - intros Hle. apply (proj1 (proj2 (F2R_sign _))). apply Hx3, Hs3, Hq2, Hle.
  - intros Hz. apply Hx4, Hs4, Hq0, Hz.
Qed.

End ReductionFacts.

(** ** Sizes in MB *)

Section SizeFacts.
Local Open Scope R_scope.

Lemma size_mb_nonneg (f : file) : (0 <= Fnum (size_mb f))%Z.
Proof.
  unfold size_mb. set (n := Z.of_nat (length (f_bytes f))).
  destruct (round_sign n (1024 * 1024) ltac:(lia)) as (Hpos & Hzero & _).
  destruct (Z.eq_dec n 0%Z) as [E|E]; [rewrite (Hzero E); lia |].
  specialize (Hpos ltac:(lia)). lia.
Qed.

(** Below [2^53] bytes the size in MB is the exact quotient. *)
Lemma size_mb_exact (f : file) :
  (Z.of_nat (length (f_bytes f)) < 2 ^ 53)%Z ->
  F2R (size_mb f) = IZR (Z.of_nat (length (f_bytes f))) / 1048576 /\
  (Fnum (size_mb f) = 0%Z <-> f_bytes f = []).
Proof.
  intros Hlt. unfold size_mb. set (n := Z.of_nat (length (f_bytes f))) in *.
  change (1024 * 1024)%Z with 1048576%Z.
  destruct (round_sign n 1048576 ltac:(lia)) as (Hpos & Hzero & _).
  destruct (Z.eq_dec n 0%Z) as [E|E].
  - split.
    + rewrite E. unfold round, zero, F2R. simpl. lra.
    + split; [intros _ | intros _; exact (Hzero E)].
      destruct (f_bytes f); [reflexivity | discriminate E].
  - assert (Hn : (0 < n)%Z) by lia. split.
    + rewrite round_positive by exact Hn.
      assert (Hq : IZR n / IZR 1048576 = IZR n * powerRZ 2 (-20)).
      { change (-20)%Z with (Z.opp 20). rewrite bpow_opp.
        change (powerRZ 2 20) with (IZR 2 ^ 20)%R. simpl. lra. }
      pose proof (round_pos_le_repr n 1048576 n (-20) Hn ltac:(lia) ltac:(lia)
                    ltac:(rewrite Hq; lra)) as Hup.
      pose proof (round_pos_ge_repr n 1048576 n (-20) Hn ltac:(lia) ltac:(lia)
                    ltac:(rewrite Hq; lra)) as Hlow.
      rewrite Hq. lra.
    + specialize (Hpos Hn). split; [lia |].
      intros Hempty. unfold n in E. rewrite Hempty in E. contradiction E. reflexivity.
Qed.

Lemma size_eqb_refl (a : Z * Z) : size_eqb a a = true.
Proof. unfold size_eqb. rewrite !Z.eqb_refl. reflexivity. Qed.

End SizeFacts.


(** ** The statistics of the loop *)

Section LoopStatistics.
Context `{Platform} `{ImageLib} `{Subprocess}.

Lemma count_cons {A : Type} (test : A -> bool) (x : A) (xs : list A) :
  count test (x :: xs) = (if test x then 1 else 0) + count test xs.
Proof. unfold count. simpl. destruct (test x); simpl length; lia. Qed.

Lemma count_nil {A : Type} (test : A -> bool) : count test [] = 0.
Proof. reflexivity. Qed.

Lemma count_nonneg {A : Type} (test : A -> bool) (xs : list A) : 0 <= count test xs.
Proof. unfold count. lia. Qed.

Lemma extension_sets_disjoint : IMAGE_EXTENSIONS ∩ Media.VIDEO_EXTENSIONS = ∅.
Proof. refine (bool_decide_unpack _ _). vm_compute. exact I. Qed.

Lemma image_is_no_video (f : path) : is_image f = true -> is_video f = false.
Proof.
  unfold is_image, is_video. intros Hi. apply bool_decide_eq_true in Hi.
  apply bool_decide_eq_false. intros Hv.
  assert (Hboth : suffix f ∈ IMAGE_EXTENSIONS ∩ Media.VIDEO_EXTENSIONS)
    by (apply elem_of_intersection; split; assumption).
  rewrite extension_sets_disjoint in Hboth. exact (not_elem_of_empty _ Hboth).
Qed.

(** The three [+=] and the report of one result. *)
Lemma count_and_report (r : result) (c c2 : cat_stats) (w w' : world) :
  (let* c1 := count_result r c in report_result r c1) w = (Ok c2, w') ->
  exists l, w' = World (w_fs w) (w_out w ++ [l]) /\ result_line l /\
            processed c2 = processed c + 1 /\
            errors c2 = errors c + (if is_failed l then 1 else 0).
Proof.
  intros Hrun. apply bind_Ok_inv in Hrun as (c1 & w1 & Hc & Hr).
  pose proof (count_result_inv _ _ _ _ _ Hc) as ->.
  assert (Hc1 : processed c1 = processed c + 1 /\ errors c1 = errors c).
  { unfold count_result, getitem, bind, ret, raise in Hc.
    destruct (optimized_size_mb r); [| discriminate Hc].
    injection Hc as Hc. subst c1. split; reflexivity. }
  destruct Hc1 as [Hp He].
  unfold report_result, getitem, bind, ret, raise, print, modify, result_line in *.
  destruct (success r).
  - destruct (optimized_size_mb r) as [opt|]; [| discriminate].
    destruct (reduction_percent r) as [red|]; [| discriminate].
    injection Hr as <- <-. exists (LDone (original_size_mb r) opt red).
    simpl. repeat split; eauto; lia.
  - injection Hr as <- <-. exists (LFailed (error r)).
    simpl. repeat split; eauto. lia.
Qed.

(** One pass of the loop of the media script. *)
Lemma Media_process_file_stats (n i : nat) (f : path) (st st' : Media.stats)
    (w w' : world) :
  Media.process_file n (i, f) st w = (Ok st', w') ->
  exists rel l,
    w_out w' = w_out w ++ [LProgress i n rel; l] /\
    (if is_image f then
       result_line l /\
       processed (Media.images st') = processed (Media.images st) + 1 /\
       errors (Media.images st')
       = errors (Media.images st) + (if is_failed l then 1 else 0) /\
       Media.videos st' = Media.videos st
     else if is_video f then
       result_line l /\
       processed (Media.videos st') = processed (Media.videos st) + 1 /\
       errors (Media.videos st')
       = errors (Media.videos st) + (if is_failed l then 1 else 0) /\
       Media.images st' = Media.images st
     else l = LCopied /\ st' = st).
Proof.
  unfold Media.process_file. intros Hrun.
  apply bind_Ok_inv in Hrun as (rel & w1 & Hrel & Hrun).
  apply lift_inv in Hrel as [Hrel ->].
  apply bind_Ok_inv in Hrun as ([] & w1 & Hp & Hrun).
  rewrite print_eq in Hp. injection Hp as <-.
  exists rel. unfold is_image, is_video.
  destruct (bool_decide (suffix f ∈ IMAGE_EXTENSIONS)).
  - apply bind_Ok_inv in Hrun as (r & w2 & Hopt & Hrun).
    apply in_fs_inv in Hopt as [_ Hout].
    destruct (count_result r (Media.images st) w2) as [[c1|e] w3] eqn:Hc;
      [| unfold bind in Hrun; rewrite Hc in Hrun; discriminate].
    destruct (report_result r c1 w3) as [[c2|e] w4] eqn:Hr;
      [| unfold bind in Hrun; rewrite Hc, Hr in Hrun; discriminate].
    assert (Hboth : (let* c1 := count_result r (Media.images st) in
                     report_result r c1)%monad w2 = (Ok c2, w4))
      by (unfold bind; rewrite Hc; exact Hr).
    unfold bind in Hrun. rewrite Hc, Hr in Hrun. injection Hrun as <- <-.
    apply count_and_report in Hboth as (l & -> & Hl & Hp & He).
    exists l. simpl. rewrite Hout. simpl. rewrite <- app_assoc. auto.
  - destruct (bool_decide (suffix f ∈ Media.VIDEO_EXTENSIONS)).
    + apply bind_Ok_inv in Hrun as (r & w2 & Hopt & Hrun).
      apply in_fs_inv in Hopt as [_ Hout].
      destruct (count_result r (Media.videos st) w2) as [[c1|e] w3] eqn:Hc;
        [| unfold bind in Hrun; rewrite Hc in Hrun; discriminate].
      destruct (report_result r c1 w3) as [[c2|e] w4] eqn:Hr;
        [| unfold bind in Hrun; rewrite Hc, Hr in Hrun; discriminate].
      assert (Hboth : (let* c1 := count_result r (Media.videos st) in
                       report_result r c1)%monad w2 = (Ok c2, w4))
        by (unfold bind; rewrite Hc; exact Hr).
      unfold bind in Hrun. rewrite Hc, Hr in Hrun. injection Hrun as <- <-.
      apply count_and_report in Hboth as (l & -> & Hl & Hp & He).
      exists l. simpl. rewrite Hout. simpl. rewrite <- app_assoc. auto.
    + apply bind_Ok_inv in Hrun as ([] & w2 & Hmk & Hrun).
      apply in_fs_inv in Hmk as [_ Hout2].
      apply bind_Ok_inv in Hrun as ([] & w3 & Hcp & Hrun).
      apply in_fs_inv in Hcp as [_ Hout3].
      apply bind_Ok_inv in Hrun as ([] & w4 & Hp & Hrun).
      rewrite print_eq in Hp. injection Hp as <-.
      injection Hrun as <- <-. exists LCopied. simpl.
      rewrite Hout3, Hout2. simpl. rewrite <- app_assoc. auto.
Qed.

Lemma Productos_process_file_stats (n i : nat) (f : path) (st st' : cat_stats)
    (w w' : world) :
  Productos.process_file n (i, f) st w = (Ok st', w') ->
  exists rel l,
    w_out w' = w_out w ++ [LProgress i n rel; l] /\
    result_line l /\
    processed st' = processed st + 1 /\
    errors st' = errors st + (if is_failed l then 1 else 0).
Proof.
  unfold Productos.process_file. intros Hrun.
  apply bind_Ok_inv in Hrun as (rel & w1 & Hrel & Hrun).
  apply lift_inv in Hrel as [Hrel ->].
  apply bind_Ok_inv in Hrun as ([] & w1 & Hp & Hrun).
  rewrite print_eq in Hp. injection Hp as <-.
  apply bind_Ok_inv in Hrun as (r & w2 & Hopt & Hrun).
  apply in_fs_inv in Hopt as [_ Hout].
  apply count_and_report in Hrun as (l & -> & Hl & Hp & He).
  exists rel, l. simpl. rewrite Hout. simpl. rewrite <- app_assoc. auto.
Qed.

(** The loop of the media script, over files numbered from [i]. *)
Lemma Media_loop_stats (n : nat) (files : list path) :
  forall (i : nat) (st st' : Media.stats) (w w' : world),
    for_each (combine (seq i (length files)) files) (Media.process_file n) st w
    = (Ok st', w') ->
    exists lines,
      w_out w' = w_out w ++ lines /\
      processed (Media.images st')
      = processed (Media.images st) + count is_image files /\
      processed (Media.videos st')
      = processed (Media.videos st)
        + count (fun f => negb (is_image f) && is_video f) files /\
      count is_copied lines = count (fun f => negb (is_media f)) files /\
      errors (Media.images st') + errors (Media.videos st')
      = errors (Media.images st) + errors (Media.videos st) + count is_failed lines /\
      errors (Media.images st) <= errors (Media.images st')
      <= errors (Media.images st) + count is_image files /\
      errors (Media.videos st) <= errors (Media.videos st')
      <= errors (Media.videos st)
         + count (fun f => negb (is_image f) && is_video f) files.
Proof.
  induction files as [|f files IH]; intros i st st' w w' Hrun.
  - injection Hrun as <- <-. exists []. rewrite app_nil_r, !count_nil.
    split; [reflexivity | lia].
  - simpl in Hrun. apply bind_Ok_inv in Hrun as (st1 & w1 & Hstep & Hrest).
    apply Media_process_file_stats in Hstep as (rel & l & Hout & Hcase).
    apply IH in Hrest as (lines & Hout' & Hi & Hv & Hc & He & Hei & Hev).
    exists (LProgress i n rel :: l :: lines).
    split; [rewrite Hout', Hout, <- app_assoc; reflexivity |].
    rewrite !count_cons. cbv beta.
    assert (Em : is_media f = is_image f || is_video f) by reflexivity. rewrite Em.
    simpl (is_copied (LProgress _ _ _)). simpl (is_failed (LProgress _ _ _)).
    destruct (is_image f) eqn:Ei.
    + destruct Hcase as (Hl & Hp1 & He1 & Hv1). rewrite Hv1 in *.
      assert (is_copied l = false) as ->
        by (destruct Hl as [(? & ? & ? & ->)|(? & ->)]; reflexivity).
      simpl negb. simpl andb. simpl orb. cbv iota.
      destruct (is_failed l); lia.
    + destruct (is_video f) eqn:Ev.
      * destruct Hcase as (Hl & Hp1 & He1 & Hi1). rewrite Hi1 in *.
        assert (is_copied l = false) as ->
          by (destruct Hl as [(? & ? & ? & ->)|(? & ->)]; reflexivity).
        simpl negb. simpl andb. simpl orb. cbv iota.
        destruct (is_failed l); lia.
      * destruct Hcase as [-> ->]. simpl. lia.
Qed.

Lemma Productos_loop_stats (n : nat) (files : list path) :
  forall (i : nat) (st st' : cat_stats) (w w' : world),
    for_each (combine (seq i (length files)) files) (Productos.process_file n) st w
    = (Ok st', w') ->
    exists lines,
      w_out w' = w_out w ++ lines /\
      processed st' = processed st + Z.of_nat (length files) /\
      errors st' = errors st + count is_failed lines /\
      errors st <= errors st' <= errors st + Z.of_nat (length files).
Proof.
  induction files as [|f files IH]; intros i st st' w w' Hrun.
  - injection Hrun as <- <-. exists []. rewrite app_nil_r, !count_nil. simpl.
    split; [reflexivity | lia].
  - simpl in Hrun. apply bind_Ok_inv in Hrun as (st1 & w1 & Hstep & Hrest).
    apply Productos_process_file_stats in Hstep as (rel & l & Hout & Hl & Hp1 & He1).
    apply IH in Hrest as (lines & Hout' & Hp & He & Hb).
    exists (LProgress i n rel :: l :: lines).
    split; [rewrite Hout', Hout, <- app_assoc; reflexivity |].
    rewrite !count_cons. simpl (is_failed (LProgress _ _ _)).
    simpl length. destruct (is_failed l); lia.
Qed.


Lemma count_video_only (files : list path) :
  count (fun f => negb (is_image f) && is_video f) files = count is_video files.
Proof.
  induction files as [|f files IH]; [reflexivity |].
  rewrite !count_cons, IH. destruct (is_image f) eqn:Ei; [| reflexivity].
  rewrite (image_is_no_video _ Ei). reflexivity.
Qed.

Lemma count_partition (files : list path) :
  count is_image files + count is_video files
  + count (fun f => negb (is_media f)) files = Z.of_nat (length files).
Proof.
  induction files as [|f files IH]; [reflexivity |].
  rewrite !count_cons. cbv beta.
  assert (Em : is_media f = is_image f || is_video f) by reflexivity. rewrite Em.
  simpl length. destruct (is_image f) eqn:Ei.
  - rewrite (image_is_no_video _ Ei). simpl. lia.
  - destruct (is_video f); simpl; lia.
Qed.

End LoopStatistics.

(** ** More facts about names and suffixes *)

Section NameFacts.
Local Open Scope nat_scope.

Lemma substring_0_ge (s : string) : forall n : nat,
  String.length s <= n -> substring 0 n s = s.
Proof.
  induction s as [|c s IH]; intros [|n] Hn; simpl in *; try lia; try reflexivity.
  rewrite IH by lia. reflexivity.
Qed.

Lemma substring_prefix_append (s t : string) :
  substring 0 (String.length s) (String.append s t) = s.
Proof.
  induction s as [|c s IH]; simpl.
  - destruct t; reflexivity.
  - rewrite IH. reflexivity.
Qed.

Lemma append_nonempty (s t : string) : s <> ""%string -> String.append s t <> ""%string.
Proof. destruct s; [contradiction | discriminate]. Qed.

(** A name that ends in a dot and an extension without dots, after a stem
    that is not empty, has that extension as its suffix. *)
Lemma suffix_of_dotted_name (d : path) (stem t : string) :
  stem <> ""%string -> t <> ""%string -> has_char "." t = false ->
  suffix (d ++ [String.append stem (String "." t)]) = String "." t.
Proof.
  intros Hstem Ht Hdot. unfold suffix. rewrite name_snoc.
  rewrite rfind_last by exact Hdot. rewrite append_length.
  assert (0 < String.length stem) by (destruct stem; [congruence | simpl; lia]).
  assert (0 < String.length t) by (destruct t; [congruence | simpl; lia]).
  replace (0 <? String.length stem) with true by (symmetry; apply Nat.ltb_lt; lia).
  replace (String.length stem <? String.length stem + String.length (String "." t) - 1)
    with true by (symmetry; apply Nat.ltb_lt; simpl; lia).
  simpl andb. cbv iota.
  replace (String.length stem + String.length (String "." t) - String.length stem)
    with (String.length (String "." t)) by lia.
  rewrite substring_skip. apply substring_0_all.
Qed.

(** Every image extension is a dot and letters. *)
Lemma image_extension_shape (ext : string) :
  ext ∈ IMAGE_EXTENSIONS ->
  exists t, ext = String "." t /\ t <> ""%string /\ has_char "." t = false.
Proof.
  unfold IMAGE_EXTENSIONS. intros Hext.
  repeat (apply elem_of_union in Hext as [Hext|Hext]);
    apply elem_of_singleton in Hext; subst ext;
    eexists; (split; [reflexivity |]); (split; [discriminate | reflexivity]).
Qed.

(** Replacing the suffix of [stem + ext] by [.webp] gives [stem + .webp]. *)
Lemma with_suffix_of_image_name (d : path) (stem ext : string) :
  stem <> ""%string -> ext ∈ IMAGE_EXTENSIONS ->
  suffix (d ++ [String.append stem ext]) = ext /\
  with_suffix (d ++ [String.append stem ext]) ".webp"
  = Ok (d ++ [String.append stem ".webp"]).
Proof.
  intros Hstem Hext. destruct (image_extension_shape _ Hext) as (t & -> & Ht & Hdot).
  pose proof (suffix_of_dotted_name d stem t Hstem Ht Hdot) as Hsuf.
  split; [exact Hsuf |].
  unfold with_suffix. change (invalid_suffix ".webp") with false. cbv iota zeta.
  rewrite Hsuf, name_snoc, parent_snoc.
  assert (String.eqb (String.append stem (String "." t)) "" = false) as ->
    by (apply String.eqb_neq, append_nonempty; exact Hstem).
  rewrite append_length.
  replace (String.length stem + String.length (String "." t) - String.length (String "." t))
    with (String.length stem) by lia.
  rewrite substring_prefix_append. reflexivity.
Qed.

End NameFacts.

(** ** Steps of [optimize_video] *)

Section VideoSteps.
Context `{Platform} `{ImageLib} `{Subprocess}.




End VideoSteps.

(** ** Where the verbatim copies end up *)

Section Mirror.
Context `{Platform} `{ImageLib} `{Subprocess}.

Lemma walkable_inv (m : fs) (root q : path) :
  walkable m root q = true ->
  root `prefix_of` q /\ (length root < length q)%nat /\
  forall k, (length root <= k < length q)%nat -> is_dir_in m (take k q) = true.
Proof.
  unfold walkable. intros Hw.
  apply andb_true_iff in Hw as [Hw Hdirs]. apply andb_true_iff in Hw as [Hpre Hlen].
  apply bool_decide_eq_true in Hpre. apply Nat.ltb_lt in Hlen.
  split; [exact Hpre |]. split; [exact Hlen |].
  intros k Hk. rewrite forallb_forall in Hdirs. apply Hdirs. apply in_seq. lia.
Qed.

(** A regular file is not on the way to a path that can be walked to. *)
Lemma file_not_above (m : fs) (root p q : path) :
  walkable m root q = true -> is_file_in m p = true ->
  (length root <= length p)%nat -> p `prefix_of` q -> p = q.
Proof.
  intros Hw Hfile Hlen [t ->].
  destruct t as [|c t]; [rewrite app_nil_r; reflexivity | exfalso].
  destruct (walkable_inv _ _ _ Hw) as (_ & _ & Hdirs).
  specialize (Hdirs (length p)). rewrite length_app in Hdirs. simpl in Hdirs.
  specialize (Hdirs ltac:(lia)). rewrite take_app_length in Hdirs.
  unfold is_dir_in, is_file_in in *. destruct (node_at m p) as [[?|]|]; discriminate.
Qed.

Lemma name_app (d rel : path) : rel <> [] -> name (d ++ rel) = name rel.
Proof.
  intros Hrel. unfold name. destruct rel as [|c rel] using rev_ind; [contradiction |].
  rewrite app_assoc, !last_last. reflexivity.
Qed.

Lemma suffix_app (d rel : path) : rel <> [] -> suffix (d ++ rel) = suffix rel.
Proof. intros Hrel. unfold suffix. rewrite (name_app _ _ Hrel). reflexivity. Qed.

Lemma webp_is_an_image_extension : ".webp"%string ∈ IMAGE_EXTENSIONS.
Proof. refine (bool_decide_unpack _ _). vm_compute. exact I. Qed.

(** The mirrored destination of a file that is no image and no video is no
    target of the processing of another listed file. *)
Lemma mirrored_path_is_no_foreign_target (m0 : fs) (src out rel_p rel_q : path) :
  walkable m0 src (src ++ rel_p) = true -> is_file_in m0 (src ++ rel_p) = true ->
  walkable m0 src (src ++ rel_q) = true -> is_file_in m0 (src ++ rel_q) = true ->
  rel_p <> rel_q -> is_media (src ++ rel_p) = false ->
  ~ image_targets (src ++ rel_q) (join out rel_q) (join out rel_p).
Proof.
  intros Hwp Hfp Hwq Hfq Hne Hmedia. unfold join.
  assert (Hp : rel_p <> []).
  { intros ->. apply walkable_inv in Hwp as (_ & Hlen & _).
    rewrite app_nil_r in Hlen. lia. }
  assert (Hq : rel_q <> []).
  { intros ->. apply walkable_inv in Hwq as (_ & Hlen & _).
    rewrite app_nil_r in Hlen. lia. }
  intros [Hpre|[Hsuf|Hin]].
  - apply prefix_app_inv in Hpre.
    assert (src ++ rel_p = src ++ rel_q) as E.
    { apply (file_not_above m0 src); [exact Hwq | exact Hfp | rewrite length_app; lia |].
      apply prefix_app. exact Hpre. }
    apply app_inv_head in E. contradiction.
  - apply with_suffix_webp in Hsuf as (Hs & _ & _).
    rewrite (suffix_app _ _ Hp) in Hs.
    unfold is_media in Hmedia. apply orb_false_iff in Hmedia as [Hi _].
    apply bool_decide_eq_false in Hi. apply Hi.
    rewrite (suffix_app _ _ Hp), Hs. exact webp_is_an_image_extension.
  - rewrite <- app_assoc in Hin. apply app_inv_head in Hin.
    assert (src ++ rel_q = src ++ rel_p) as E.
    { apply (file_not_above m0 src); [exact Hwp | exact Hfq | rewrite length_app; lia |].
      rewrite Hin, app_assoc. apply prefix_app_r. reflexivity. }
    apply app_inv_head in E. congruence.
Qed.

(** One pass of the media loop changes the targets of its file only. *)
Lemma confined_Media_process_file_targets (n i : nat) (q rel : path) (st : Media.stats) :
  relative_to q Media.SOURCE_DIR = Ok rel ->
  confined (image_targets q (join Media.OUTPUT_DIR rel)) w_fs
           (Media.process_file n (i, q) st).
Proof.
  intros Hrel. unfold Media.process_file.
  apply (confined_bind_ok _ _ (fun rel' => rel' = rel));
    [apply confined_lift | intros s rel' s1 [= Hr _]; congruence |].
  intros rel' ->. confine.
  - apply confined_Media_optimize_image.
  - apply confined_count_result.
  - apply confined_report_result.
  - eapply confined_weaken; [| apply confined_Media_optimize_video].
    intros p [Hp|Hp]; [left | right; right]; exact Hp.
  - apply confined_count_result.
  - apply confined_report_result.
  - apply confined_mkdir_parents. intros p Hp. left.
    etrans; [exact Hp | apply prefix_of_parent].
  - apply confined_copy2; [left; reflexivity | right; right; reflexivity].
Qed.

Section OneFile.
Variables (m0 : fs) (rel : path) (f : file) (n : nat).
Let p : path := Media.SOURCE_DIR ++ rel.
Let D : path := join Media.OUTPUT_DIR rel.
Hypothesis Hwalk : walkable m0 Media.SOURCE_DIR p = true.
Hypothesis Hfile : is_file_in m0 p = true.
Hypothesis Hother : is_media p = false.

Lemma rel_nonempty : rel <> [].
Proof.
  intros E. apply walkable_inv in Hwalk as (_ & Hlen & _).
  unfold p in Hlen. rewrite E, app_nil_r in Hlen. lia.
Qed.

(** The pass for another listed file leaves the source and its mirrored
    destination as they are. *)
Lemma other_pass_keeps (i : nat) (q : path) (st : Media.stats) (w w' : world)
    (o : outcome Media.stats) :
  listed m0 q -> q <> p ->
  Media.process_file n (i, q) st w = (o, w') ->
  w_fs w' !! D = w_fs w !! D /\ w_fs w' !! p = w_fs w !! p.
Proof.
  intros [Hwq Hfq] Hne Hrun.
  destruct (walkable_inv _ _ _ Hwq) as ([rel_q ->] & Hlen & _).
  assert (Hrel : relative_to (Media.SOURCE_DIR ++ rel_q) Media.SOURCE_DIR = Ok rel_q).
  { unfold relative_to. rewrite bool_decide_eq_true_2 by (apply prefix_app_r; reflexivity).
    rewrite drop_app_length. reflexivity. }
  assert (Hq : rel_q <> []) by (intros ->; rewrite app_nil_r in Hlen; lia).
  pose proof (changed_within_outside _ _ _
                (confined_Media_process_file_targets n i _ _ st Hrel _ _ _ Hrun)) as Hout.
  split; apply Hout.
  - apply (mirrored_path_is_no_foreign_target m0); try assumption.
    intros E. apply Hne. unfold p. rewrite E. reflexivity.
  - intros Ht. apply image_targets_in_output_tree in Ht; [| exact Hq].
    revert Ht.
    apply (sibling_outside_output_tree script_dir "Servicios" "ServiciosOptimized");
      [discriminate |].
    unfold p. apply prefix_app_r. reflexivity.
Qed.

(** The pass for the file itself puts the copy there. *)
Lemma own_pass_copies (i : nat) (st st' : Media.stats) (w w' : world) :
  Media.process_file n (i, p) st w = (Ok st', w') ->
  w_fs w !! p = Some (NFile f) ->
  is_dir_in (w_fs w) D = false ->
  w_fs w' !! D = Some (NFile f) /\ w_fs w' !! p = Some (NFile f).
Proof.
  intros Hrun Hsrc Hd. unfold Media.process_file in Hrun.
  assert (Hrel : relative_to p Media.SOURCE_DIR = Ok rel).
  { unfold relative_to, p. rewrite bool_decide_eq_true_2 by (apply prefix_app_r; reflexivity).
    rewrite drop_app_length. reflexivity. }
  rewrite Hrel in Hrun.
  apply bind_Ok_inv in Hrun as (rel' & w1 & Hl & Hrun).
  apply lift_inv in Hl as [[= <-] ->].
  apply bind_Ok_inv in Hrun as ([] & w1 & Hp & Hrun).
  rewrite print_eq in Hp. injection Hp as <-.
  unfold is_media in Hother. apply orb_false_iff in Hother as [Hi Hv].
  rewrite Hi, Hv in Hrun.
  apply bind_Ok_inv in Hrun as ([] & w2 & Hmk & Hrun).
  apply in_fs_inv in Hmk as [Hmk _]. simpl in Hmk.
  apply bind_Ok_inv in Hrun as ([] & w3 & Hcp & Hrun).
  apply in_fs_inv in Hcp as [Hcp _].
  apply bind_Ok_inv in Hrun as ([] & w4 & Hp & Hrun).
  rewrite print_eq in Hp. injection Hp as <-. injection Hrun as _ <-. simpl.
  fold D in Hmk, Hcp.
  assert (Hpne : p <> []).
  { unfold p. pose proof rel_nonempty. destruct rel; [contradiction |].
    intros E. apply app_eq_nil in E as [_ E]. discriminate. }
  assert (HD : D <> []).
  { unfold D, join. pose proof rel_nonempty. destruct rel; [contradiction |].
    intros E. apply app_eq_nil in E as [_ E]. discriminate. }
  assert (Hsrc2 : node_at (w_fs w2) p = Some (NFile f)).
  { eapply mkdir_parents_keeps; [exact Hmk |]. rewrite node_at_nonroot by exact Hpne.
    exact Hsrc. }
  assert (Hd2 : is_dir_in (w_fs w2) D = false).
  { unfold is_dir_in in *. rewrite node_at_nonroot in * by exact HD.
    rewrite (mkdir_parents_other _ _ _ _ _ Hmk (not_prefix_of_parent D HD)). exact Hd. }
  unfold copy2 in Hcp. rewrite Hd2, Hsrc2 in Hcp.
  destruct (bool_decide (p = D)) eqn:Esame; [discriminate |].
  apply bool_decide_eq_false in Esame.
  apply write_file_cases in Hcp as [(_ & -> & _)|(e & ? & _)]; [| discriminate].
  split.
  - apply lookup_insert_eq.
  - rewrite lookup_insert_ne by congruence.
    rewrite node_at_nonroot in Hsrc2 by exact Hpne. exact Hsrc2.
Qed.

(** A loop over listed files other than the file keeps both. *)
Lemma other_passes_keep (files : list path) :
  forall (i : nat) (st : Media.stats) (w w' : world) (o : outcome Media.stats),
    (forall q, In q files -> listed m0 q /\ q <> p) ->
    for_each (combine (seq i (length files)) files) (Media.process_file n) st w
    = (o, w') ->
    w_fs w' !! D = w_fs w !! D /\ w_fs w' !! p = w_fs w !! p.
Proof.
  induction files as [|q files IH]; intros i st w w' o Hall Hrun.
  - injection Hrun as _ <-. split; reflexivity.
  - simpl in Hrun. destruct (Hall q (or_introl eq_refl)) as [Hl Hne].
    assert (Hrest : forall st1 w1 o1,
               Media.process_file n (i, q) st w = (o1, w1) ->
               for_each (combine (seq (Datatypes.S i) (length files)) files)
                        (Media.process_file n) st1 w1 = (o, w') ->
               w_fs w' !! D = w_fs w !! D /\ w_fs w' !! p = w_fs w !! p).
    { intros st1 w1 o1 Hstep Hloop.
      destruct (other_pass_keeps _ _ _ _ _ _ Hl Hne Hstep) as [E1 E2].
      destruct (IH _ _ _ _ _ (fun q' Hq' => Hall q' (or_intror Hq')) Hloop) as [E3 E4].
      split; congruence. }
    destruct o as [st2|e].
    + apply bind_Ok_inv in Hrun as (st1 & w1 & Hstep & Hloop). eauto.
    + apply bind_Raise_inv in Hrun as [Hstep|(st1 & w1 & Hstep & Hloop)]; [| eauto].
      exact (other_pass_keeps _ _ _ _ _ _ Hl Hne Hstep).
Qed.

(** A loop over listed files, the file among them once, that returns. *)
Lemma the_loop_delivers (files : list path) :
  forall (i : nat) (st st' : Media.stats) (w w' : world),
    List.NoDup files -> In p files -> (forall q, In q files -> listed m0 q) ->
    for_each (combine (seq i (length files)) files) (Media.process_file n) st w
    = (Ok st', w') ->
    w_fs w !! p = Some (NFile f) -> is_dir_in (w_fs w) D = false ->
    w_fs w' !! D = Some (NFile f) /\ w_fs w' !! p = Some (NFile f).
Proof.
  induction files as [|q files IH]; intros i st st' w w' Hnd Hin Hall Hrun Hsrc Hd;
    [contradiction |].
  simpl in Hrun. apply bind_Ok_inv in Hrun as (st1 & w1 & Hstep & Hrest).
  apply List.NoDup_cons_iff in Hnd as [Hnotin Hnd].
  assert (HD : D <> []).
  { unfold D, join. pose proof rel_nonempty. destruct rel; [contradiction |].
    intros E. apply app_eq_nil in E as [_ E]. discriminate. }
  destruct (decide (q = p)) as [->|Hne].
  - destruct (own_pass_copies _ _ _ _ _ Hstep Hsrc Hd) as [E1 E2].
    destruct (other_passes_keep files _ _ _ _ _
                (fun q' Hq' => conj (Hall q' (or_intror Hq'))
                                    (fun E => Hnotin (eq_ind _ (fun x => In x files) Hq' _ E)))
                Hrest) as [E3 E4].
    split; congruence.
  - destruct Hin as [E|Hin]; [contradiction |].
    destruct (other_pass_keeps _ _ _ _ _ _ (Hall q (or_introl eq_refl)) Hne Hstep)
      as [E1 E2].
    apply (IH _ _ _ _ _ Hnd Hin (fun q' Hq' => Hall q' (or_intror Hq')) Hrest).
    + congruence.
    + unfold is_dir_in in *. rewrite node_at_nonroot in * by exact HD.
      rewrite E1. exact Hd.
Qed.

End OneFile.
End Mirror.

(** ** The sizes the loop adds up *)

Section LoopSizes.
Context `{Platform} `{ImageLib} `{Subprocess}.

Lemma count_and_report_size (r : result) (c c2 : cat_stats) (w w' : world) :
  (let* c1 := count_result r c in report_result r c1) w = (Ok c2, w') ->
  original_size c2 = Fadd (original_size c) (original_size_mb r) /\ w_fs w' = w_fs w.
Proof.
  intros Hrun. apply bind_Ok_inv in Hrun as (c1 & w1 & Hc & Hr).
  pose proof (count_result_inv _ _ _ _ _ Hc) as ->.
  assert (Hc1 : original_size c1 = Fadd (original_size c) (original_size_mb r)).
  { unfold count_result, getitem, bind, ret, raise in Hc.
    destruct (optimized_size_mb r); [| discriminate Hc].
    injection Hc as Hc. subst c1. reflexivity. }
  unfold report_result, getitem, bind, ret, raise, print, modify in Hr.
  destruct (success r).
  - destruct (optimized_size_mb r) as [opt|]; [| discriminate].
    destruct (reduction_percent r) as [red|]; [| discriminate].
    injection Hr as <- <-. split; [exact Hc1 | reflexivity].
  - injection Hr as <- <-. split; [exact Hc1 | reflexivity].
Qed.

Lemma image_result_original (src dst : path) (f : file) (m m' : fs) (r : result) :
  node_at m src = Some (NFile f) ->
  Media.optimize_image src dst m = (Ok r, m') \/
  Productos.optimize_image src dst m = (Ok r, m') ->
  original_size_mb r = size_mb f.
Proof.
  intros Hsrc [Hrun|Hrun].
  - destruct (Media_optimize_image_inv _ _ _ _ _ _ Hsrc Hrun)
      as [(? & ? & ? & ? & ? & _ & _ & _ & ->)|(? & ? & ? & ->)]; reflexivity.
  - destruct (Productos_optimize_image_inv _ _ _ _ _ _ Hsrc Hrun)
      as [(? & ? & ? & ? & ? & _ & _ & _ & ->)|(? & ? & ? & ->)]; reflexivity.
Qed.

Lemma video_result_original (src dst : path) (f : file) (m m' : fs) (r : result) :
  node_at m src = Some (NFile f) ->
  Media.optimize_video src dst m = (Ok r, m') ->
  original_size_mb r = size_mb f.
Proof.
  intros Hsrc Hrun.
  destruct (Media_optimize_video_inv _ _ _ _ _ _ Hsrc Hrun)
    as [(? & ? & ? & ? & ? & ? & _ & _ & _ & _ & _ & ->)|(? & ? & ->)]; reflexivity.
Qed.

(** What one pass of the media loop adds to the original sizes. *)
Lemma Media_process_file_sizes (n i : nat) (q : path) (f : file)
    (st st' : Media.stats) (w w' : world) :
  node_at (w_fs w) q = Some (NFile f) ->
  Media.process_file n (i, q) st w = (Ok st', w') ->
  original_size (Media.images st')
  = (if is_image q then Fadd (original_size (Media.images st)) (size_mb f)
     else original_size (Media.images st)) /\
  original_size (Media.videos st')
  = (if negb (is_image q) && is_video q
     then Fadd (original_size (Media.videos st)) (size_mb f)
     else original_size (Media.videos st)).
Proof.
  intros Hsrc. unfold Media.process_file. intros Hrun.
  apply bind_Ok_inv in Hrun as (rel & w1 & Hrel & Hrun).
  apply lift_inv in Hrel as [Hrel ->].
  apply bind_Ok_inv in Hrun as ([] & w1 & Hp & Hrun).
  rewrite print_eq in Hp. injection Hp as <-.
  unfold is_image, is_video.
  destruct (bool_decide (suffix q ∈ IMAGE_EXTENSIONS)).
  - apply bind_Ok_inv in Hrun as (r & w2 & Hopt & Hrun).
    apply in_fs_inv in Hopt as [Hopt _]. simpl in Hopt.
    pose proof (image_result_original _ _ _ _ _ _ Hsrc (or_introl Hopt)) as Hr.
    destruct (count_result r (Media.images st) w2) as [[c1|e] w3] eqn:Hc;
      [| unfold bind in Hrun; rewrite Hc in Hrun; discriminate].
    destruct (report_result r c1 w3) as [[c2|e] w4] eqn:Hrep;
      [| unfold bind in Hrun; rewrite Hc, Hrep in Hrun; discriminate].
    assert (Hboth : (let* c1 := count_result r (Media.images st) in
                     report_result r c1)%monad w2 = (Ok c2, w4))
      by (unfold bind; rewrite Hc; exact Hrep).
    unfold bind in Hrun. rewrite Hc, Hrep in Hrun. injection Hrun as <- <-.
    apply count_and_report_size in Hboth as [Hs _]. simpl.
    rewrite Hs, Hr. split; reflexivity.
  - destruct (bool_decide (suffix q ∈ Media.VIDEO_EXTENSIONS)).
    + apply bind_Ok_inv in Hrun as (r & w2 & Hopt & Hrun).
      apply in_fs_inv in Hopt as [Hopt _]. simpl in Hopt.
      pose proof (video_result_original _ _ _ _ _ _ Hsrc Hopt) as Hr.
      destruct (count_result r (Media.videos st) w2) as [[c1|e] w3] eqn:Hc;
        [| unfold bind in Hrun; rewrite Hc in Hrun; discriminate].
      destruct (report_result r c1 w3) as [[c2|e] w4] eqn:Hrep;
        [| unfold bind in Hrun; rewrite Hc, Hrep in Hrun; discriminate].
      assert (Hboth : (let* c1 := count_result r (Media.videos st) in
                       report_result r c1)%monad w2 = (Ok c2, w4))
        by (unfold bind; rewrite Hc; exact Hrep).
      unfold bind in Hrun. rewrite Hc, Hrep in Hrun. injection Hrun as <- <-.
      apply count_and_report_size in Hboth as [Hs _]. simpl.
      rewrite Hs, Hr. split; reflexivity.
    + apply bind_Ok_inv in Hrun as ([] & w2 & Hmk & Hrun).
      apply bind_Ok_inv in Hrun as ([] & w3 & Hcp & Hrun).
      apply bind_Ok_inv in Hrun as ([] & w4 & Hp & Hrun).
      injection Hrun as <- _. split; reflexivity.
Qed.

Lemma Productos_process_file_sizes (n i : nat) (q : path) (f : file)
    (st st' : cat_stats) (w w' : world) :
  node_at (w_fs w) q = Some (NFile f) ->
  Productos.process_file n (i, q) st w = (Ok st', w') ->
  original_size st' = Fadd (original_size st) (size_mb f).
Proof.
  intros Hsrc. unfold Productos.process_file. intros Hrun.
  apply bind_Ok_inv in Hrun as (rel & w1 & Hrel & Hrun).
  apply lift_inv in Hrel as [Hrel ->].
  apply bind_Ok_inv in Hrun as ([] & w1 & Hp & Hrun).
  rewrite print_eq in Hp. injection Hp as <-.
  apply bind_Ok_inv in Hrun as (r & w2 & Hopt & Hrun).
  apply in_fs_inv in Hopt as [Hopt _]. simpl in Hopt.
  pose proof (image_result_original _ _ _ _ _ _ Hsrc (or_intror Hopt)) as Hr.
  apply count_and_report_size in Hrun as [Hs _]. rewrite Hs, Hr. reflexivity.
Qed.

Lemma size_in_file (m : fs) (q : path) (f : file) :
  node_at m q = Some (NFile f) -> size_in m q = size_mb f.
Proof. intros Hq. unfold size_in. rewrite Hq. reflexivity. Qed.

Lemma file_node (m : fs) (q : path) :
  is_file_in m q = true -> exists f, node_at m q = Some (NFile f).
Proof.
  unfold is_file_in. destruct (node_at m q) as [[f|]|]; try discriminate. eauto.
Qed.

Lemma node_at_agree (m m' : fs) (q : path) : m' !! q = m !! q -> node_at m' q = node_at m q.
Proof. intros E. unfold node_at. destruct q; [reflexivity | exact E]. Qed.

(** The loop of the media script adds up the sizes the files had before
    it. *)
Lemma Media_loop_sizes (n : nat) (m : fs) (files : list path) :
  forall (i : nat) (st st' : Media.stats) (w w' : world),
    listing_of m Media.SOURCE_DIR files ->
    (forall p, Media.SOURCE_DIR `prefix_of` p -> w_fs w !! p = m !! p) ->
    for_each (combine (seq i (length files)) files) (Media.process_file n) st w
    = (Ok st', w') ->
    original_size (Media.images st')
    = sum_of_sizes m is_image files (original_size (Media.images st)) /\
    original_size (Media.videos st')
    = sum_of_sizes m (fun p => negb (is_image p) && is_video p) files
        (original_size (Media.videos st)).
Proof.
  induction files as [|q files IH]; intros i st st' w w' Hall Hsame Hrun.
  - injection Hrun as <- _. split; reflexivity.
  - simpl in Hrun. apply bind_Ok_inv in Hrun as (st1 & w1 & Hstep & Hrest).
    destruct (Hall q (or_introl eq_refl)) as (Hpre & Hlen & Hfile).
    destruct (file_node _ _ Hfile) as (f & Hf).
    assert (Hnow : node_at (w_fs w) q = Some (NFile f))
      by (rewrite (node_at_agree _ _ _ (Hsame q Hpre)); exact Hf).
    destruct (Media_process_file_sizes _ _ _ _ _ _ _ _ Hnow Hstep) as [Hi Hv].
    pose proof (changed_within_outside _ _ _
                  (confined_Media_process_file n i q st Hlen _ _ _ Hstep)) as Hout.
    assert (Hsame1 : forall p, Media.SOURCE_DIR `prefix_of` p -> w_fs w1 !! p = m !! p).
    { intros p Hp. rewrite Hout; [apply Hsame; exact Hp |].
      apply (sibling_outside_output_tree script_dir "Servicios" "ServiciosOptimized");
        [discriminate | exact Hp]. }
    destruct (IH _ _ _ _ _ (fun q' Hq' => Hall q' (or_intror Hq')) Hsame1 Hrest)
      as [Hi' Hv'].
    unfold sum_of_sizes in *. simpl fold_left.
    rewrite (size_in_file _ _ _ Hf), Hi', Hv', Hi, Hv. split; reflexivity.
Qed.

Lemma Productos_loop_sizes (n : nat) (m : fs) (files : list path) :
  forall (i : nat) (st st' : cat_stats) (w w' : world),
    listing_of m Productos.SOURCE_DIR files ->
    (forall p, Productos.SOURCE_DIR `prefix_of` p -> w_fs w !! p = m !! p) ->
    for_each (combine (seq i (length files)) files) (Productos.process_file n) st w
    = (Ok st', w') ->
    original_size st' = sum_of_sizes m (fun _ => true) files (original_size st).
Proof.
  induction files as [|q files IH]; intros i st st' w w' Hall Hsame Hrun.
  - injection Hrun as <- _. reflexivity.
  - simpl in Hrun. apply bind_Ok_inv in Hrun as (st1 & w1 & Hstep & Hrest).
    destruct (Hall q (or_introl eq_refl)) as (Hpre & Hlen & Hfile).
    destruct (file_node _ _ Hfile) as (f & Hf).
    assert (Hnow : node_at (w_fs w) q = Some (NFile f))
      by (rewrite (node_at_agree _ _ _ (Hsame q Hpre)); exact Hf).
    pose proof (Productos_process_file_sizes _ _ _ _ _ _ _ _ Hnow Hstep) as Hs.
    pose proof (changed_within_outside _ _ _
                  (confined_Productos_process_file n i q st Hlen _ _ _ Hstep)) as Hout.
    assert (Hsame1 : forall p, Productos.SOURCE_DIR `prefix_of` p -> w_fs w1 !! p = m !! p).
    { intros p Hp. rewrite Hout; [apply Hsame; exact Hp |].
      apply (sibling_outside_output_tree script_dir "Productos" "ProductosOptimized");
        [discriminate | exact Hp]. }
    pose proof (IH _ _ _ _ _ (fun q' Hq' => Hall q' (or_intror Hq')) Hsame1 Hrest) as Hs'.
    unfold sum_of_sizes in *. simpl fold_left.
    rewrite (size_in_file _ _ _ Hf), Hs', Hs. reflexivity.
Qed.

Lemma sum_of_sizes_ext (m : fs) (keep keep' : path -> bool) (files : list path) :
  (forall p, keep p = keep' p) ->
  forall start, sum_of_sizes m keep files start = sum_of_sizes m keep' files start.
Proof.
  intros Hk. unfold sum_of_sizes.
  induction files as [|q files IH]; intros start; simpl; [reflexivity |].
  rewrite Hk. apply IH.
Qed.

End LoopSizes.

(** ** The file an image leaves behind *)

Section ImageOutputs.
Context `{Platform} `{ImageLib} `{Subprocess}.

Lemma fallback_state (src dst : path) (err : string) (m m' : fs) (r r' : result) :
  fallback src dst err (m, r) = (Ok tt, (m', r')) ->
  exists (t : path) (f : file),
    (t = dst \/ t = dst ++ [name src]) /\ m' = <[t := NFile f]> m.
Proof.
  unfold fallback, bind, on_fst, set_local, ret. intros Hrun.
  destruct (copy2 src dst m) as [[[]|?] m1] eqn:Hcp; [| discriminate].
  destruct (get_file_size_mb dst m1) as [[opt|?] m2] eqn:Hsz; [| discriminate].
  apply get_file_size_mb_cases in Hsz as [-> _]. injection Hrun as <- _.
  unfold copy2 in Hcp.
  destruct (bool_decide _); [discriminate |].
  destruct (node_at m src) as [[f|]|]; try discriminate.
  apply write_file_cases in Hcp as [(_ & -> & _)|(e & ? & _)]; [| discriminate].
  eexists _, f. split; [| reflexivity].
  destruct (is_dir_in m dst); auto.
Qed.

(** A call of [optimize_image] that returns has left a regular file. *)
Lemma image_output_exists (src dst : path) (m m' : fs) (r : result) :
  Media.optimize_image src dst m = (Ok r, m') \/
  Productos.optimize_image src dst m = (Ok r, m') ->
  exists (t : path) (g : file), image_outputs src dst t /\ m' !! t = Some (NFile g).
Proof.
  assert (Hfb : forall (msg : string) (m1 m2 : fs) (r0 r1 : result),
             fallback src dst msg (m1, r0) = (Ok tt, (m2, r1)) ->
             exists (t : path) (g : file),
               image_outputs src dst t /\ m2 !! t = Some (NFile g)).
  { intros msg m1 m2 r0 r1 Hf.
    apply fallback_state in Hf as (t & f & Ht & ->).
    exists t, f. split; [right; exact Ht | apply lookup_insert_eq]. }
  assert (Hok : forall (final : path) (osz : Z * Z) (img' : image pixels) (m0 m1 : fs),
             transcode_image src dst m0 = (Ok (final, osz, img'), m1) ->
             exists (t : path) (g : file),
               image_outputs src dst t /\ m1 !! t = Some (NFile g)).
  { intros final osz img' m0 m1 Ht. unfold transcode_image in Ht.
    apply bind_Ok_inv in Ht as ([] & m00 & _ & Ht).
    apply open_and_save_Ok_inv in Ht
      as (f & i0 & i1 & b & _ & _ & _ & _ & _ & Hsuf & _ & -> & _).
    exists final, (File b new_file_meta).
    split; [left; exact Hsuf | apply lookup_insert_eq]. }
  assert (Hend : forall (o : outcome unit) (m2 : fs) (r1 : result),
             forall msg m1 r0,
               fallback src dst msg (m1, r0) = (o, (m2, r1)) ->
               (match o with
                | Ok a => (Ok r1, m2)
                | Raise e0 => (Raise e0, m2)
                end) = (Ok r, m') ->
               exists (t : path) (g : file),
                 image_outputs src dst t /\ m' !! t = Some (NFile g)).
  { intros [[]|e0] m2 r1 msg m1 r0 Ef; intros [= <- <-]. eapply Hfb. exact Ef. }
  intros [Hrun|Hrun].
  - rewrite Media_optimize_image_unfold in Hrun.
    unfold bind, with_local, try_except, on_fst, set_local, reduction, ret, raise in Hrun.
    destruct (get_file_size_mb src m) as [[orig|?] m0]; [| discriminate].
    destruct (transcode_image src dst m0) as [[[[final osz] img']|e] m1] eqn:E1.
    + destruct (get_file_size_mb final m1) as [[opt|e] m2] eqn:E2;
        apply get_file_size_mb_cases in E2 as [-> _].
      * destruct (Fdiv opt orig) as [q|].
        -- injection Hrun as _ <-. eapply Hok; exact E1.
        -- destruct (fallback _ _ _ _) as [o [m3 r3]] eqn:Ef.
           eapply Hend; [exact Ef | destruct o as [[]|?]; exact Hrun].
      * destruct (fallback _ _ _ _) as [o [m3 r3]] eqn:Ef.
        eapply Hend; [exact Ef | destruct o as [[]|?]; exact Hrun].
    + destruct (fallback _ _ _ _) as [o [m3 r3]] eqn:Ef.
      eapply Hend; [exact Ef | destruct o as [[]|?]; exact Hrun].
  - rewrite Productos_optimize_image_unfold in Hrun.
    unfold bind, with_local, try_except, on_fst, set_local, reduction, ret, raise in Hrun.
    destruct (get_file_size_mb src m) as [[orig|?] m0]; [| discriminate].
    destruct (transcode_image src dst m0) as [[[[final osz] img']|e] m1] eqn:E1.
    + destruct (get_file_size_mb final m1) as [[opt|e] m2] eqn:E2;
        apply get_file_size_mb_cases in E2 as [-> _].
      * destruct (Fdiv opt orig) as [q|].
        -- injection Hrun as _ <-. eapply Hok; exact E1.
        -- destruct (fallback _ _ _ _) as [o [m3 r3]] eqn:Ef.
           eapply Hend; [exact Ef | destruct o as [[]|?]; exact Hrun].
      * destruct (fallback _ _ _ _) as [o [m3 r3]] eqn:Ef.
        eapply Hend; [exact Ef | destruct o as [[]|?]; exact Hrun].
    + destruct (fallback _ _ _ _) as [o [m3 r3]] eqn:Ef.
      eapply Hend; [exact Ef | destruct o as [[]|?]; exact Hrun].
Qed.

(** A file stays a file through changes. *)
Lemma changed_within_file (P : path -> Prop) (m m' : fs) (t : path) (g : file) :
  changed_within P m m' -> m !! t = Some (NFile g) ->
  exists g', m' !! t = Some (NFile g').
Proof.
  intros Hc Ht. destruct (changed_within_kind _ _ _ Hc _ _ Ht) as ([g'|] & Ht' & Hk);
    [eauto | contradiction].
Qed.

Lemma relative_to_below (root rel : path) : relative_to (root ++ rel) root = Ok rel.
Proof.
  unfold relative_to. rewrite bool_decide_eq_true_2 by (apply prefix_app_r; reflexivity).
  rewrite drop_app_length. reflexivity.
Qed.

(** The pass of the media loop for an image file leaves its output. *)
Lemma Media_image_pass (n i : nat) (rel : path) (st st' : Media.stats) (w w' : world) :
  is_image (Media.SOURCE_DIR ++ rel) = true ->
  Media.process_file n (i, Media.SOURCE_DIR ++ rel) st w = (Ok st', w') ->
  exists (t : path) (g : file),
    image_outputs (Media.SOURCE_DIR ++ rel) (join Media.OUTPUT_DIR rel) t /\
    w_fs w' !! t = Some (NFile g).
Proof.
  intros Himg Hrun. unfold Media.process_file in Hrun.
  rewrite relative_to_below in Hrun.
  apply bind_Ok_inv in Hrun as (rel' & w1 & Hl & Hrun).
  apply lift_inv in Hl as [[= <-] ->].
  apply bind_Ok_inv in Hrun as ([] & w1 & Hp & Hrun).
  rewrite print_eq in Hp. injection Hp as <-.
  unfold is_image in Himg. rewrite Himg in Hrun.
  apply bind_Ok_inv in Hrun as (r & w2 & Hopt & Hrun).
  apply in_fs_inv in Hopt as [Hopt _]. simpl in Hopt.
  apply bind_Ok_inv in Hrun as (c & w3 & Hc & Hrun).
  apply count_result_inv in Hc as ->.
  apply bind_Ok_inv in Hrun as (c' & w4 & Hr & Hrun).
  apply report_result_inv in Hr as (l & -> & _).
  injection Hrun as _ <-. simpl.
  exact (image_output_exists _ _ _ _ _ (or_introl Hopt)).
Qed.

Lemma Productos_image_pass (n i : nat) (rel : path) (st st' : cat_stats) (w w' : world) :
  Productos.process_file n (i, Productos.SOURCE_DIR ++ rel) st w = (Ok st', w') ->
  exists (t : path) (g : file),
    image_outputs (Productos.SOURCE_DIR ++ rel) (join Productos.OUTPUT_DIR rel) t /\
    w_fs w' !! t = Some (NFile g).
Proof.
  intros Hrun. unfold Productos.process_file in Hrun.
  rewrite relative_to_below in Hrun.
  apply bind_Ok_inv in Hrun as (rel' & w1 & Hl & Hrun).
  apply lift_inv in Hl as [[= <-] ->].
  apply bind_Ok_inv in Hrun as ([] & w1 & Hp & Hrun).
  rewrite print_eq in Hp. injection Hp as <-.
  apply bind_Ok_inv in Hrun as (r & w2 & Hopt & Hrun).
  apply in_fs_inv in Hopt as [Hopt _]. simpl in Hopt.
  apply bind_Ok_inv in Hrun as (c & w3 & Hc & Hrun).
  apply count_result_inv in Hc as ->.
  apply report_result_inv in Hrun as (l & -> & _). simpl.
  exact (image_output_exists _ _ _ _ _ (or_intror Hopt)).
Qed.

(** A loop that returns, the image file among its files. *)
Lemma Media_loop_leaves_output (n : nat) (rel : path) (files : list path) :
  forall (i : nat) (st st' : Media.stats) (w w' : world),
    is_image (Media.SOURCE_DIR ++ rel) = true ->
    In (Media.SOURCE_DIR ++ rel) files ->
    (forall q, In q files -> (length Media.SOURCE_DIR < length q)%nat) ->
    for_each (combine (seq i (length files)) files) (Media.process_file n) st w
    = (Ok st', w') ->
    exists (t : path) (g : file),
      image_outputs (Media.SOURCE_DIR ++ rel) (join Media.OUTPUT_DIR rel) t /\
      w_fs w' !! t = Some (NFile g).
Proof.
  induction files as [|q files IH]; intros i st st' w w' Himg Hin Hall Hrun;
    [contradiction |].
  simpl in Hrun. apply bind_Ok_inv in Hrun as (st1 & w1 & Hstep & Hrest).
  destruct (decide (q = Media.SOURCE_DIR ++ rel)) as [->|Hne].
  - destruct (Media_image_pass _ _ _ _ _ _ _ Himg Hstep) as (t & g & Ht & Hg).
    assert (Hc : changed_within (output_tree Media.OUTPUT_DIR) (w_fs w1) (w_fs w')).
    { refine (confined_for_each _ w_fs _ _ _ _ _ _ _ Hrest).
      intros [j q'] acc Hq'. apply confined_Media_process_file.
      apply Hall. right. exact (in_combine_r _ _ _ _ Hq'). }
    destruct (changed_within_file _ _ _ _ _ Hc Hg) as (g' & Hg').
    exists t, g'. split; assumption.
  - destruct Hin as [E|Hin]; [contradiction |].
    exact (IH _ _ _ _ _ Himg Hin (fun q' Hq' => Hall q' (or_intror Hq')) Hrest).
Qed.

Lemma Productos_loop_leaves_output (n : nat) (rel : path) (files : list path) :
  forall (i : nat) (st st' : cat_stats) (w w' : world),
    In (Productos.SOURCE_DIR ++ rel) files ->
    (forall q, In q files -> (length Productos.SOURCE_DIR < length q)%nat) ->
    for_each (combine (seq i (length files)) files) (Productos.process_file n) st w
    = (Ok st', w') ->
    exists (t : path) (g : file),
      image_outputs (Productos.SOURCE_DIR ++ rel) (join Productos.OUTPUT_DIR rel) t /\
      w_fs w' !! t = Some (NFile g).
Proof.
  induction files as [|q files IH]; intros i st st' w w' Hin Hall Hrun;
    [contradiction |].
  simpl in Hrun. apply bind_Ok_inv in Hrun as (st1 & w1 & Hstep & Hrest).
  destruct (decide (q = Productos.SOURCE_DIR ++ rel)) as [->|Hne].
  - destruct (Productos_image_pass _ _ _ _ _ _ _ Hstep) as (t & g & Ht & Hg).
    assert (Hc : changed_within (output_tree Productos.OUTPUT_DIR) (w_fs w1) (w_fs w')).
    { refine (confined_for_each _ w_fs _ _ _ _ _ _ _ Hrest).
      intros [j q'] acc Hq'. apply confined_Productos_process_file.
      apply Hall. right. exact (in_combine_r _ _ _ _ Hq'). }
    destruct (changed_within_file _ _ _ _ _ Hc Hg) as (g' & Hg').
    exists t, g'. split; assumption.
  - destruct Hin as [E|Hin]; [contradiction |].
    exact (IH _ _ _ _ _ Hin (fun q' Hq' => Hall q' (or_intror Hq')) Hrest).
Qed.

End ImageOutputs.

Section ListingFacts.
Context `{Platform}.


(** What was listed after the output directory was made, seen in the
    filesystem before. *)
Lemma listing_before_mkdir (d : path) (a b : string) (m m0 : fs)
    (keep : path -> bool) :
  a <> b -> mkdir_parents (d ++ [b]) m = (Ok tt, m0) ->
  listing_of m (d ++ [a])
    (List.filter (fun f => is_file_in m0 f && keep f) (enumerated m0 (d ++ [a]))) /\
  (forall p, (d ++ [a]) `prefix_of` p -> m0 !! p = m !! p).
Proof.
  intros Hab Hmk. split.
  - intros q Hq. apply filter_In in Hq as [Hq Hkeep].
    apply andb_true_iff in Hkeep as [Hfile _].
    unfold enumerated in Hq. apply filter_In in Hq as [_ Hw].
    destruct (mkdir_sibling_keeps d a b m m0 _ Hab Hmk q) as [Hw' Hf'].
    rewrite Hw' in Hw. destruct (walkable_inv _ _ _ Hw) as (Hpre & Hlen & _).
    split; [exact Hpre |]. split; [exact Hlen |]. rewrite <- (Hf' Hw). exact Hfile.
  - intros p Hp. eapply mkdir_parents_other; [exact Hmk |].
    eapply sibling_not_on_the_way; eassumption.
Qed.

End ListingFacts.


(** ** What the scripts leave alone *)

Section FrameProperties.
Context `{Platform} `{ImageLib} `{Subprocess}.

(** X1.  However [optimize_image] (of either script) ends, by returning or
    by raising, the filesystem differs from the one it started in at most
    at the directories on the way to the destination, the destination, the
    destination renamed to [.webp], and the source's name inside the
    destination; and no path that was there is gone or has turned from a
    file into a directory or back. *)
Theorem optimize_image_changes_only_its_targets
    (src dst : path) (m m' : fs) (o : outcome result) :
  Media.optimize_image src dst m = (o, m') \/
  Productos.optimize_image src dst m = (o, m') ->
  (forall p : path, ~ image_targets src dst p -> m' !! p = m !! p) /\
  (forall (p : path) (nd : node),
      m !! p = Some nd -> exists nd', m' !! p = Some nd' /\ same_kind nd nd').
Proof.
  intros Hrun.
  assert (Hc : changed_within (image_targets src dst) m m').
  { destruct Hrun as [Hrun|Hrun].
    - exact (confined_Media_optimize_image src dst _ _ _ Hrun).
    - exact (confined_Productos_optimize_image src dst _ _ _ Hrun). }
  split.
  - exact (changed_within_outside _ _ _ Hc).
  - exact (changed_within_kind _ _ _ Hc).
Qed.

(** X2.  The same for [optimize_video], with the transcoder writing its
    output file only: the changes are at the directories on the way to the
    destination, the destination, and the source's name inside it; nothing
    is removed and nothing changes its kind. *)
Theorem optimize_video_changes_only_its_targets
    (src dst : path) (m m' : fs) (o : outcome result) :
  Media.optimize_video src dst m = (o, m') ->
  (forall p : path, ~ video_targets src dst p -> m' !! p = m !! p) /\
  (forall (p : path) (nd : node),
      m !! p = Some nd -> exists nd', m' !! p = Some nd' /\ same_kind nd nd').
Proof.
  intros Hrun.
  pose proof (confined_Media_optimize_video src dst _ _ _ Hrun) as Hc.
  split.
  - exact (changed_within_outside _ _ _ Hc).
  - exact (changed_within_kind _ _ _ Hc).
Qed.

(** X3.  A run of [main] (of either script), however it ends, changes the
    filesystem only at the output directory, the directories on the way to
    it and what is below it; in particular the source directory and
    everything below it are as they were. *)
Theorem main_changes_the_output_tree_only (w w' : world) (o : outcome unit) :
  (Media.main w = (o, w') ->
   forall p : path,
     (~ output_tree Media.OUTPUT_DIR p -> w_fs w' !! p = w_fs w !! p) /\
     (Media.SOURCE_DIR `prefix_of` p -> w_fs w' !! p = w_fs w !! p)) /\
  (Productos.main w = (o, w') ->
   forall p : path,
     (~ output_tree Productos.OUTPUT_DIR p -> w_fs w' !! p = w_fs w !! p) /\
     (Productos.SOURCE_DIR `prefix_of` p -> w_fs w' !! p = w_fs w !! p)).
Proof.
  split; intros Hrun p.
  - pose proof (changed_within_outside _ _ _ (confined_Media_main _ _ _ Hrun)) as Hout.
    split; [apply Hout |]. intros Hp. apply Hout.
    apply (sibling_outside_output_tree script_dir "Servicios" "ServiciosOptimized");
      [discriminate | exact Hp].
  - pose proof (changed_within_outside _ _ _ (confined_Productos_main _ _ _ Hrun)) as Hout.
    split; [apply Hout |]. intros Hp. apply Hout.
    apply (sibling_outside_output_tree script_dir "Productos" "ProductosOptimized");
      [discriminate | exact Hp].
Qed.

(** X4.  A run of [main] (of either script), however it ends, removes
    nothing: a path that was there is still there, a directory as a
    directory and a file as a file (its content may have been replaced). *)
Theorem main_removes_nothing (w w' : world) (o : outcome unit) :
  Media.main w = (o, w') \/ Productos.main w = (o, w') ->
  forall (p : path) (nd : node),
    w_fs w !! p = Some nd ->
    exists nd', w_fs w' !! p = Some nd' /\ same_kind nd nd'.
Proof.
  intros [Hrun|Hrun].
  - exact (changed_within_kind _ _ _ (confined_Media_main _ _ _ Hrun)).
  - exact (changed_within_kind _ _ _ (confined_Productos_main _ _ _ Hrun)).
Qed.

End FrameProperties.

(** The corrupt [bad.png] goes to the fallback copy; the video beside it is
    not touched. *)
Lemma optimize_image_changes_only_its_targets_witness :
  snd (@Media.optimize_image Toy.platform Toy.imagelib Toy.bad_src Toy.bad_dst
         Toy.media_tree) !! Toy.clip_src
  = Toy.media_tree !! Toy.clip_src.
Proof.
  refine (proj1 (@optimize_image_changes_only_its_targets Toy.platform Toy.imagelib
                   _ _ _ _ _ (or_introl (surjective_pairing _))) Toy.clip_src _).
  intros [Hp|[Hp|Hp]].
  - destruct Hp as [k Hk]. discriminate Hk.
  - vm_compute in Hp. discriminate.
  - vm_compute in Hp. discriminate.
Defined.

Lemma optimize_video_changes_only_its_targets_witness :
  snd (@Media.optimize_video Toy.platform (Toy.subprocess NotInstalled)
         Toy.clip_src Toy.clip_dst Toy.media_tree) !! Toy.bad_src
  = Toy.media_tree !! Toy.bad_src.
Proof.
  refine (proj1 (@optimize_video_changes_only_its_targets Toy.platform
                   (Toy.subprocess NotInstalled)
                   _ _ _ _ _ (surjective_pairing _)) Toy.bad_src _).
  intros [Hp|Hp].
  - destruct Hp as [k Hk]. discriminate Hk.
  - vm_compute in Hp. discriminate.
Defined.

(** A run over the media tree leaves [big.jpg] where it was. *)
Lemma main_changes_the_output_tree_only_witness :
  w_fs (snd (@Media.main Toy.platform Toy.imagelib (Toy.subprocess NotInstalled)
               (World Toy.media_tree [])))
    !! (["srv"; "Servicios"; "a"; "big.jpg"]%string : path)
  = Toy.media_tree !! (["srv"; "Servicios"; "a"; "big.jpg"]%string : path).
Proof.
  refine (proj2 (proj1 (@main_changes_the_output_tree_only Toy.platform Toy.imagelib
                          (Toy.subprocess NotInstalled) _ _ _)
                   (surjective_pairing _) _) _).
  exists ["a"; "big.jpg"]%string. reflexivity.
Defined.

Lemma main_removes_nothing_witness :
  exists nd',
    w_fs (snd (@Productos.main Toy.platform Toy.imagelib (World Toy.product_tree [])))
      !! Toy.pnotes_src = Some nd' /\
    same_kind (NFile (File Toy.junk Toy.a_meta)) nd'.
Proof.
  refine (@main_removes_nothing Toy.platform Toy.imagelib (Toy.subprocess NotInstalled)
            _ _ _ (or_intror (surjective_pairing _)) Toy.pnotes_src _ _).
  vm_compute. reflexivity.
Defined.


(** ** Sources that are missing or empty *)

Section SourceEdges.
Context `{Platform} `{ImageLib} `{Subprocess}.

Lemma get_file_size_mb_missing (m : fs) (p : path) :
  node_at m p = None -> get_file_size_mb p m = (Raise (missing m p), m).
Proof.
  intros Hp. unfold get_file_size_mb, bind, st_size. rewrite Hp. reflexivity.
Qed.

Lemma size_mb_empty (f : file) : f_bytes f = [] -> size_mb f = zero.
Proof. intros E. unfold size_mb. rewrite E. reflexivity. Qed.

Lemma Fdiv_by_zero (x : float) : Fdiv x zero = None.
Proof. reflexivity. Qed.

(** X5.  The size of the source is taken before the [try]: when the source
    is not there, [optimize_image] (of either script) and [optimize_video]
    raise the error of [stat] - [FileNotFoundError], or [NotADirectoryError]
    below a regular file - instead of returning a result, and the
    filesystem is as it was: no directory was made and nothing was copied. *)
Theorem missing_source_is_not_caught (src dst : path) (m : fs) :
  node_at m src = None ->
  Media.optimize_image src dst m = (Raise (missing m src), m) /\
  Productos.optimize_image src dst m = (Raise (missing m src), m) /\
  Media.optimize_video src dst m = (Raise (missing m src), m) /\
  (exn_kind_of (missing m src) = FileNotFoundError \/
   exn_kind_of (missing m src) = NotADirectoryError).
Proof.
  intros Hsrc. pose proof (get_file_size_mb_missing _ _ Hsrc) as Hsize.
  split; [| split; [| split]].
  - unfold Media.optimize_image. apply bind_Raise. exact Hsize.
  - unfold Productos.optimize_image. apply bind_Raise. exact Hsize.
  - unfold Media.optimize_video. apply bind_Raise. exact Hsize.
  - unfold missing, os_error. destruct (under_file m src); simpl; auto.
Qed.

(** X6.  A source of 0 bytes is never reported as a success: whatever the
    image library or the transcoder does, a result that [optimize_image] (of
    either script) or [optimize_video] returns for it has [success = False],
    an error text, sizes of 0 MB for the original and a reduction of 0; the
    division by the original size cannot go through. *)
Theorem empty_source_never_succeeds
    (src dst : path) (f : file) (m m' : fs) (r : result) :
  node_at m src = Some (NFile f) -> f_bytes f = [] ->
  Media.optimize_image src dst m = (Ok r, m') \/
  Productos.optimize_image src dst m = (Ok r, m') \/
  Media.optimize_video src dst m = (Ok r, m') ->
  success r = false /\ original_size_mb r = zero /\
  reduction_percent r = Some zero /\ exists msg, error r = Some msg.
Proof.
  intros Hsrc Hempty Hrun. pose proof (size_mb_empty _ Hempty) as Hz.
  assert (Hr : exists out msg opt,
             r = Result src out (size_mb f) false (Some msg) (Some opt) (Some zero) None).
  { destruct Hrun as [Hrun|[Hrun|Hrun]].
    - destruct (Media_optimize_image_inv _ _ _ _ _ _ Hsrc Hrun)
        as [(final & osz & img' & opt & q & _ & _ & Hq & _)|Hr]; [| exact Hr].
      rewrite Hz, Fdiv_by_zero in Hq. discriminate.
    - destruct (Productos_optimize_image_inv _ _ _ _ _ _ Hsrc Hrun)
        as [(final & osz & img' & opt & q & _ & _ & Hq & _)|Hr]; [| exact Hr].
      rewrite Hz, Fdiv_by_zero in Hq. discriminate.
    - destruct (Media_optimize_video_inv _ _ _ _ _ _ Hsrc Hrun)
        as [(m0 & sout & serr & written & opt & q & _ & _ & _ & _ & Hq & _)|(msg & opt & ->)].
      + rewrite Hz, Fdiv_by_zero in Hq. discriminate.
      + eexists _, _, _. reflexivity. }
  destruct Hr as (out & msg & opt & ->). simpl. rewrite Hz.
  repeat split. exists msg. reflexivity.
Qed.

End SourceEdges.

(** [gone.jpg] is not in the tree. *)
Lemma missing_source_is_not_caught_witness :
  returned (fst (@Media.optimize_image Toy.platform Toy.imagelib
                   Sample.gone Sample.gone_dst Toy.media_tree)) = false /\
  snd (@Media.optimize_image Toy.platform Toy.imagelib
         Sample.gone Sample.gone_dst Toy.media_tree) = Toy.media_tree.
Proof.
  destruct (@missing_source_is_not_caught Toy.platform Toy.imagelib
              (Toy.subprocess NotInstalled) Sample.gone Sample.gone_dst Toy.media_tree)
    as (Hrun & _).
  - vm_compute. reflexivity.
  - rewrite Hrun. split; reflexivity.
Defined.

(** The empty [void.jpg] ends in the fallback. *)
Lemma empty_source_never_succeeds_witness :
  map_outcome success
    (fst (@Media.optimize_image Toy.platform Toy.imagelib
            Sample.void_jpg Sample.void_jpg_dst Sample.hollow_tree)) = Ok false.
Proof.
  destruct (@Media.optimize_image Toy.platform Toy.imagelib
              Sample.void_jpg Sample.void_jpg_dst Sample.hollow_tree)
    as [[r|e] m'] eqn:Hrun.
  - simpl. f_equal.
    refine (proj1 (@empty_source_never_succeeds Toy.platform Toy.imagelib
                     (Toy.subprocess NotInstalled) _ _ (File [] Toy.a_meta) _ _ r
                     _ _ (or_introl Hrun))).
    + vm_compute. reflexivity.
    + reflexivity.
  - exfalso.
    assert (Hok : returned (fst (@Media.optimize_image Toy.platform Toy.imagelib
              Sample.void_jpg Sample.void_jpg_dst Sample.hollow_tree)) = true)
      by (vm_compute; reflexivity).
    rewrite Hrun in Hok. discriminate.
Defined.

(** ** More about the new size *)

Section SizingProperties.
Context `{Platform} `{ImageLib}.

Lemma mul_cancel_le (a b c : Z) : 0 < c -> a * c <= b * c -> a <= b.
Proof. intros Hc Hab. apply (Z.mul_le_mono_pos_r _ _ c); assumption. Qed.

Lemma mul_cancel_lt (a b c : Z) : 0 < c -> a * c < b * c -> a < b.
Proof. intros Hc Hab. apply (Z.mul_lt_mono_pos_r c); assumption. Qed.

(** X7.  The scaled image fills the 1920 x 1080 box up to one pixel: the
    side that decides the ratio comes out at its maximum or one pixel under
    it (the product [w * (1920 / w)] of two floats can fall just short of
    1920, and [int] truncates). *)
Theorem new_size_fills_the_box (w h : Z) :
  0 < w < max_dimension -> 0 < h < max_dimension ->
  exists ow oh,
    new_size w h = Some (ow, oh) /\
    (IMAGE_MAX_WIDTH * h <= IMAGE_MAX_HEIGHT * w ->
     IMAGE_MAX_WIDTH - 1 <= ow <= IMAGE_MAX_WIDTH) /\
    (IMAGE_MAX_HEIGHT * w < IMAGE_MAX_WIDTH * h ->
     IMAGE_MAX_HEIGHT - 1 <= oh <= IMAGE_MAX_HEIGHT).
Proof.
  intros Hw Hh.
  destruct (new_size_spec w h Hw Hh)
    as (ow & oh & c & b & E & Ht & Hc & Hb & [Hw1 Hw2] & [Hh1 Hh2]).
  exists ow, oh. split; [exact E |].
  unfold ratio_terms in Ht. unfold IMAGE_MAX_WIDTH, IMAGE_MAX_HEIGHT in *.
  split; intros Hcase.
  - destruct (1920 * h <=? 1080 * w) eqn:Eb; [| apply Z.leb_gt in Eb; lia].
    injection Ht as <- <-.
    assert (ow <= 1920) by (apply (mul_cancel_le _ _ w); lia).
    assert (1920 <= ow + 1) by (apply (mul_cancel_le _ _ w); lia).
    lia.
  - destruct (1920 * h <=? 1080 * w) eqn:Eb; [apply Z.leb_le in Eb; lia |].
    injection Ht as <- <-.
    assert (oh <= 1080) by (apply (mul_cancel_le _ _ h); lia).
    assert (1080 <= oh + 1) by (apply (mul_cancel_le _ _ h); lia).
    lia.
Qed.

(** X8.  A very long or very tall image loses a side: when the width is
    more than 1920 times the height the new height is 0, and when the
    height is more than 1080 times the width the new width is 0, so
    [resize] is asked for an empty image.  Both new sides are at least 1
    when the width is at most 960 times the height and the height at most
    540 times the width. *)
Theorem new_size_of_extreme_shapes (img : image pixels) :
  0 < width img < max_dimension -> 0 < height img < max_dimension ->
  exists ow oh,
    new_size (width img) (height img) = Some (ow, oh) /\
    (IMAGE_MAX_WIDTH * height img < width img ->
     oh = 0 /\ resize_if_needed img = resize img (ow, 0) "LANCZOS") /\
    (IMAGE_MAX_HEIGHT * width img < height img ->
     ow = 0 /\ resize_if_needed img = resize img (0, oh) "LANCZOS") /\
    (width img <= 960 * height img -> height img <= 540 * width img ->
     1 <= ow /\ 1 <= oh).
Proof.
  intros Hw Hh. set (w := width img) in *. set (h := height img) in *.
  destruct (new_size_spec w h Hw Hh)
    as (ow & oh & c & b & E & Ht & Hc & Hb & [Hw1 Hw2] & [Hh1 Hh2]).
  exists ow, oh. split; [exact E |].
  assert (Hresize : IMAGE_MAX_WIDTH < w \/ IMAGE_MAX_HEIGHT < h ->
                    resize_if_needed img = resize img (ow, oh) "LANCZOS").
  { intros Hbig. unfold resize_if_needed. fold w h. rewrite E.
    assert ((IMAGE_MAX_WIDTH <? w) || (IMAGE_MAX_HEIGHT <? h) = true) as ->;
      [| reflexivity].
    apply orb_true_iff. rewrite !Z.ltb_lt. exact Hbig. }
  unfold ratio_terms in Ht. unfold IMAGE_MAX_WIDTH, IMAGE_MAX_HEIGHT in *.
  destruct (1920 * h <=? 1080 * w) eqn:Eb;
    [apply Z.leb_le in Eb | apply Z.leb_gt in Eb]; injection Ht as <- <-.
  - assert (Hlo : 0 < oh + 1) by (apply (mul_cancel_lt _ _ w); lia).
    assert (How : 1920 <= ow + 1) by (apply (mul_cancel_le _ _ w); lia).
    split; [| split].
    + intros Hcase.
      assert (oh < 1) by (apply (mul_cancel_lt _ _ w); lia).
      assert (oh = 0) as -> by lia.
      split; [reflexivity | apply Hresize; lia].
    + intros Hcase. lia.
    + intros Hc1 Hc2. split; [lia |].
      assert (2 <= oh + 1) by (apply (mul_cancel_le _ _ w); lia). lia.
  - assert (Hlo : 0 < ow + 1) by (apply (mul_cancel_lt _ _ h); lia).
    assert (Hoh : 1080 <= oh + 1) by (apply (mul_cancel_le _ _ h); lia).
    split; [| split].
    + intros Hcase. lia.
    + intros Hcase.
      assert (ow < 1) by (apply (mul_cancel_lt _ _ h); lia).
      assert (ow = 0) as -> by lia.
      split; [reflexivity | apply Hresize; lia].
    + intros Hc1 Hc2. split; [| lia].
      assert (2 <= ow + 1) by (apply (mul_cancel_le _ _ h); lia). lia.
Qed.

End SizingProperties.

(** A picture 2148 wide comes out 1919 wide. *)
Lemma new_size_fills_the_box_witness :
  exists ow oh, new_size 2148 1000 = Some (ow, oh) /\ 1919 <= ow <= 1920.
Proof.
  destruct (new_size_fills_the_box 2148 1000) as (ow & oh & E & Hwide & _).
  - unfold max_dimension. lia.
  - unfold max_dimension. lia.
  - exists ow, oh. split; [exact E |]. apply Hwide. vm_compute. discriminate.
Defined.

(** A banner of 4000 x 2 pixels is sent to [resize] with a height of 0. *)
Lemma new_size_of_extreme_shapes_witness :
  exists ow oh, new_size 4000 2 = Some (ow, oh) /\ oh = 0.
Proof.
  destruct (@new_size_of_extreme_shapes Toy.imagelib (Image "RGB" (4000, 2) tt))
    as (ow & oh & E & Hlong & _).
  - unfold width, max_dimension; simpl; lia.
  - unfold height, max_dimension; simpl; lia.
  - exists ow, oh. split; [exact E |]. apply Hlong. vm_compute. reflexivity.
Defined.


(** ** What a result reports *)

Section ReportProperties.
Context `{Platform} `{ImageLib} `{Subprocess}.
Local Open Scope R_scope.

(** X9.  For a regular file of [n] bytes, [n] below [2^53],
    [get_file_size_mb] returns exactly [n / 1048576]: the division by
    [1024 * 1024] loses nothing, the result is 0 for an empty file only, and
    the filesystem is not changed.  For a path that is not there it raises
    the error of [stat]. *)
Theorem get_file_size_mb_is_exact (m : fs) (p : path) (f : file) :
  node_at m p = Some (NFile f) ->
  (Z.of_nat (length (f_bytes f)) < 2 ^ 53)%Z ->
  exists x,
    get_file_size_mb p m = (Ok x, m) /\
    F2R x = IZR (Z.of_nat (length (f_bytes f))) / 1048576 /\
    (0 <= Fnum x)%Z /\ (Fnum x = 0%Z <-> f_bytes f = []) /\
    forall q : path, node_at m q = None ->
                     get_file_size_mb q m = (Raise (missing m q), m).
Proof.
  intros Hp Hlt. exists (size_mb f).
  destruct (size_mb_exact f Hlt) as [Hv Hz].
  split; [apply get_file_size_mb_file; exact Hp |].
  split; [exact Hv |]. split; [apply size_mb_nonneg |]. split; [exact Hz |].
  intros q Hq. unfold get_file_size_mb, bind, st_size. rewrite Hq. reflexivity.
Qed.

(** A success of [optimize_image]: the record, the file written and the
    image that was encoded. *)
Lemma image_success_fields (src dst : path) (f : file) (m m' : fs) (r : result) :
  node_at m src = Some (NFile f) ->
  Media.optimize_image src dst m = (Ok r, m') \/
  Productos.optimize_image src dst m = (Ok r, m') ->
  success r = true ->
  exists final osz img' g q,
    transcode_image src dst m = (Ok (final, osz, img'), m') /\
    node_at m' final = Some (NFile g) /\
    Fdiv (size_mb g) (size_mb f) = Some q /\
    source r = src /\ output r = final /\ error r = None /\
    original_size_mb r = size_mb f /\ optimized_size_mb r = Some (size_mb g) /\
    reduction_percent r = Some (Fmul (Fsub (of_int 1) q) (of_int 100)) /\
    (Media.optimize_image src dst m = (Ok r, m') ->
     resized r = Some (negb (size_eqb osz (im_size img')))).
Proof.
  intros Hsrc Hrun Hs.
  assert (Hcore : exists final osz img' opt q,
             transcode_image src dst m = (Ok (final, osz, img'), m') /\
             get_file_size_mb final m' = (Ok opt, m') /\
             Fdiv opt (size_mb f) = Some q /\
             source r = src /\ output r = final /\ error r = None /\
             original_size_mb r = size_mb f /\ optimized_size_mb r = Some opt /\
             reduction_percent r = Some (Fmul (Fsub (of_int 1) q) (of_int 100)) /\
             (Media.optimize_image src dst m = (Ok r, m') ->
              resized r = Some (negb (size_eqb osz (im_size img'))))).
  { destruct Hrun as [Hrun|Hrun].
    - destruct (Media_optimize_image_inv _ _ _ _ _ _ Hsrc Hrun)
        as [(final & osz & img' & opt & q & Ht & Hsz & Hq & ->)
           |(out & msg & opt & ->)]; [| discriminate Hs].
      exists final, osz, img', opt, q. simpl. repeat split; auto.
    - destruct (Productos_optimize_image_inv _ _ _ _ _ _ Hsrc Hrun)
        as [(final & osz & img' & opt & q & Ht & Hsz & Hq & ->)
           |(out & msg & opt & ->)]; [| discriminate Hs].
      exists final, osz, img', opt, q. simpl. repeat split; auto.
      intros Hmedia.
      destruct (Media_optimize_image_inv _ _ _ _ _ _ Hsrc Hmedia)
        as [(? & ? & ? & ? & ? & _ & _ & _ & Hr)|(? & ? & ? & Hr)]; discriminate Hr. }
  destruct Hcore as (final & osz & img' & opt & q & Ht & Hsz & Hq & Hfields).
  pose proof Ht as Ht'. unfold transcode_image in Ht'.
  apply bind_Ok_inv in Ht' as ([] & m0 & _ & Hblock).
  apply open_and_save_Ok_inv in Hblock
    as (f1 & i0 & i1 & b & _ & _ & _ & _ & _ & Hsuf & _ & Hm' & _).
  destruct (with_suffix_parent _ _ _ Hsuf) as [_ Hfinal].
  assert (Hnode : node_at m' final = Some (NFile (File b new_file_meta)))
    by (rewrite Hm'; apply node_at_insert_eq; exact Hfinal).
  rewrite (get_file_size_mb_file _ _ _ Hnode) in Hsz. injection Hsz as <-.
  exists final, osz, img', (File b new_file_meta), q.
  split; [exact Ht |]. split; [exact Hnode |]. split; [exact Hq |]. exact Hfields.
Qed.

(** X10.  A result of [optimize_image] (of either script) with
    [success = True] reports the sizes of the source and of the file that
    was written at [output], has no error text, and its
    [reduction_percent] is at most 100, not negative when the written file
    is not larger than the source, and not positive when it is not smaller
    (a file that grew is still a success). *)
Theorem success_reports_the_written_file
    (src dst : path) (f : file) (m m' : fs) (r : result) :
  node_at m src = Some (NFile f) ->
  Media.optimize_image src dst m = (Ok r, m') \/
  Productos.optimize_image src dst m = (Ok r, m') ->
  success r = true ->
  exists (g : file) (x : float),
    node_at m' (output r) = Some (NFile g) /\
    source r = src /\ error r = None /\
    original_size_mb r = size_mb f /\ optimized_size_mb r = Some (size_mb g) /\
    reduction_percent r = Some x /\
    F2R x <= 100 /\
    (F2R (size_mb g) <= F2R (size_mb f) -> 0 <= F2R x) /\
    (F2R (size_mb f) <= F2R (size_mb g) -> F2R x <= 0) /\
    ((Z.of_nat (length (f_bytes f)) < 2 ^ 53)%Z ->
     (Z.of_nat (length (f_bytes g)) < 2 ^ 53)%Z ->
     ((length (f_bytes g) <= length (f_bytes f))%nat -> 0 <= F2R x) /\
     ((length (f_bytes f) <= length (f_bytes g))%nat -> F2R x <= 0)).
Proof.
  intros Hsrc Hrun Hs.
  destruct (image_success_fields _ _ _ _ _ _ Hsrc Hrun Hs)
    as (final & osz & img' & g & q & _ & Hnode & Hq & Hsource & Hout & Herr &
        Horig & Hopt & Hred & _).
  assert (Hb : (0 < Fnum (size_mb f))%Z).
  { pose proof (size_mb_nonneg f). unfold Fdiv in Hq.
    destruct (Z.eqb_spec (Fnum (size_mb f)) 0); [discriminate | lia]. }
  destruct (@reduction_facts unit (size_mb g) (size_mb f) tt (size_mb_nonneg g) Hb)
    as (x & Hx & Hle & Hpos & Hneg & _).
  unfold reduction in Hx. rewrite Hq in Hx. unfold ret in Hx.
  assert (Ex : x = Fmul (Fsub (of_int 1) q) (of_int 100)) by congruence.
  clear Hx. subst x.
  eexists g, _. rewrite Hout.
  repeat (split; [eassumption |]).
  intros Hf Hg.
  destruct (size_mb_exact f Hf) as [Ef _]. destruct (size_mb_exact g Hg) as [Eg _].
  split; intros Hlen.
  - apply Hpos. rewrite Ef, Eg.
    apply Nat2Z.inj_le in Hlen. apply IZR_le in Hlen. lra.
  - apply Hneg. rewrite Ef, Eg.
    apply Nat2Z.inj_le in Hlen. apply IZR_le in Hlen. lra.
Qed.

(** X11.  In the media script a successful result carries [resized], and
    it is [True] exactly when the decoded image was wider than 1920 or
    taller than 1080; a result of the fallback has no such key, and the
    product script never sets it. *)
Theorem resized_tells_whether_the_image_was_scaled
    (src dst : path) (f : file) (img0 : image pixels) (m m' : fs) (r : result) :
  node_at m src = Some (NFile f) ->
  lib_open (f_bytes f) = Ok img0 ->
  (0 < width img0 < max_dimension)%Z -> (0 < height img0 < max_dimension)%Z ->
  (Media.optimize_image src dst m = (Ok r, m') ->
   resized r = if success r
               then Some (needs_resize (width img0) (height img0))
               else None) /\
  (Productos.optimize_image src dst m = (Ok r, m') -> resized r = None).
Proof.
  intros Hsrc Hdec Hw Hh. split; intros Hrun.
  - destruct (success r) eqn:Hs.
    + destruct (image_success_fields _ _ _ _ _ _ Hsrc (or_introl Hrun) Hs)
        as (final & osz & img' & g & q & Ht & _ & _ & _ & _ & _ & _ & _ & _ & Hres).
      rewrite (Hres Hrun). f_equal.
      unfold transcode_image in Ht. apply bind_Ok_inv in Ht as ([] & m0 & Hmk & Hblock).
      apply open_and_save_Ok_inv in Hblock
        as (f1 & i0 & i1 & b & Hsrc1 & Hdec1 & Hnorm & -> & Hresize & _).
      rewrite (mkdir_parents_keeps _ _ _ _ _ _ Hmk Hsrc) in Hsrc1.
      injection Hsrc1 as <-. rewrite Hdec in Hdec1. injection Hdec1 as <-.
      apply normalise_mode_size in Hnorm.
      assert (Ew : width i1 = width img0) by (unfold width; rewrite Hnorm; reflexivity).
      assert (Eh : height i1 = height img0) by (unfold height; rewrite Hnorm; reflexivity).
      unfold needs_resize. unfold resize_if_needed in Hresize.
      rewrite Ew, Eh in Hresize.
      destruct ((IMAGE_MAX_WIDTH <? width img0) || (IMAGE_MAX_HEIGHT <? height img0))
        eqn:Hbig.
      * destruct (new_size_facts _ _ Hw Hh) as (ow & oh & E & [_ How] & [_ Hoh] & _).
        rewrite E in Hresize. unfold resize in Hresize.
        apply map_outcome_Ok_inv in Hresize as (px & _ & ->). simpl im_size.
        unfold size_eqb. rewrite Hnorm. simpl.
        apply orb_true_iff in Hbig. rewrite !Z.ltb_lt in Hbig.
        apply negb_true_iff, andb_false_iff.
        fold (width img0) (height img0).
        destruct Hbig; [left | right]; apply Z.eqb_neq; lia.
      * injection Hresize as <-. rewrite size_eqb_refl. reflexivity.
    + destruct (Media_optimize_image_inv _ _ _ _ _ _ Hsrc Hrun)
        as [(? & ? & ? & ? & ? & _ & _ & _ & ->)|(? & ? & ? & ->)];
        [discriminate Hs | reflexivity].
  - destruct (Productos_optimize_image_inv _ _ _ _ _ _ Hsrc Hrun)
      as [(? & ? & ? & ? & ? & _ & _ & _ & ->)|(? & ? & ? & ->)]; reflexivity.
Qed.

End ReportProperties.

(** The four bytes of [bad.png] are [4 / 1048576] MB. *)
Lemma get_file_size_mb_is_exact_witness :
  exists x,
    @get_file_size_mb Toy.platform Toy.bad_src Toy.media_tree = (Ok x, Toy.media_tree) /\
    F2R x = (4 / 1048576)%R.
Proof.
  destruct (@get_file_size_mb_is_exact Toy.platform Toy.media_tree Toy.bad_src
              (File Toy.junk Toy.a_meta)) as (x & Hrun & Hv & _).
  - vm_compute. reflexivity.
  - vm_compute. reflexivity.
  - exists x. split; [exact Hrun | exact Hv].
Defined.

(** The picture [p.webp] of the product tree is a success. *)
Lemma success_reports_the_written_file_witness :
  exists r m' x,
    @Productos.optimize_image Toy.platform Toy.imagelib Toy.p_src Toy.p_dst Toy.product_tree
      = (Ok r, m') /\
    reduction_percent r = Some x /\ (F2R x <= 100)%R.
Proof.
  destruct (@Productos.optimize_image Toy.platform Toy.imagelib Toy.p_src Toy.p_dst
              Toy.product_tree) as [[r|e] m'] eqn:Hrun.
  - assert (Hs : success r = true).
    { assert (Hok : map_outcome success
                      (fst (@Productos.optimize_image Toy.platform Toy.imagelib
                              Toy.p_src Toy.p_dst Toy.product_tree)) = Ok true)
        by (vm_compute; reflexivity).
      rewrite Hrun in Hok. simpl in Hok. congruence. }
    destruct (@success_reports_the_written_file Toy.platform Toy.imagelib
                Toy.p_src Toy.p_dst (File (Toy.picture 800 600) Toy.a_meta)
                Toy.product_tree m' r)
      as (g & x & _ & _ & _ & _ & _ & Hred & Hle & _).
    + vm_compute. reflexivity.
    + right. exact Hrun.
    + exact Hs.
    + exists r, m', x. split; [reflexivity |]. split; [exact Hred | exact Hle].
  - exfalso.
    assert (Hok : returned (fst (@Productos.optimize_image Toy.platform Toy.imagelib
                              Toy.p_src Toy.p_dst Toy.product_tree)) = true)
      by (vm_compute; reflexivity).
    rewrite Hrun in Hok. discriminate.
Defined.

(** The 3000 x 2000 picture [big.jpg] is scaled, and the result says so. *)
Lemma resized_tells_whether_the_image_was_scaled_witness :
  map_outcome resized
    (fst (@Media.optimize_image Toy.platform Toy.imagelib
            Sample.big_src Sample.big_dst Toy.media_tree)) = Ok (Some true).
Proof.
  destruct (@Media.optimize_image Toy.platform Toy.imagelib
              Sample.big_src Sample.big_dst Toy.media_tree) as [[r|e] m'] eqn:Hrun.
  - assert (Hs : success r = true).
    { assert (Hok : map_outcome success
                      (fst (@Media.optimize_image Toy.platform Toy.imagelib
                              Sample.big_src Sample.big_dst Toy.media_tree)) = Ok true)
        by (vm_compute; reflexivity).
      rewrite Hrun in Hok. simpl in Hok. congruence. }
    simpl. f_equal.
    pose proof (proj1 (@resized_tells_whether_the_image_was_scaled
                         Toy.platform Toy.imagelib
                         Sample.big_src Sample.big_dst
                         (File (Toy.picture 3000 2000) Toy.a_meta)
                         (Image "RGB" (3000, 2000) tt) Toy.media_tree m' r
                         ltac:(vm_compute; reflexivity) ltac:(vm_compute; reflexivity)
                         ltac:(unfold width, max_dimension; simpl; lia)
                         ltac:(unfold height, max_dimension; simpl; lia)) Hrun) as Hr.
    rewrite Hs in Hr. exact Hr.
  - exfalso.
    assert (Hok : returned (fst (@Media.optimize_image Toy.platform Toy.imagelib
                              Sample.big_src Sample.big_dst Toy.media_tree)) = true)
      by (vm_compute; reflexivity).
    rewrite Hrun in Hok. discriminate.
Defined.


(** ** More about [optimize_video] *)

Section VideoProperties.
Context `{Platform} `{ImageLib} `{Subprocess}.



End VideoProperties.



(** ** The statistics behind the summary *)

Section SummaryProperties.
Context `{Platform} `{ImageLib} `{Subprocess}.

(** X14.  The statistics the summary is printed from agree with the run.
    In the media script a run that returns has counted every image file
    under ['images'] and every video file under ['videos'], each once, and
    has copied every other file; the three numbers add up to the number of
    files announced; the errors of the two categories together are the
    error lines printed, and no category has more errors than files.  In the
    product script the files processed are the files announced and the
    errors are the error lines printed. *)
Theorem the_summary_counts_what_the_loop_did (w w' : world) :
  (exists_in (w_fs w) Media.SOURCE_DIR = true ->
   Media.main w = (Ok tt, w') ->
   exists (m0 : fs) (lines : list line) (st : Media.stats) (w1 : world),
     mkdir_parents Media.OUTPUT_DIR (w_fs w) = (Ok tt, m0) /\
     w_out w1 = w_out w
                ++ [LBanner; LFound (length (regular_files m0 Media.SOURCE_DIR))]
                ++ lines /\
     Media.print_summary st w1 = (Ok tt, w') /\
     processed (Media.images st) = count is_image (regular_files m0 Media.SOURCE_DIR) /\
     processed (Media.videos st) = count is_video (regular_files m0 Media.SOURCE_DIR) /\
     count is_copied lines
     = count (fun f => negb (is_media f)) (regular_files m0 Media.SOURCE_DIR) /\
     processed (Media.images st) + processed (Media.videos st) + count is_copied lines
     = Z.of_nat (length (regular_files m0 Media.SOURCE_DIR)) /\
     errors (Media.images st) + errors (Media.videos st) = count is_failed lines /\
     0 <= errors (Media.images st) <= processed (Media.images st) /\
     0 <= errors (Media.videos st) <= processed (Media.videos st)) /\
  (exists_in (w_fs w) Productos.SOURCE_DIR = true ->
   Productos.main w = (Ok tt, w') ->
   exists (n : nat) (lines : list line) (st : cat_stats) (w1 : world),
     w_out w1 = w_out w ++ [LBanner; LFound n] ++ lines /\
     Productos.print_summary st w1 = (Ok tt, w') /\
     processed st = Z.of_nat n /\
     errors st = count is_failed lines /\
     0 <= errors st <= processed st).
Proof.
  split; intros Hex Hrun.
  - rewrite (Media_main_found _ Hex) in Hrun.
    destruct (mkdir_parents Media.OUTPUT_DIR (w_fs w)) as [[[]|e] m0] eqn:Hmk;
      [| discriminate].
    cbv zeta in Hrun. apply bind_Ok_inv in Hrun as (st & w1 & Hloop & Hsum).
    apply Media_loop_stats in Hloop as (lines & Hout & Hi & Hv & Hc & He & Hei & Hev).
    rewrite count_video_only in Hv, Hev. simpl in Hout, Hi, Hv, He, Hei, Hev.
    pose proof (count_partition (regular_files m0 Media.SOURCE_DIR)) as Hpart.
    exists m0, lines, st, w1.
    split; [reflexivity |].
    split; [rewrite Hout, <- app_assoc; reflexivity |].
    split; [exact Hsum |].
    repeat split; try lia.
  - rewrite (Productos_main_found _ Hex) in Hrun.
    destruct (mkdir_parents Productos.OUTPUT_DIR (w_fs w)) as [[[]|e] m0] eqn:Hmk;
      [| discriminate].
    cbv zeta in Hrun. apply bind_Ok_inv in Hrun as (st & w1 & Hloop & Hsum).
    apply Productos_loop_stats in Hloop as (lines & Hout & Hp & He & Hb).
    simpl in Hout, Hp, He, Hb.
    eexists _, lines, st, w1.
    split; [rewrite Hout, <- app_assoc; reflexivity |].
    split; [exact Hsum |].
    pose proof (count_nonneg is_failed lines).
    repeat split; try lia.
Qed.

End SummaryProperties.

(** The media tree with no transcoder installed: one image goes through, one
    image and the video fail, the text file is copied. *)
Lemma the_summary_counts_what_the_loop_did_witness :
  exists (lines : list line) (st : Media.stats),
    errors (Media.images st) + errors (Media.videos st) = count is_failed lines /\
    processed (Media.images st) + processed (Media.videos st) + count is_copied lines = 4.
Proof.
  destruct (proj1 (@the_summary_counts_what_the_loop_did
                     Toy.platform Toy.imagelib (Toy.subprocess NotInstalled)
                     (World Toy.media_tree [])
                     (snd (@Media.main Toy.platform Toy.imagelib
                             (Toy.subprocess NotInstalled) (World Toy.media_tree [])))))
    as (m0 & lines & st & w1 & Hmk & _ & _ & _ & _ & _ & Hsum & Herr & _).
  - vm_compute. reflexivity.
  - apply pair_of_fst. vm_compute. reflexivity.
  - exists lines, st. split; [exact Herr |]. rewrite Hsum.
    assert (Hm0 : m0 = snd (@mkdir_parents Toy.platform
                              (@Media.OUTPUT_DIR Toy.platform) Toy.media_tree))
      by (simpl in Hmk; rewrite Hmk; reflexivity).
    rewrite Hm0. vm_compute. reflexivity.
Defined.


(** ** Names, messages and modes *)

Section NameProperties.
Context `{Platform} `{ImageLib} `{Subprocess}.

(** X15.  A successful [optimize_image] (of either script) for a
    destination named [stem + ext], [ext] any of the image extensions,
    writes [stem + .webp] in the same directory: only the last extension is
    replaced, and two sources that differ in the extension alone ([a.jpg]
    and [a.png], or [a.jpg] and [a.JPG]) are written to one and the same
    output file. *)
Theorem images_with_one_stem_share_the_output
    (d : path) (stem ext1 ext2 : string) (src1 src2 : path)
    (m1 m1' m2 m2' : fs) (r1 r2 : result) :
  stem <> ""%string ->
  ext1 ∈ IMAGE_EXTENSIONS -> ext2 ∈ IMAGE_EXTENSIONS ->
  Media.optimize_image src1 (d ++ [String.append stem ext1]) m1 = (Ok r1, m1') \/
  Productos.optimize_image src1 (d ++ [String.append stem ext1]) m1 = (Ok r1, m1') ->
  Media.optimize_image src2 (d ++ [String.append stem ext2]) m2 = (Ok r2, m2') \/
  Productos.optimize_image src2 (d ++ [String.append stem ext2]) m2 = (Ok r2, m2') ->
  success r1 = true -> success r2 = true ->
  output r1 = d ++ [String.append stem ".webp"] /\ output r2 = output r1.
Proof.
  intros Hstem He1 He2 Hrun1 Hrun2 Hs1 Hs2.
  assert (Hout : forall (ext : string) (src : path) (m m' : fs) (r : result),
             ext ∈ IMAGE_EXTENSIONS ->
             Media.optimize_image src (d ++ [String.append stem ext]) m = (Ok r, m') \/
             Productos.optimize_image src (d ++ [String.append stem ext]) m = (Ok r, m') ->
             success r = true -> output r = d ++ [String.append stem ".webp"]).
  { intros ext src m m' r Hext Hrun Hs.
    assert (Ht : exists final osz img',
               transcode_image src (d ++ [String.append stem ext]) m
               = (Ok (final, osz, img'), m') /\ output r = final).
    { destruct Hrun as [Hrun|Hrun].
      - eapply Media_optimize_image_success; eassumption.
      - eapply Productos_optimize_image_success; eassumption. }
    destruct Ht as (final & osz & img' & Ht & ->).
    unfold transcode_image in Ht. apply bind_Ok_inv in Ht as ([] & m0 & _ & Ht).
    apply open_and_save_Ok_inv in Ht
      as (f & i0 & i1 & b & _ & _ & _ & _ & _ & Hsuf & _).
    rewrite (proj2 (with_suffix_of_image_name d stem ext Hstem Hext)) in Hsuf.
    congruence. }
  rewrite (Hout _ _ _ _ _ He1 Hrun1 Hs1), (Hout _ _ _ _ _ He2 Hrun2 Hs2).
  split; reflexivity.
Qed.


(** What [normalise_mode] returns has the mode [RGB]. *)
Lemma normalise_mode_RGB (img img' : image pixels) :
  normalise_mode img = Ok img' -> im_mode img' = "RGB"%string.
Proof.
  unfold normalise_mode.
  destruct (String.eqb (im_mode img) "RGBA" || String.eqb (im_mode img) "P").
  - unfold Image_new. destruct (lib_new _ _ _) as [bg|e]; simpl; [| discriminate].
    destruct (if String.eqb (im_mode img) "P" then convert img "RGBA" else Ok img)
      as [img2|e]; [| discriminate].
    destruct (if String.eqb (im_mode img2) "RGBA"
              then map_outcome Some (split_last img2) else Ok None) as [mask|e];
      [| discriminate].
    unfold paste. intros Hp. apply map_outcome_Ok_inv in Hp as (px & _ & ->).
    reflexivity.
  - destruct (String.eqb (im_mode img) "RGB") eqn:E; simpl.
    + intros [= <-]. apply String.eqb_eq. exact E.
    + unfold convert. intros Hc. apply map_outcome_Ok_inv in Hc as (px & _ & ->).
      reflexivity.
Qed.

Lemma resize_if_needed_mode (img img' : image pixels) :
  resize_if_needed img = Ok img' -> im_mode img' = im_mode img.
Proof.
  unfold resize_if_needed.
  destruct ((IMAGE_MAX_WIDTH <? width img) || (IMAGE_MAX_HEIGHT <? height img)).
  - destruct (new_size _ _) as [size|]; [| discriminate].
    unfold resize. intros Hr. apply map_outcome_Ok_inv in Hr as (px & _ & ->).
    reflexivity.
  - intros [= <-]. reflexivity.
Qed.

(** X17.  Whatever the mode of the decoded image, the image handed to the
    encoder has the mode [RGB]; an
    [RGBA] or [P] image gets there by being pasted on a white [RGB]
    background of its own size through its alpha band ([P] converted to
    [RGBA] first), so [paste] is never called with [mask=None]. *)
Theorem only_RGB_reaches_the_encoder
    (src dst final : path) (osz : Z * Z) (img' : image pixels) (m m' : fs) :
  transcode_image src dst m = (Ok (final, osz, img'), m') ->
  im_mode img' = "RGB"%string /\
  (exists b, lib_encode img' (Some "WEBP"%string) (suffix final) IMAGE_QUALITY (Method 6)
             = Encoded b) /\
  exists (f : file) (img0 img1 : image pixels),
    node_at m src = Some (NFile f) /\ lib_open (f_bytes f) = Ok img0 /\
    normalise_mode img0 = Ok img1 /\ im_size img1 = im_size img0 /\
    osz = im_size img0 /\
    (im_mode img0 = "RGBA"%string \/ im_mode img0 = "P"%string ->
     exists (background rgba mask : image pixels),
       Image_new "RGB" (im_size img0) (255, 255, 255) = Ok background /\
       (rgba = img0 \/ convert img0 "RGBA" = Ok rgba) /\
       im_mode rgba = "RGBA"%string /\
       split_last rgba = Ok mask /\
       paste background rgba (Some mask) = Ok img1).
Proof.
  intros Ht. unfold transcode_image in Ht.
  apply bind_Ok_inv in Ht as ([] & m0 & Hmk & Ht).
  apply open_and_save_Ok_inv in Ht
    as (f & i0 & i1 & b & Hsrc & Hdec & Hnorm & -> & Hres & _ & Henc & _ & _).
  split; [| split].
  - rewrite (resize_if_needed_mode _ _ Hres). exact (normalise_mode_RGB _ _ Hnorm).
  - exists b. exact Henc.
  - assert (Hsrc' : exists f', node_at m src = Some (NFile f') /\ f' = f).
    { unfold node_at in *. destruct src as [|c src]; [discriminate |].
      destruct (m !! (c :: src)) as [nd|] eqn:E.
      - rewrite (mkdir_from_keeps _ _ _ _ _ _ _ Hmk E) in Hsrc. eauto.
      - destruct (mkdir_from_new _ _ _ _ _ _ _ Hmk Hsrc) as [Hin|[Hdir _]];
          [congruence | discriminate]. }
    destruct Hsrc' as (f' & Hsrc' & ->).
    exists f, i0, i1. pose proof (normalise_mode_size _ _ Hnorm) as Hsize.
    split; [exact Hsrc' |]. split; [exact Hdec |]. split; [exact Hnorm |].
    split; [exact Hsize |]. split; [exact Hsize |].
    intros Hmode. unfold normalise_mode in Hnorm.
    assert (String.eqb (im_mode i0) "RGBA" || String.eqb (im_mode i0) "P" = true) as Hb.
    { apply orb_true_iff. rewrite !String.eqb_eq. exact Hmode. }
    rewrite Hb in Hnorm.
    destruct (Image_new "RGB" (im_size i0) (255, 255, 255)) as [bg|e] eqn:Ebg;
      [| discriminate].
    destruct (String.eqb (im_mode i0) "P") eqn:EP.
    + destruct (convert i0 "RGBA") as [rgba|e] eqn:Ec; [| discriminate].
      assert (Hm : im_mode rgba = "RGBA"%string).
      { unfold convert in Ec. apply map_outcome_Ok_inv in Ec as (px & _ & ->).
        reflexivity. }
      rewrite Hm in Hnorm. simpl in Hnorm.
      destruct (split_last rgba) as [mask|e] eqn:Es; [| discriminate]. simpl in Hnorm.
      exists bg, rgba, mask. repeat split; auto.
    + assert (Hm : im_mode i0 = "RGBA"%string).
      { destruct Hmode as [Hm|Hm]; [exact Hm |].
        rewrite Hm in EP. discriminate. }
      rewrite Hm in Hnorm. simpl in Hnorm.
      destruct (split_last i0) as [mask|e] eqn:Es; [| discriminate]. simpl in Hnorm.
      exists bg, i0, mask. repeat split; auto.
Qed.

End NameProperties.

(** [a.jpg] and [a.png] both end at [a.webp]. *)
Lemma images_with_one_stem_share_the_output_witness :
  map_outcome output
    (fst (@Productos.optimize_image Toy.platform Toy.imagelib
            Sample.a_jpg Sample.a_jpg_dst Sample.twin_tree)) = Ok Sample.a_webp_dst /\
  map_outcome output
    (fst (@Productos.optimize_image Toy.platform Toy.imagelib
            Sample.a_png Sample.a_png_dst Sample.twin_tree)) = Ok Sample.a_webp_dst.
Proof.
  destruct (@Productos.optimize_image Toy.platform Toy.imagelib
              Sample.a_jpg Sample.a_jpg_dst Sample.twin_tree) as [[r1|e1] m1] eqn:Hrun1.
  2:{ exfalso.
      assert (Hok : returned (fst (@Productos.optimize_image Toy.platform Toy.imagelib
                Sample.a_jpg Sample.a_jpg_dst Sample.twin_tree)) = true)
        by (vm_compute; reflexivity).
      rewrite Hrun1 in Hok. discriminate. }
  destruct (@Productos.optimize_image Toy.platform Toy.imagelib
              Sample.a_png Sample.a_png_dst Sample.twin_tree) as [[r2|e2] m2] eqn:Hrun2.
  2:{ exfalso.
      assert (Hok : returned (fst (@Productos.optimize_image Toy.platform Toy.imagelib
                Sample.a_png Sample.a_png_dst Sample.twin_tree)) = true)
        by (vm_compute; reflexivity).
      rewrite Hrun2 in Hok. discriminate. }
  assert (Hs1 : success r1 = true).
  { assert (Hok : map_outcome success
                    (fst (@Productos.optimize_image Toy.platform Toy.imagelib
                            Sample.a_jpg Sample.a_jpg_dst Sample.twin_tree)) = Ok true)
      by (vm_compute; reflexivity).
    rewrite Hrun1 in Hok. simpl in Hok. congruence. }
  assert (Hs2 : success r2 = true).
  { assert (Hok : map_outcome success
                    (fst (@Productos.optimize_image Toy.platform Toy.imagelib
                            Sample.a_png Sample.a_png_dst Sample.twin_tree)) = Ok true)
      by (vm_compute; reflexivity).
    rewrite Hrun2 in Hok. simpl in Hok. congruence. }
  destruct (@images_with_one_stem_share_the_output Toy.platform Toy.imagelib
              ["srv"; "ProductosOptimized"]%string "a" ".jpg" ".png"
              Sample.a_jpg Sample.a_png Sample.twin_tree m1 Sample.twin_tree m2 r1 r2)
    as [Ho1 Ho2].
  - discriminate.
  - vm_compute. reflexivity.
  - vm_compute. reflexivity.
  - right. exact Hrun1.
  - right. exact Hrun2.
  - exact Hs1.
  - exact Hs2.
  - simpl. rewrite Ho2, Ho1. split; reflexivity.
Defined.


(** The picture [p.webp] is encoded as an [RGB] image. *)
Lemma only_RGB_reaches_the_encoder_witness :
  exists final osz img' m',
    @transcode_image Toy.platform Toy.imagelib Toy.p_src Toy.p_dst Toy.product_tree
    = (Ok (final, osz, img'), m') /\
    im_mode img' = "RGB"%string.
Proof.
  destruct (@transcode_image Toy.platform Toy.imagelib Toy.p_src Toy.p_dst
              Toy.product_tree) as [[[[final osz] img']|e] m'] eqn:Hrun.
  - exists final, osz, img', m'. split; [reflexivity |].
    exact (proj1 (@only_RGB_reaches_the_encoder Toy.platform Toy.imagelib
                    _ _ _ _ _ _ _ Hrun)).
  - exfalso.
    assert (Hok : returned (fst (@transcode_image Toy.platform Toy.imagelib
                                   Toy.p_src Toy.p_dst Toy.product_tree)) = true)
      by (vm_compute; reflexivity).
    rewrite Hrun in Hok. discriminate.
Defined.


(** ** The output tree after a run *)

Section OutputProperties.
Context `{Platform} `{ImageLib} `{Subprocess}.

(** X18.  After a run of the media script that returns, every regular file
    below the source directory whose extension is neither an image nor a
    video extension has a copy with the same content and metadata at the
    same relative path below the output directory, provided that path was
    not a directory before the run; no later file of the run overwrites it,
    and the source file is as it was. *)
Theorem other_files_are_mirrored (w w' : world) (rel : path) (f : file) :
  Media.main w = (Ok tt, w') ->
  walkable (w_fs w) Media.SOURCE_DIR (Media.SOURCE_DIR ++ rel) = true ->
  node_at (w_fs w) (Media.SOURCE_DIR ++ rel) = Some (NFile f) ->
  is_media (Media.SOURCE_DIR ++ rel) = false ->
  is_dir_in (w_fs w) (join Media.OUTPUT_DIR rel) = false ->
  node_at (w_fs w') (join Media.OUTPUT_DIR rel) = Some (NFile f) /\
  node_at (w_fs w') (Media.SOURCE_DIR ++ rel) = Some (NFile f).
Proof.
  intros Hrun Hwalk Hnode Hother Hd.
  set (p := Media.SOURCE_DIR ++ rel) in *. set (D := join Media.OUTPUT_DIR rel) in *.
  destruct (walkable_inv _ _ _ Hwalk) as (_ & Hlen & Hdirs).
  assert (Hrel : rel <> []).
  { intros E. unfold p in Hlen. rewrite E, app_nil_r in Hlen. lia. }
  assert (Hp : p <> []).
  { unfold p. destruct rel; [contradiction |].
    intros E. apply app_eq_nil in E as [_ E]. discriminate. }
  assert (HD : D <> []).
  { unfold D, join. destruct rel; [contradiction |].
    intros E. apply app_eq_nil in E as [_ E]. discriminate. }
  assert (Hex : exists_in (w_fs w) Media.SOURCE_DIR = true).
  { specialize (Hdirs (length Media.SOURCE_DIR) ltac:(lia)).
    unfold p in Hdirs. rewrite take_app_length in Hdirs.
    unfold is_dir_in, exists_in in *.
    destruct (node_at (w_fs w) Media.SOURCE_DIR); [reflexivity | discriminate]. }
  rewrite (Media_main_found _ Hex) in Hrun.
  destruct (mkdir_parents Media.OUTPUT_DIR (w_fs w)) as [[[]|e] m0] eqn:Hmk;
    [| discriminate].
  cbv zeta in Hrun. apply bind_Ok_inv in Hrun as (st & w1 & Hloop & Hsum).
  destruct (Media_print_summary_total st w1) as (tail & Htail).
  rewrite Htail in Hsum. injection Hsum as <-. simpl w_fs.
  assert (Hs : "Servicios"%string <> "ServiciosOptimized"%string) by discriminate.
  destruct (mkdir_sibling_keeps script_dir _ _ _ _ _ Hs Hmk p) as [Hw0 Hf0].
  change (script_dir ++ ["Servicios"%string]) with Media.SOURCE_DIR in Hw0, Hf0.
  assert (Hfile : is_file_in (w_fs w) p = true)
    by (unfold is_file_in; rewrite Hnode; reflexivity).
  assert (Hwalk0 : walkable m0 Media.SOURCE_DIR p = true) by (rewrite Hw0; exact Hwalk).
  assert (Hfile0 : is_file_in m0 p = true) by (rewrite (Hf0 Hwalk); exact Hfile).
  assert (Hnode0 : m0 !! p = Some (NFile f)).
  { rewrite <- (node_at_nonroot m0 p Hp).
    eapply mkdir_parents_keeps; [exact Hmk | exact Hnode]. }
  assert (Hd0 : is_dir_in m0 D = false).
  { unfold is_dir_in in *. rewrite node_at_nonroot in * by exact HD.
    rewrite (mkdir_parents_other _ _ _ _ _ Hmk); [exact Hd |].
    intros Hpre. apply prefix_length in Hpre. unfold D, join in Hpre.
    rewrite length_app in Hpre. destruct rel; [contradiction | simpl in Hpre; lia]. }
  assert (Hin : In p (regular_files m0 Media.SOURCE_DIR)).
  { unfold regular_files. apply filter_In. split; [| exact Hfile0].
    apply list_elem_of_In.
    exact (proj1 (proj2 (elem_of_enumerated_file m0 _ p) (conj Hwalk0 Hfile0))). }
  assert (Hall : forall q, In q (regular_files m0 Media.SOURCE_DIR) -> listed m0 q).
  { intros q Hq. unfold regular_files, enumerated in Hq.
    apply filter_In in Hq as [Hq Hfq]. apply filter_In in Hq as [_ Hwq].
    split; assumption. }
  assert (Hnd : List.NoDup (regular_files m0 Media.SOURCE_DIR)).
  { apply NoDup_ListNoDup. unfold regular_files.
    apply filter_NoDup, enumerated_NoDup. }
  destruct (the_loop_delivers m0 rel f _ Hwalk0 Hfile0 Hother _ _ _ _ _ _ Hnd Hin Hall
              Hloop Hnode0 Hd0) as [E1 E2].
  rewrite !node_at_nonroot by assumption. split; assumption.
Qed.

Lemma mkdir_from_blocked (todo : list string) :
  forall (done : path) (m : fs) (c : string) (f : file),
    (forall k, (0 < k <= length todo)%nat -> m !! (done ++ take k todo) = Some NDir) ->
    m !! (done ++ todo ++ [c]) = Some (NFile f) ->
    mkdir_from done (todo ++ [c]) m
    = (Raise (os_error FileExistsError (done ++ todo ++ [c])), m).
Proof.
  induction todo as [|a todo IH]; intros done m c f Hdirs Hfile; simpl.
  - simpl in Hfile. rewrite Hfile. reflexivity.
  - pose proof (Hdirs 1%nat ltac:(simpl; lia)) as Ha.
    change (take 1 (a :: todo)) with [a] in Ha. rewrite Ha.
    replace (done ++ a :: todo ++ [c]) with ((done ++ [a]) ++ todo ++ [c])
      by (rewrite <- app_assoc; reflexivity).
    apply (IH _ _ _ f).
    + intros k Hk. rewrite <- app_assoc. apply (Hdirs (Datatypes.S k)). simpl. lia.
    + rewrite <- app_assoc. exact Hfile.
Qed.

(** X19.  When a regular file stands where the output directory should be
    (the directory of the script being there), [mkdir(parents=True,
    exist_ok=True)] raises [FileExistsError]: [main] (of either script)
    ends with that error after the banner, before any file is listed, and
    the filesystem is as it was. *)
Theorem a_file_in_place_of_the_output_directory_stops_the_run
    (w : world) (f : file) :
  (forall k, (0 < k <= length script_dir)%nat ->
             w_fs w !! take k script_dir = Some NDir) ->
  (exists_in (w_fs w) Media.SOURCE_DIR = true ->
   node_at (w_fs w) Media.OUTPUT_DIR = Some (NFile f) ->
   Media.main w
   = (Raise (os_error FileExistsError Media.OUTPUT_DIR),
      World (w_fs w) (w_out w ++ [LBanner]))) /\
  (exists_in (w_fs w) Productos.SOURCE_DIR = true ->
   node_at (w_fs w) Productos.OUTPUT_DIR = Some (NFile f) ->
   Productos.main w
   = (Raise (os_error FileExistsError Productos.OUTPUT_DIR),
      World (w_fs w) (w_out w ++ [LBanner]))).
Proof.
  intros Hdirs. split; intros Hex Hfile.
  - rewrite (Media_main_found _ Hex). unfold mkdir_parents, Media.OUTPUT_DIR, join in *.
    rewrite (mkdir_from_blocked script_dir [] (w_fs w) _ f); [reflexivity | exact Hdirs |].
    simpl. rewrite <- Hfile. symmetry. apply node_at_nonroot.
    intros E. apply app_eq_nil in E as [_ E]. discriminate.
  - rewrite (Productos_main_found _ Hex).
    unfold mkdir_parents, Productos.OUTPUT_DIR, join in *.
    rewrite (mkdir_from_blocked script_dir [] (w_fs w) _ f); [reflexivity | exact Hdirs |].
    simpl. rewrite <- Hfile. symmetry. apply node_at_nonroot.
    intros E. apply app_eq_nil in E as [_ E]. discriminate.
Qed.

End OutputProperties.

(** After a run over the media tree [notes.txt] is below the output
    directory as it is below the source. *)
Lemma other_files_are_mirrored_witness :
  node_at
    (w_fs (snd (@Media.main Toy.platform Toy.imagelib (Toy.subprocess NotInstalled)
                  (World Toy.media_tree []))))
    Toy.notes_dst
  = Some (NFile (File Toy.junk Toy.a_meta)).
Proof.
  refine (proj1 (@other_files_are_mirrored Toy.platform Toy.imagelib
                   (Toy.subprocess NotInstalled) (World Toy.media_tree []) _
                   ["notes.txt"]%string (File Toy.junk Toy.a_meta) _ _ _ _ _)).
  - apply pair_of_fst. vm_compute. reflexivity.
  - vm_compute. reflexivity.
  - vm_compute. reflexivity.
  - vm_compute. reflexivity.
  - vm_compute. reflexivity.
Defined.

(** The run over the blocked tree ends at [mkdir]. *)
Lemma a_file_in_place_of_the_output_directory_stops_the_run_witness :
  @Media.main Toy.platform Toy.imagelib (Toy.subprocess NotInstalled)
    (World Sample.blocked_tree [])
  = (Raise (@os_error Toy.platform FileExistsError (@Media.OUTPUT_DIR Toy.platform)),
     World Sample.blocked_tree [LBanner]).
Proof.
  refine (proj1 (@a_file_in_place_of_the_output_directory_stops_the_run
                   Toy.platform Toy.imagelib (Toy.subprocess NotInstalled)
                   (World Sample.blocked_tree []) (File Toy.junk Toy.a_meta) _) _ _).
  - intros k Hk. assert (k = 1)%nat as -> by (simpl in Hk; lia).
    vm_compute. reflexivity.
  - vm_compute. reflexivity.
  - vm_compute. reflexivity.
Defined.


(** ** The two scripts side by side, and the way to a success *)

Section TwinProperties.
Context `{Platform} `{ImageLib} `{Subprocess}.

Lemma fallback_resized (src dst : path) (err : string) (m m' : fs) (r r' : result)
    (o : outcome unit) :
  fallback src dst err (m, r) = (o, (m', r')) -> resized r' = resized r.
Proof.
  unfold fallback, bind, on_fst, set_local, ret. intros Hrun.
  destruct (copy2 src dst m) as [[[]|?] m1]; [| injection Hrun as _ _ <-; reflexivity].
  destruct (get_file_size_mb dst m1) as [[opt|?] m2];
    injection Hrun as _ _ <-; reflexivity.
Qed.

(** X20.  The [optimize_image] of the product script is the
    [optimize_image] of the media script without the key ['resized']: on
    every source, destination and filesystem the two return or raise alike,
    leave the same filesystem, and the results agree in every other key. *)
Theorem the_two_optimize_image_agree (src dst : path) (m : fs) :
  Productos.optimize_image src dst m
  = (map_outcome without_resized (fst (Media.optimize_image src dst m)),
     snd (Media.optimize_image src dst m)).
Proof.
  destruct (Media.optimize_image src dst m) as [oM mM] eqn:EM. simpl fst. simpl snd.
  rewrite Media_optimize_image_unfold in EM. rewrite Productos_optimize_image_unfold.
  destruct (get_file_size_mb src m) as [[orig|e] m0] eqn:E0.
  2:{ rewrite (bind_Raise _ _ _ _ _ E0) in EM. rewrite (bind_Raise _ _ _ _ _ E0).
      injection EM as <- <-. reflexivity. }
  rewrite (bind_Ok _ _ _ _ _ E0) in EM. rewrite (bind_Ok _ _ _ _ _ E0).
  cbv beta in EM |- *.
  unfold bind, with_local, try_except, on_fst, set_local, reduction, ret, raise in EM |- *.
  assert (Hsame : forall r : result, resized r = None -> without_resized r = r)
    by (intros [] Hr; simpl in Hr; subst; reflexivity).
  destruct (transcode_image src dst m0) as [[[[final osz] img']|e] m1].
  - destruct (get_file_size_mb final m1) as [[opt|e] m2].
    + destruct (Fdiv opt orig) as [q|].
      * injection EM as <- <-. reflexivity.
      * destruct (fallback _ _ _ _) as [[[]|e0] [m3 r3]] eqn:Ef;
          injection EM as <- <-; [| reflexivity].
        apply fallback_resized in Ef. simpl. rewrite (Hsame _ Ef). reflexivity.
    + destruct (fallback _ _ _ _) as [[[]|e0] [m3 r3]] eqn:Ef;
        injection EM as <- <-; [| reflexivity].
      apply fallback_resized in Ef. simpl. rewrite (Hsame _ Ef). reflexivity.
  - destruct (fallback _ _ _ _) as [[[]|e0] [m3 r3]] eqn:Ef;
      injection EM as <- <-; [| reflexivity].
    apply fallback_resized in Ef. simpl. rewrite (Hsame _ Ef). reflexivity.
Qed.

End TwinProperties.

Section HappyPath.
Context `{Platform} `{ImageLib} `{Subprocess}.



End HappyPath.



Section SizeTotals.
Context `{Platform} `{ImageLib} `{Subprocess}.

(** X22.  The original sizes of the summary are sums over the files as
    they were before the run: in a run that returns, the "Tamaño original"
    of a category is what [+=] makes, starting from 0 and in the order of
    the listing, of the sizes in MB of the files of that category - the
    image files for ['images'], the video files for ['videos'], every
    listed file in the product script - whether a file was converted or
    fell back to the copy. *)
Theorem the_original_sizes_add_up (w w' : world) :
  (exists_in (w_fs w) Media.SOURCE_DIR = true ->
   Media.main w = (Ok tt, w') ->
   exists (m0 : fs) (st : Media.stats) (w1 : world),
     mkdir_parents Media.OUTPUT_DIR (w_fs w) = (Ok tt, m0) /\
     Media.print_summary st w1 = (Ok tt, w') /\
     original_size (Media.images st)
     = sum_of_sizes (w_fs w) is_image (regular_files m0 Media.SOURCE_DIR) zero /\
     original_size (Media.videos st)
     = sum_of_sizes (w_fs w) is_video (regular_files m0 Media.SOURCE_DIR) zero) /\
  (exists_in (w_fs w) Productos.SOURCE_DIR = true ->
   Productos.main w = (Ok tt, w') ->
   exists (m0 : fs) (st : cat_stats) (w1 : world),
     mkdir_parents Productos.OUTPUT_DIR (w_fs w) = (Ok tt, m0) /\
     Productos.print_summary st w1 = (Ok tt, w') /\
     original_size st
     = sum_of_sizes (w_fs w) (fun _ => true)
         (List.filter (fun f => is_file_in m0 f && is_image f)
                      (enumerated m0 Productos.SOURCE_DIR)) zero).
Proof.
  split; intros Hex Hrun.
  - rewrite (Media_main_found _ Hex) in Hrun.
    destruct (mkdir_parents Media.OUTPUT_DIR (w_fs w)) as [[[]|e] m0] eqn:Hmk;
      [| discriminate].
    cbv zeta in Hrun. apply bind_Ok_inv in Hrun as (st & w1 & Hloop & Hsum).
    assert (Hs : "Servicios"%string <> "ServiciosOptimized"%string) by discriminate.
    destruct (listing_before_mkdir script_dir _ _ _ _ (fun _ => true) Hs Hmk)
      as [Hlist Hsame].
    rewrite <- regular_files_alt in Hlist.
    destruct (Media_loop_sizes _ (w_fs w) _ _ _ _ (World m0 _) _ Hlist Hsame Hloop)
      as [Hi Hv].
    exists m0, st, w1. split; [reflexivity |]. split; [exact Hsum |].
    split; [exact Hi |]. rewrite Hv. apply sum_of_sizes_ext.
    intros p. destruct (is_image p) eqn:Ei; [| reflexivity].
    rewrite (image_is_no_video _ Ei). reflexivity.
  - rewrite (Productos_main_found _ Hex) in Hrun.
    destruct (mkdir_parents Productos.OUTPUT_DIR (w_fs w)) as [[[]|e] m0] eqn:Hmk;
      [| discriminate].
    cbv zeta in Hrun. apply bind_Ok_inv in Hrun as (st & w1 & Hloop & Hsum).
    assert (Hs : "Productos"%string <> "ProductosOptimized"%string) by discriminate.
    destruct (listing_before_mkdir script_dir _ _ _ _ is_image Hs Hmk) as [Hlist Hsame].
    pose proof (Productos_loop_sizes _ (w_fs w) _ _ _ _ (World m0 _) _ Hlist Hsame Hloop)
      as Hsz.
    exists m0, st, w1. split; [reflexivity |]. split; [exact Hsum | exact Hsz].
Qed.

End SizeTotals.

(** The product tree: the original size of the summary is the size of
    [p.webp]. *)
Lemma the_original_sizes_add_up_witness :
  exists (st : cat_stats) (w1 : world),
    @Productos.print_summary Toy.platform st w1
    = (Ok tt, snd (@Productos.main Toy.platform Toy.imagelib (World Toy.product_tree []))) /\
    original_size st = Fadd zero (size_mb (File (Toy.picture 800 600) Toy.a_meta)).
Proof.
  destruct (proj2 (@the_original_sizes_add_up
                     Toy.platform Toy.imagelib (Toy.subprocess NotInstalled)
                     (World Toy.product_tree [])
                     (snd (@Productos.main Toy.platform Toy.imagelib
                             (World Toy.product_tree [])))))
    as (m0 & st & w1 & Hmk & Hsum & Hsz).
  - vm_compute. reflexivity.
  - apply pair_of_fst. vm_compute. reflexivity.
  - exists st, w1. split; [exact Hsum |]. rewrite Hsz.
    assert (Hm0 : m0 = snd (@mkdir_parents Toy.platform
                              (@Productos.OUTPUT_DIR Toy.platform) Toy.product_tree))
      by (simpl in Hmk; rewrite Hmk; reflexivity).
    rewrite Hm0. vm_compute. reflexivity.
Defined.

Section ImageOutputProperty.
Context `{Platform} `{ImageLib} `{Subprocess}.

Lemma image_outputs_nonroot (src dst t : path) :
  dst <> [] -> image_outputs src dst t -> t <> [].
Proof.
  intros Hdst [Hsuf|[->| ->]].
  - exact (proj2 (with_suffix_parent _ _ _ Hsuf)).
  - exact Hdst.
  - intros E. apply app_eq_nil in E as [_ E]. discriminate.
Qed.

Lemma exists_when_walkable (m : fs) (root p : path) :
  walkable m root p = true -> exists_in m root = true.
Proof.
  intros Hw. destruct (walkable_inv _ _ _ Hw) as ([rel ->] & Hlen & Hdirs).
  specialize (Hdirs (length root) ltac:(lia)). rewrite take_app_length in Hdirs.
  unfold is_dir_in, exists_in in *.
  destruct (node_at m root); [reflexivity | discriminate].
Qed.

(** X23.  After a run that returns, every regular file below the source
    directory that has an image extension has left a regular file in the
    output tree: at its mirrored path renamed to [.webp] (the conversion),
    at its mirrored path (the fallback copy), or under its own name inside
    that path where the path was a directory.  The file may have been
    overwritten since by another image of the same stem, but it has not
    been removed. *)
Theorem every_image_leaves_an_output_file (w w' : world) (rel : path) :
  (Media.main w = (Ok tt, w') ->
   walkable (w_fs w) Media.SOURCE_DIR (Media.SOURCE_DIR ++ rel) = true ->
   is_file_in (w_fs w) (Media.SOURCE_DIR ++ rel) = true ->
   is_image (Media.SOURCE_DIR ++ rel) = true ->
   exists (t : path) (g : file),
     image_outputs (Media.SOURCE_DIR ++ rel) (join Media.OUTPUT_DIR rel) t /\
     node_at (w_fs w') t = Some (NFile g)) /\
  (Productos.main w = (Ok tt, w') ->
   walkable (w_fs w) Productos.SOURCE_DIR (Productos.SOURCE_DIR ++ rel) = true ->
   is_file_in (w_fs w) (Productos.SOURCE_DIR ++ rel) = true ->
   is_image (Productos.SOURCE_DIR ++ rel) = true ->
   exists (t : path) (g : file),
     image_outputs (Productos.SOURCE_DIR ++ rel) (join Productos.OUTPUT_DIR rel) t /\
     node_at (w_fs w') t = Some (NFile g)).
Proof.
  split; intros Hrun Hwalk Hfile Himg.
  - pose proof (exists_when_walkable _ _ _ Hwalk) as Hex.
    destruct (walkable_inv _ _ _ Hwalk) as (_ & Hlen & _).
    assert (Hrel : rel <> []) by (intros ->; rewrite app_nil_r in Hlen; lia).
    rewrite (Media_main_found _ Hex) in Hrun.
    destruct (mkdir_parents Media.OUTPUT_DIR (w_fs w)) as [[[]|e] m0] eqn:Hmk;
      [| discriminate].
    cbv zeta in Hrun. apply bind_Ok_inv in Hrun as (st & w1 & Hloop & Hsum).
    destruct (Media_print_summary_total st w1) as (tail & Htail).
    rewrite Htail in Hsum. injection Hsum as <-. simpl w_fs.
    assert (Hs : "Servicios"%string <> "ServiciosOptimized"%string) by discriminate.
    destruct (listing_before_mkdir script_dir _ _ _ _ (fun _ => true) Hs Hmk)
      as [Hlist _].
    rewrite <- regular_files_alt in Hlist.
    assert (Hin : In (Media.SOURCE_DIR ++ rel) (regular_files m0 Media.SOURCE_DIR)).
    { apply list_elem_of_In. rewrite regular_files_alt.
      unfold Media.SOURCE_DIR, Media.OUTPUT_DIR, join in *.
      apply (listed_files_spec _ _ _ _ _ _ (fun _ => true) _ Hs Hmk). auto. }
    destruct (Media_loop_leaves_output _ rel _ _ _ _ _ _ Himg Hin
                (fun q Hq => proj1 (proj2 (Hlist q Hq))) Hloop) as (t & g & Ht & Hg).
    exists t, g. split; [exact Ht |].
    rewrite node_at_nonroot; [exact Hg |].
    refine (image_outputs_nonroot _ _ _ _ Ht).
    intros E. apply app_eq_nil in E as [_ E]. contradiction.
  - pose proof (exists_when_walkable _ _ _ Hwalk) as Hex.
    destruct (walkable_inv _ _ _ Hwalk) as (_ & Hlen & _).
    assert (Hrel : rel <> []) by (intros ->; rewrite app_nil_r in Hlen; lia).
    rewrite (Productos_main_found _ Hex) in Hrun.
    destruct (mkdir_parents Productos.OUTPUT_DIR (w_fs w)) as [[[]|e] m0] eqn:Hmk;
      [| discriminate].
    cbv zeta in Hrun. apply bind_Ok_inv in Hrun as (st & w1 & Hloop & Hsum).
    destruct (Productos_print_summary_total st w1) as (tail & Htail).
    rewrite Htail in Hsum. injection Hsum as <-. simpl w_fs.
    assert (Hs : "Productos"%string <> "ProductosOptimized"%string) by discriminate.
    destruct (listing_before_mkdir script_dir _ _ _ _ is_image Hs Hmk) as [Hlist _].
    assert (Hin : In (Productos.SOURCE_DIR ++ rel)
                     (List.filter (fun f => is_file_in m0 f && is_image f)
                                  (enumerated m0 Productos.SOURCE_DIR))).
    { apply list_elem_of_In.
      unfold Productos.SOURCE_DIR, Productos.OUTPUT_DIR, join in *.
      apply (listed_files_spec _ _ _ _ _ _ is_image _ Hs Hmk). auto. }
    destruct (Productos_loop_leaves_output _ rel _ _ _ _ _ _ Hin
                (fun q Hq => proj1 (proj2 (Hlist q Hq))) Hloop) as (t & g & Ht & Hg).
    exists t, g. split; [exact Ht |].
    rewrite node_at_nonroot; [exact Hg |].
    refine (image_outputs_nonroot _ _ _ _ Ht).
    intros E. apply app_eq_nil in E as [_ E]. contradiction.
Qed.

End ImageOutputProperty.

(** After a run over the twin tree there is a file at [a.webp]. *)
Lemma every_image_leaves_an_output_file_witness :
  exists (t : path) (g : file),
    image_outputs Sample.a_jpg Sample.a_jpg_dst t /\
    node_at (w_fs (snd (@Productos.main Toy.platform Toy.imagelib
                          (World Sample.twin_tree [])))) t = Some (NFile g).
Proof.
  refine (proj2 (@every_image_leaves_an_output_file Toy.platform Toy.imagelib
                   (Toy.subprocess NotInstalled) (World Sample.twin_tree []) _
                   ["a.jpg"]%string) _ _ _ _).
  - apply pair_of_fst. vm_compute. reflexivity.
  - vm_compute. reflexivity.
  - vm_compute. reflexivity.
  - vm_compute. reflexivity.
Defined.

